(** * LainExBot: the download orchestration engine

    A shallow embedding of [managers.py] (class [DownloadManager]),
    [errors.py] (class [ErrorManager]), the parts of [utils.py] and
    [config.py] they call, and the pending links and the download button
    of [handlers.py] (class [BotHandlers]), followed by the properties of
    the engine.

    Conventions of the embedding.
    - A Python [str] is a [string]: the UTF-8 bytes of the text.  The
      literals of the program are written as they stand in the source.
      What the library finds inside characters is found in these bytes:
      the class [\d] of the regular expressions is the decimal digits of
      Unicode, in every script; [str.strip] and the class [\s] take its
      white space; the control characters are those of the patterns.
      [str.lower] folds the ASCII and the Cyrillic capitals and the two
      other characters that become ASCII letters; it keeps the capitals
      of other scripts, which no test of the program can tell from
      their small letters.  The tables are those of Unicode 14.0.
    - A Python [int] is a [Z]; [dict] is a [gmap], [set] is a [gset].
    - An awaited call into the outside world (the extractor, HTTP, the
      chat transport, the file system primitives) is answered by an
      oracle of the environment [env]; the oracle sees the whole current
      world, trace included, so it may answer differently at every call.
    - Every call into the outside world leaves an event in the trace. *)

From Stdlib Require Import ZArith QArith Ascii String List Bool Lia DecimalString.
From Stdlib Require Import Lqa.
From stdpp Require Import gmap strings list fin_maps.

Open Scope string_scope.
Open Scope list_scope.

(* [simpl] unfolds string concatenation when its first argument is a
   constructor. *)
#[local] Arguments String.append !s1 s2 : simpl nomatch.

(** ** Python strings *)

Module PyStr.

(** [s.startswith(p)] *)
Fixpoint startswith (p s : string) : bool :=
  match p with
  | EmptyString => true
  | String a p' =>
      match s with
      | EmptyString => false
      | String b s' => if Ascii.eqb a b then startswith p' s' else false
      end
  end.

(** [p in s] for two strings: [p] occurs in [s] at some position. *)
Fixpoint contains (p s : string) : bool :=
  if startswith p s then true
  else match s with
       | EmptyString => false
       | String _ s' => contains p s'
       end.

(** The rest of [s] after the prefix [p], when [s] starts with [p]. *)
Fixpoint strip_prefix (p s : string) : option string :=
  match p with
  | EmptyString => Some s
  | String a p' =>
      match s with
      | EmptyString => None
      | String b s' => if Ascii.eqb a b then strip_prefix p' s' else None
      end
  end.

(** [p] occurs in [s]: the meaning of Python's [p in s]. *)
Definition occurs_in (p s : string) : Prop :=
  exists pre post, s = pre +:+ p +:+ post.

Definition byte (c : ascii) : N := N_of_ascii c.

Definition is_upper (c : ascii) : bool :=
  (65 <=? byte c)%N && (byte c <=? 90)%N.

Definition in_range (lo hi : N) (c : ascii) : bool :=
  (lo <=? byte c)%N && (byte c <=? hi)%N.

Definition shift (d : N) (c : ascii) : ascii := ascii_of_N (byte c + d).
Definition unshift (d : N) (c : ascii) : ascii := ascii_of_N (byte c - d).

(** [s.lower()].  The letters folded are the ASCII capitals; the
    Cyrillic capitals U+0400..U+042F, which UTF-8 writes as the two bytes
    D0 80..AF, their small letters being U+0450..U+045F (D1 90..9F),
    U+0430..U+043F (D0 B0..BF) and U+0440..U+044F (D1 80..8F); and the
    two other characters whose lower case holds an ASCII letter:
    U+212A KELVIN SIGN (E2 84 AA), which becomes [k], and U+0130, the
    capital I with a dot (C4 B0), which becomes [i] followed by U+0307
    (CC 87).  Every other character is kept: the capitals of other
    scripts are not folded.  No character kept has an ASCII character
    or one of U+0430..U+045F in its lower case, so [p in s.lower()] and
    [s.lower() == p] are here what they are in Python for every [p]
    written in ASCII and small Cyrillic letters, as all phrases,
    domains and extensions of the program are. *)
Fixpoint lower (s : string) : string :=
  match s with
  | EmptyString => EmptyString
  | String c s' =>
      if is_upper c then String (shift 32 c) (lower s')
      else if in_range 208 208 c then
        match s' with
        | String d s'' =>
            if in_range 128 143 d then
              String (shift 1 c) (String (shift 16 d) (lower s''))
            else if in_range 144 159 d then
              String c (String (shift 32 d) (lower s''))
            else if in_range 160 175 d then
              String (shift 1 c) (String (unshift 32 d) (lower s''))
            else String c (lower s')
        | EmptyString => String c EmptyString
        end
      else if in_range 196 196 c then
        match s' with
        | String d s'' =>
            if in_range 176 176 d then
              String "i" (String (ascii_of_N 204) (String (ascii_of_N 135) (lower s'')))
            else String c (lower s')
        | EmptyString => String c EmptyString
        end
      else if in_range 226 226 c then
        match s' with
        | String d (String e s3) =>
            if in_range 132 132 d && in_range 170 170 e
            then String "k" (lower s3)
            else String c (lower s')
        | _ => String c (lower s')
        end
      else String c (lower s')
  end.

(** *** Decimal digits

    The class [\d] of the regular expressions, on a [str] pattern, is
    the decimal digits of Unicode (category Nd), in every script; they
    come in rows of ten, zero to nine.  [DECIMAL_ZEROS] holds the code
    point of the zero of each row, as version 14.0 of the Unicode
    database has them (CPython 3.11). *)
Definition DECIMAL_ZEROS : list N :=
  [
    48; 1632; 1776; 1984; 2406; 2534; 2662; 2790; 2918; 3046; 3174; 3302;
    3430; 3558; 3664; 3792; 3872; 4160; 4240; 6112; 6160; 6470; 6608; 6784;
    6800; 6992; 7088; 7232; 7248; 42528; 43216; 43264; 43472; 43504; 43600;
    44016; 65296; 66720; 68912; 69734; 69872; 69942; 70096; 70384; 70736;
    70864; 71248; 71360; 71472; 71904; 72016; 72784; 73040; 73120; 92768;
    92864; 93008; 120782; 120792; 120802; 120812; 120822; 123200; 123632;
    125264; 130032 ]%N.

Definition is_decimal (cp : N) : bool :=
  existsb (fun zero => (zero <=? cp)%N && (cp <=? zero + 9)%N) DECIMAL_ZEROS.

(** UTF-8 writes a character as one byte 00..7F, or as a first byte
    C2..DF, E0..EF or F0..F4 followed by one, two or three bytes 80..BF
    of six bits each. *)
Definition cont (c : ascii) : bool := in_range 128 191 c.
Definition six (c : ascii) : N := byte c - 128.

Definition code2 (c d : ascii) : N := (byte c - 192) * 64 + six d.
Definition code3 (c d e : ascii) : N := ((byte c - 224) * 64 + six d) * 64 + six e.
Definition code4 (c d e f : ascii) : N :=
  (((byte c - 240) * 64 + six d) * 64 + six e) * 64 + six f.

(** The bytes given are one decimal digit. *)
Definition digit1 (c : ascii) : bool :=
  in_range 0 127 c && is_decimal (byte c).
Definition digit2 (c d : ascii) : bool :=
  in_range 194 223 c && cont d && is_decimal (code2 c d).
Definition digit3 (c d e : ascii) : bool :=
  in_range 224 239 c && cont d && cont e && is_decimal (code3 c d e).
Definition digit4 (c d e f : ascii) : bool :=
  in_range 240 244 c && cont d && cont e && cont f && is_decimal (code4 c d e f).

(** The decimal digit [s] begins with, as its bytes, and what follows
    it: one step of [\d]. *)
Definition digit_at (s : string) : option (string * string) :=
  match s with
  | String c s1 =>
      if digit1 c then Some (String c EmptyString, s1)
      else
        match s1 with
        | String d s2 =>
            if digit2 c d then Some (String c (String d EmptyString), s2)
            else
              match s2 with
              | String e s3 =>
                  if digit3 c d e
                  then Some (String c (String d (String e EmptyString)), s3)
                  else
                    match s3 with
                    | String f s4 =>
                        if digit4 c d e f
                        then Some (String c (String d (String e (String f EmptyString))),
                                   s4)
                        else None
                    | EmptyString => None
                    end
              | EmptyString => None
              end
        | EmptyString => None
        end
  | EmptyString => None
  end.

(** [d] is one decimal digit: a match of [\d]. *)
Definition is_digit (d : string) : bool :=
  match digit_at d with
  | Some (_, EmptyString) => true
  | _ => false
  end.

(** The longest run of digits [s] starts with: a greedy [\d*]. *)
Fixpoint take_digits (s : string) : string :=
  match s with
  | String c s1 =>
      if digit1 c then String c (take_digits s1)
      else
        match s1 with
        | String d s2 =>
            if digit2 c d then String c (String d (take_digits s2))
            else
              match s2 with
              | String e s3 =>
                  if digit3 c d e
                  then String c (String d (String e (take_digits s3)))
                  else
                    match s3 with
                    | String f s4 =>
                        if digit4 c d e f
                        then String c (String d (String e (String f (take_digits s4))))
                        else EmptyString
                    | EmptyString => EmptyString
                    end
              | EmptyString => EmptyString
              end
        | EmptyString => EmptyString
        end
  | EmptyString => EmptyString
  end.

(** [s] is made of decimal digits and nothing else. *)
Fixpoint all_digits (s : string) : bool :=
  match s with
  | String c s1 =>
      if digit1 c then all_digits s1
      else
        match s1 with
        | String d s2 =>
            if digit2 c d then all_digits s2
            else
              match s2 with
              | String e s3 =>
                  if digit3 c d e then all_digits s3
                  else
                    match s3 with
                    | String f s4 => if digit4 c d e f then all_digits s4 else false
                    | EmptyString => false
                    end
              | EmptyString => false
              end
        | EmptyString => false
        end
  | EmptyString => true
  end.

(** [s] does not begin with a digit: where a greedy digit run stops. *)
Definition no_leading_digit (s : string) : Prop := digit_at s = None.

End PyStr.

(** ** [config.py] and [models.py] *)

Definition VIDEO_EXTENSIONS : list string :=
  [".mp4"; ".mkv"; ".webm"; ".avi"; ".mov"; ".wmv"; ".flv"].
Definition AUDIO_EXTENSIONS : list string :=
  [".mp3"; ".m4a"; ".wav"; ".aac"; ".ogg"].

Inductive DownloadStatus :=
  QUEUED | DOWNLOADING | SENDING | COMPLETED | FAILED.

(** [FileFormat.VIDEO.value] and [FileFormat.AUDIO.value] *)
Definition VIDEO : string := "video".
Definition AUDIO : string := "audio".

Inductive Platform :=
  | YOUTUBE | TIKTOK | INSTAGRAM | FACEBOOK | TWITTER | VK | REDDIT
  | PINTEREST | DAILYMOTION | VIMEO | SOUNDCLOUD | DIRECT | UNKNOWN.

(** [DownloadTask], without the two time stamps. *)
Record DownloadTask := {
  task_id : Z;
  user_id : Z;
  url : string;
  mode : string;
  status : DownloadStatus;
  error_message : option string
}.

(** ** Exceptions

    An exception is its class and its text; [str(error)] is the text. *)

Inductive exn_class :=
  | RuntimeError | FileNotFoundError | ValueError | KeyError
  | Foreign (name : string).

Record exn := { exn_cls : exn_class; exn_text : string }.

Definition str_of_exn (e : exn) : string := exn_text e.

Inductive outcome (A : Type) :=
  | Ret (a : A)
  | Raise (e : exn).
Arguments Ret {A} a.
Arguments Raise {A} e.

(** ** The flaky platform: canonical URL, attempt plan, classifier *)

(** [re.match(r"/video/(?P<video_id>\d+)", s)]: the pattern at the start
    of [s]; the group is the longest digit run, which must not be empty. *)
Definition match_video_at (s : string) : option string :=
  match PyStr.strip_prefix "/video/" s with
  | Some rest =>
      match PyStr.take_digits rest with
      | EmptyString => None
      | ds => Some ds
      end
  | None => None
  end.

(** [re.search] of the same pattern: the match at the leftmost position
    that has one. *)
Fixpoint search_video_id (s : string) : option string :=
  match match_video_at s with
  | Some ds => Some ds
  | None =>
      match s with
      | EmptyString => None
      | String _ s' => search_video_id s'
      end
  end.

Definition TIKTOK_ROOT : string := "https://www.tiktok.com/@_/video/".

Definition canonicalize_tiktok_video_url (url : string) : option string :=
  match search_video_id url with
  | None => None
  | Some video_id => Some (TIKTOK_ROOT +:+ video_id)
  end.

(** One entry of the plan: the URL and the [use_tiktok_app_api] flag. *)
Definition attempt : Type := string * bool.

(** [not attempt_url] for an [Optional[str]]: [None] and the empty string
    are both false in Python. *)
Definition falsy (o : option string) : bool :=
  match o with
  | None => true
  | Some EmptyString => true
  | Some _ => false
  end.

(** One turn of the [for] loop of [_build_tiktok_attempt_plan]; the loop
    state is the set [seen] and the list [attempts]. *)
Definition plan_step (st : gset attempt * list attempt)
    (cand : option string * bool) : gset attempt * list attempt :=
  let '(seen, attempts) := st in
  let '(attempt_url, app_api) := cand in
  if falsy attempt_url then st
  else
    match attempt_url with
    | None => st
    | Some attempt_url =>
        let key := (attempt_url, app_api) in
        if decide (key ∈ seen) then st
        else ({[ key ]} ∪ seen, attempts ++ [key])
    end.

Definition build_tiktok_attempt_plan (url : string) : list attempt :=
  let canonical := canonicalize_tiktok_video_url url in
  snd (foldl plan_step (∅, [])
         [(Some url, false); (canonical, false); (Some url, true); (canonical, true)]).

Definition TRANSIENT_TOKENS : list string :=
  [ "unable to extract webpage video data";
    "unable to download webpage";
    "video not available";
    "extractorerror" ].

(** [any(token in msg for token in tokens)] *)
Definition any_token_in (tokens : list string) (msg : string) : bool :=
  existsb (fun token => PyStr.contains token msg) tokens.

Definition is_tiktok_extraction_error (error : exn) : bool :=
  let msg := PyStr.lower (str_of_exn error) in
  if negb (PyStr.contains "tiktok" msg) then false
  else any_token_in TRANSIENT_TOKENS msg.

(** ** [errors.py]: the user-facing message of a failure *)

Definition nl : string := String (ascii_of_N 10) EmptyString.

(** [html.escape(s)] with [quote=True] *)
Fixpoint html_escape (s : string) : string :=
  match s with
  | EmptyString => EmptyString
  | String c s' =>
      (match PyStr.byte c with
       | 38%N => "&amp;"
       | 60%N => "&lt;"
       | 62%N => "&gt;"
       | 34%N => "&quot;"
       | 39%N => "&#x27;"
       | _ => String c EmptyString
       end) +:+ html_escape s'
  end.

(** A byte 80..BF continues the UTF-8 encoding of a character. *)
Definition is_continuation (c : ascii) : bool := PyStr.in_range 128 191 c.

(** [s[:n]]: the first [n] characters of [s]. *)
Fixpoint take_chars (n : nat) (s : string) : string :=
  match s with
  | EmptyString => EmptyString
  | String c s' =>
      if is_continuation c then String c (take_chars n s')
      else match n with
           | O => EmptyString
           | S n' => String c (take_chars n' s')
           end
  end.

Definition MSG_DRM : string :=
  "🔒 <b>Видео защищено DRM.</b>" +:+ nl +:+
  "Такой контент нельзя скачать через обычные инструменты (включая yt-dlp).".
Definition MSG_UNSUPPORTED : string :=
  "❌ <b>Ссылка не поддерживается.</b>" +:+ nl +:+
  "Отправьте прямую ссылку на пост или видео.".
Definition MSG_TOO_LARGE : string :=
  "❌ <b>Файл слишком большой для Telegram.</b>" +:+ nl +:+
  "Выберите аудио или другой ролик.".
Definition MSG_TIMEOUT : string :=
  "⏱️ <b>Превышено время ожидания.</b>" +:+ nl +:+
  "Попробуйте снова чуть позже.".
Definition MSG_DISK : string :=
  "💾 <b>Недостаточно места на диске.</b>" +:+ nl +:+
  "Повторите попытку позже.".
Definition MSG_TIKTOK_DATA : string :=
  "❌ <b>TikTok сейчас не отдаёт данные видео.</b>" +:+ nl +:+
  "Попробуйте позже, другую ссылку или обновите yt-dlp до последней версии.".
Definition MSG_UNAVAILABLE : string :=
  "❌ <b>Видео недоступно.</b>" +:+ nl +:+
  "Возможно ролик удалён, приватный или ограничен по региону/возрасту.".
Definition MSG_GENERIC (safe_details : string) : string :=
  "⚠️ <b>Не удалось скачать медиа.</b>" +:+ nl +:+
  "<code>" +:+ safe_details +:+ "</code>".

(** [ErrorManager.to_user_message]; its argument [url] is not read. *)
Definition to_user_message (error : exn) : string :=
  let msg := PyStr.lower (str_of_exn error) in
  if PyStr.contains "drm protected" msg then MSG_DRM
  else if PyStr.contains "unsupported" msg then MSG_UNSUPPORTED
  else if PyStr.contains "too large" msg || PyStr.contains "размер" msg
          || PyStr.contains "max_filesize" msg then MSG_TOO_LARGE
  else if PyStr.contains "timeout" msg || PyStr.contains "timed out" msg
       then MSG_TIMEOUT
  else if PyStr.contains "disk" msg || PyStr.contains "space" msg then MSG_DISK
  else if PyStr.contains "unable to extract webpage video data" msg
       then MSG_TIKTOK_DATA
  else if PyStr.contains "video not available" msg || PyStr.contains "private" msg
       then MSG_UNAVAILABLE
  else MSG_GENERIC (take_chars 350 (html_escape (str_of_exn error))).

(** ** [utils.detect_platform]

    [DIRECT_FILE_RE.search(url)] is the argument [direct_file_re]. *)
Definition detect_platform (direct_file_re : string -> bool) (url : string)
    : Platform :=
  match url with
  | EmptyString => UNKNOWN
  | _ =>
    let low := PyStr.lower url in
    if PyStr.contains "youtube.com" low || PyStr.contains "youtu.be" low then YOUTUBE
    else if PyStr.contains "tiktok.com" low then TIKTOK
    else if PyStr.contains "instagram.com" low then INSTAGRAM
    else if PyStr.contains "facebook.com" low then FACEBOOK
    else if PyStr.contains "twitter.com" low || PyStr.contains "x.com" low then TWITTER
    else if PyStr.contains "vk.com" low || PyStr.contains "m.vkvideo.ru" low then VK
    else if PyStr.contains "reddit.com" low then REDDIT
    else if PyStr.contains "pinterest.com" low || PyStr.contains "pin.it" low
         then PINTEREST
    else if PyStr.contains "dailymotion.com" low then DAILYMOTION
    else if PyStr.contains "vimeo.com" low then VIMEO
    else if PyStr.contains "soundcloud.com" low then SOUNDCLOUD
    else if direct_file_re url then DIRECT
    else UNKNOWN
  end.

(** ** [DownloadManager]: the queue and the per-requester quota *)

(** An entry of the queue, [(task_id, callback_query, url, mode)]; of the
    callback query the manager reads [from_user.id] only. *)
Record queue_item := {
  item_task_id : Z;
  item_user : Z;
  item_url : string;
  item_mode : string
}.

Record DownloadManager := {
  max_concurrent : Z;
  queue : list (option queue_item);   (* [None] is the stop sentinel *)
  processing : Z;
  task_counter : Z;
  active_tasks : gmap Z (gset Z);
  queued_tasks : gmap Z Z
}.

(** [DownloadManager.__init__], the fields *)
Definition new_manager (max_concurrent : Z) : DownloadManager :=
  {| max_concurrent := Z.max 1 max_concurrent;
     queue := [];
     processing := 0;
     task_counter := 0;
     active_tasks := ∅;
     queued_tasks := ∅ |}.

(** [len(self.active_tasks.get(user_id, set()))] *)
Definition active_count (dm : DownloadManager) (user_id : Z) : Z :=
  Z.of_nat (size (default ∅ (active_tasks dm !! user_id))).

(** [self.queued_tasks.get(user_id, 0)] *)
Definition queued_count (dm : DownloadManager) (user_id : Z) : Z :=
  default 0%Z (queued_tasks dm !! user_id).

(** [get_user_active_downloads] *)
Definition get_user_active_downloads (dm : DownloadManager) (user_id : Z) : Z :=
  (active_count dm user_id + queued_count dm user_id)%Z.

Definition valid_mode (mode : string) : bool :=
  bool_decide (mode = VIDEO) || bool_decide (mode = AUDIO).

(** The manager with its queue replaced. *)
Definition set_queue (dm : DownloadManager) (q : list (option queue_item))
    : DownloadManager :=
  {| max_concurrent := max_concurrent dm;
     queue := q;
     processing := processing dm;
     task_counter := task_counter dm;
     active_tasks := active_tasks dm;
     queued_tasks := queued_tasks dm |}.

(** [add_download].  The two [answer] calls that tell the requester of a
    refusal are left out: they read and write no field of the manager,
    and where they are made, whether they return or raise, nothing of
    the manager has been changed. *)
Definition add_download (dm : DownloadManager) (user_id : Z) (url mode : string)
    : DownloadManager * bool :=
  if negb (valid_mode mode) then (dm, false)
  else
    let active := active_count dm user_id in
    let queued := queued_count dm user_id in
    if (max_concurrent dm <=? active + queued)%Z then (dm, false)
    else
      let task_id := (task_counter dm + 1)%Z in
      let dm1 :=
        {| max_concurrent := max_concurrent dm;
           queue := queue dm;
           processing := processing dm;
           task_counter := task_id;
           active_tasks := active_tasks dm;
           queued_tasks := <[user_id := (queued + 1)%Z]> (queued_tasks dm) |} in
      (* [await self.queue.put(...)], after the lock is released *)
      (set_queue dm1
         (queue dm1 ++
          [Some {| item_task_id := task_id; item_user := user_id;
                   item_url := url; item_mode := mode |}]), true).

Definition mark_task_started (dm : DownloadManager) (user_id task_id : Z)
    : DownloadManager :=
  let queued := (queued_count dm user_id - 1)%Z in
  let queued_tasks' :=
    if (0 <? queued)%Z then <[user_id := queued]> (queued_tasks dm)
    else delete user_id (queued_tasks dm) in
  (* setdefault, then add to the set the map holds *)
  let tasks := default ∅ (active_tasks dm !! user_id) in
  {| max_concurrent := max_concurrent dm;
     queue := queue dm;
     processing := (processing dm + 1)%Z;
     task_counter := task_counter dm;
     active_tasks := <[user_id := tasks ∪ {[ task_id ]}]> (active_tasks dm);
     queued_tasks := queued_tasks' |}.

(** [set.remove]: raises [KeyError] when the element is absent. *)
Definition set_remove (tasks : gset Z) (x : Z) : option (gset Z) :=
  if decide (x ∈ tasks) then Some (tasks ∖ {[ x ]}) else None.

(** The truth value of a set: it is not empty. *)
Definition truthy_set (tasks : gset Z) : bool := bool_decide (tasks ≠ ∅).

(** [_mark_task_finished]; [None] would be an exception raised out of it. *)
Definition mark_task_finished (dm : DownloadManager) (user_id task_id : Z)
    : option DownloadManager :=
  active_tasks' ←
    match active_tasks dm !! user_id with
    | Some tasks =>
        if truthy_set tasks && bool_decide (task_id ∈ tasks) then
          tasks' ← set_remove tasks task_id;
          Some (if truthy_set tasks' then <[user_id := tasks']> (active_tasks dm)
                else delete user_id (active_tasks dm))
        else Some (active_tasks dm)
    | None => Some (active_tasks dm)
    end;
  Some {| max_concurrent := max_concurrent dm;
          queue := queue dm;
          processing := if (0 <? processing dm)%Z then (processing dm - 1)%Z
                        else processing dm;
          task_counter := task_counter dm;
          active_tasks := active_tasks';
          queued_tasks := queued_tasks dm |}.

(** *** The workers

    A worker of [_worker_loop] waits on [queue.get()], then holds the item
    it took until [_mark_task_started] gets the lock, then handles it, and
    ends with [_mark_task_finished]; a sentinel makes it leave the loop.
    [_handle_download], run in between, touches no field of the manager. *)
Inductive worker :=
  | Waiting
  | Holding (it : queue_item)
  | Handling (it : queue_item)
  | Stopped.

Record system := {
  sys_dm : DownloadManager;
  sys_workers : list worker
}.

(** The manager as [__init__] leaves it: one worker per slot. *)
Definition start_system (max_concurrent : Z) : system :=
  {| sys_dm := new_manager max_concurrent;
     sys_workers := replicate (Z.to_nat (Z.max 1 max_concurrent)) Waiting |}.

(** What the event loop can do next: run one [add_download], let a worker
    take the head of the queue, let it mark its task started or finished,
    or run [stop], which queues one sentinel per worker. *)
Inductive step : system -> system -> Prop :=
  | step_add dm ws user_id url mode dm' allowed :
      add_download dm user_id url mode = (dm', allowed) ->
      step {| sys_dm := dm; sys_workers := ws |}
           {| sys_dm := dm'; sys_workers := ws |}
  | step_get dm ws i it rest :
      ws !! i = Some Waiting ->
      queue dm = Some it :: rest ->
      step {| sys_dm := dm; sys_workers := ws |}
           {| sys_dm := set_queue dm rest; sys_workers := <[i := Holding it]> ws |}
  | step_get_sentinel dm ws i rest :
      ws !! i = Some Waiting ->
      queue dm = None :: rest ->
      step {| sys_dm := dm; sys_workers := ws |}
           {| sys_dm := set_queue dm rest; sys_workers := <[i := Stopped]> ws |}
  | step_start dm ws i it :
      ws !! i = Some (Holding it) ->
      step {| sys_dm := dm; sys_workers := ws |}
           {| sys_dm := mark_task_started dm (item_user it) (item_task_id it);
              sys_workers := <[i := Handling it]> ws |}
  | step_finish dm ws i it dm' :
      ws !! i = Some (Handling it) ->
      mark_task_finished dm (item_user it) (item_task_id it) = Some dm' ->
      step {| sys_dm := dm; sys_workers := ws |}
           {| sys_dm := dm'; sys_workers := <[i := Waiting]> ws |}
  | step_stop dm ws :
      step {| sys_dm := dm; sys_workers := ws |}
           {| sys_dm := set_queue dm (queue dm ++ replicate (length ws) None);
              sys_workers := ws |}.

(** The states the manager can be in: those some run leads to. *)
Inductive reachable (max_concurrent : Z) : system -> Prop :=
  | reach_start : reachable max_concurrent (start_system max_concurrent)
  | reach_step s s' :
      reachable max_concurrent s -> step s s' -> reachable max_concurrent s'.

(** *** Calls in any order

    The three operations as a client of the class could call them, with
    any arguments and in any order. *)
Inductive call :=
  | AddDownload (user_id : Z) (url mode : string)
  | MarkStarted (user_id task_id : Z)
  | MarkFinished (user_id task_id : Z).

Definition run_call (dm : DownloadManager) (c : call) : option DownloadManager :=
  match c with
  | AddDownload user_id url mode => Some (fst (add_download dm user_id url mode))
  | MarkStarted user_id task_id => Some (mark_task_started dm user_id task_id)
  | MarkFinished user_id task_id => mark_task_finished dm user_id task_id
  end.

Fixpoint run_calls (dm : DownloadManager) (cs : list call) : option DownloadManager :=
  match cs with
  | [] => Some dm
  | c :: cs' => dm' ← run_call dm c; run_calls dm' cs'
  end.

(** ** The outside world: files, the chat, the extractor *)

(** An entry of a directory, as [iterdir] and [stat] show it. *)
Record entry := {
  e_name : string;
  e_is_file : bool;
  e_mtime : Z;
  e_size : Z        (* bytes *)
}.

(** A file path: the directory and the name in it. *)
Definition path : Type := string * string.

Inductive chat_call :=
  | Announce (task_id : Z)
  | EditStatus (text : string)
  | AnswerAudio (p : path)
  | AnswerVideo (p : path)
  | AnswerDocument (p : path)
  | Report (user_message : string).

Inductive event :=
  | EvMkdtemp (r : outcome string)
  | EvDiskSpace (dir : string) (ok : bool)
  | EvChat (c : chat_call) (failed : option exn)
  | EvNormalize (url : string) (r : option string)
  | EvExtract (a : attempt) (failed : option exn)
  | EvHttpGet (url : string) (r : outcome (Z * string))
  | EvHttpDownload (url : string) (p : path) (failed : option exn)
  | EvRmtree (dir : string) (failed : option exn).

(** The directories that exist, each with its entries in the order
    [iterdir] yields them, and the calls made so far, latest last. *)
Record world := {
  fs : gmap string (list entry);
  trace : list event
}.

(** What the program does not decide.  An oracle is asked with the world
    as it is at the call. *)
Record env := {
  MAX_FILE_SIZE_MB : Z;
  direct_file_re : string -> bool;
  (* urlparse(url).path, or the ValueError that urlparse raises *)
  urlparse_path : string -> outcome string;
  (* utils.extract_tiktok_media_url_from_html *)
  extract_tiktok_media_url_from_html : string -> option string;
  (* int(time.time()), in decimal *)
  time_stamp : world -> string;
  (* tempfile.mkdtemp: the directory that holds it and the random part *)
  o_mkdtemp : world -> outcome (string * string);
  (* shutil.disk_usage: is the free space at least the required one;
     an error counts as yes *)
  o_disk_space : world -> string -> bool;
  o_chat : world -> chat_call -> option exn;
  (* utils.normalize_tiktok_url_async, [None] also on an error *)
  o_normalize : world -> string -> option string;
  (* YoutubeDL(options).extract_info(url, download=True) with the output
     template in the directory: the entries it leaves there, and the
     exception it raised, if any *)
  o_extract : world -> attempt -> string -> bool -> list entry * option exn;
  (* session.get(url): status and text *)
  o_http_get : world -> string -> outcome (Z * string);
  (* utils.download_file_async: the entries of the file's directory after
     it, and the exception it raised, if any *)
  o_http_download : world -> string -> path -> list entry * option exn;
  (* shutil.rmtree *)
  o_rmtree : world -> string -> option exn
}.

(** *** A state and exception monad *)

Definition M (S A : Type) : Type := S -> outcome A * S.

Definition ret {S A} (a : A) : M S A := fun s => (Ret a, s).
Definition raise {S A} (e : exn) : M S A := fun s => (Raise e, s).
Definition bind {S A B} (m : M S A) (k : A -> M S B) : M S B :=
  fun s => match m s with
           | (Ret a, s') => k a s'
           | (Raise e, s') => (Raise e, s')
           end.
(** [try: m except Exception as e: h(e)] *)
Definition try_except {S A} (m : M S A) (h : exn -> M S A) : M S A :=
  fun s => match m s with
           | (Ret a, s') => (Ret a, s')
           | (Raise e, s') => h e s'
           end.
(** [try: m finally: f] *)
Definition try_finally {S A} (m : M S A) (f : M S unit) : M S A :=
  fun s => let '(r, s') := m s in
           match f s' with
           | (Ret _, s'') => (r, s'')
           | (Raise e, s'') => (Raise e, s'')
           end.
(** [try: m except Exception: pass] *)
Definition quietly {S} (m : M S unit) : M S unit :=
  try_except m (fun _ => ret tt).
Definition get {S} : M S S := fun s => (Ret s, s).
Definition modify {S} (f : S -> S) : M S unit := fun s => (Ret tt, f s).
Definition when {S} (b : bool) (m : M S unit) : M S unit :=
  if b then m else ret tt.

Declare Scope monad_scope.
Delimit Scope monad_scope with monad.
Notation "x <- m ;; k" := (bind m (fun x => k))
  (at level 20, m at level 99, k at level 200, only parsing) : monad_scope.
Notation "m ;; k" := (bind m (fun _ => k))
  (at level 100, k at level 200, right associativity, only parsing) : monad_scope.
Open Scope monad_scope.

(** ** Output-file selection *)

(** The tail of [s] from its last dot, when it has one: [s[s.rfind("."):]]. *)
Fixpoint from_last_dot (s : string) : option string :=
  match s with
  | EmptyString => None
  | String c s' =>
      match from_last_dot s' with
      | Some t => Some t
      | None => if Ascii.eqb c "." then Some s else None
      end
  end.

(** [PurePath.suffix]: the name from its last dot on, unless that dot is
    the first or the last character of the name. *)
Definition suffix (name : string) : string :=
  match name with
  | EmptyString => EmptyString
  | String _ rest =>
      match from_last_dot rest with
      | Some (String _ EmptyString) => EmptyString
      | Some t => t
      | None => EmptyString
      end
  end.

(** [x in allowed_ext] *)
Definition in_tuple (x : string) (t : list string) : bool :=
  existsb (String.eqb x) t.

(** The first loop of [_find_latest_file] keeps an entry when neither
    [continue] is taken; an empty tuple is false in Python. *)
Definition kept (allowed_ext : list string) (e : entry) : bool :=
  if negb (e_is_file e) then false
  else if negb (bool_decide (allowed_ext = [])) &&
          negb (in_tuple (PyStr.lower (suffix (e_name e))) allowed_ext)
       then false
  else true.

(** [max(files, key=mtime)] from the running best on: the first of the
    entries with the greatest key. *)
Fixpoint max_from (best : entry) (files : list entry) : entry :=
  match files with
  | [] => best
  | e :: files' =>
      max_from (if (e_mtime best <? e_mtime e)%Z then e else best) files'
  end.

Definition latest_entry (entries : list entry) (allowed_ext : list string)
    : option entry :=
  let files := filter (fun e => kept allowed_ext e = true) entries in
  let files :=
    match files with
    | [] => filter (fun e => e_is_file e = true) entries
    | _ => files
    end in
  match files with
  | [] => None
  | e :: files' => Some (max_from e files')
  end.

Definition not_found_error (text : string) : exn :=
  {| exn_cls := FileNotFoundError; exn_text := text |}.

(** [_find_latest_file]; [iterdir] raises when the directory is missing. *)
Definition find_latest_file (w : world) (temp_dir : string)
    (allowed_ext : list string) : outcome (option path) :=
  match fs w !! temp_dir with
  | None => Raise (not_found_error temp_dir)
  | Some entries =>
      Ret (match latest_entry entries allowed_ext with
           | Some e => Some (temp_dir, e_name e)
           | None => None
           end)
  end.

(** ** File system reads *)

Definition lookup_file (w : world) (p : path) : option entry :=
  match fs w !! p.1 with
  | Some entries => List.find (fun e => String.eqb (e_name e) p.2) entries
  | None => None
  end.

(** [os.path.exists] *)
Definition path_exists (w : world) (p : path) : bool :=
  match lookup_file w p with Some _ => true | None => false end.

(** [os.path.isdir] *)
Definition isdir (w : world) (dir : string) : bool :=
  match fs w !! dir with Some _ => true | None => false end.

(** [utils.get_file_size_mb]: the size over [1024 * 1024], and [0.0] when
    [os.path.getsize] raises.  The quotient is a rational here; the float
    of the program is that same number for every size below 2^53 bytes. *)
Definition get_file_size_mb (w : world) (p : path) : Q :=
  match lookup_file w p with
  | Some e => Qmake (e_size e) 1048576
  | None => Qmake 0 1
  end.

(** [a > b] *)
Definition Qgt_bool (a b : Q) : bool := negb (Qle_bool a b).

(** [str(n)] for an [int] *)
Definition str_of_int (n : Z) : string := NilEmpty.string_of_int (Z.to_int n).

(** The truth value of a [str]. *)
Definition truthy_str (s : string) : bool :=
  match s with EmptyString => false | _ => true end.

(** ** More of Python's strings: [strip], [split], slices

    White space is what [str.isspace] and the class [\s] call white
    space, written as the UTF-8 bytes of each character: U+0009..U+000D,
    U+001C..U+0020, U+0085, U+00A0, U+1680, U+2000..U+200A, U+2028,
    U+2029, U+202F, U+205F and U+3000. *)

Module PyText.

Definition is_space (c : ascii) : bool :=
  PyStr.in_range 9 13 c || PyStr.in_range 28 32 c.

Definition byte_is (n : N) (c : ascii) : bool := (PyStr.byte c =? n)%N.

(** The second byte of a two-byte white space character after C2, and
    the last two bytes of a three-byte one after [c]. *)
Definition space2 (d : ascii) : bool := byte_is 133 d || byte_is 160 d.

Definition space3 (c d e : ascii) : bool :=
  (byte_is 225 c && byte_is 154 d && byte_is 128 e)
  || (byte_is 226 c && byte_is 128 d &&
      (PyStr.in_range 128 138 e || PyStr.in_range 168 169 e || byte_is 175 e))
  || (byte_is 226 c && byte_is 129 d && byte_is 159 e)
  || (byte_is 227 c && byte_is 128 d && byte_is 128 e).

(** [s.lstrip()]; also a greedy [\s*] at the start of [s]. *)
Fixpoint lstrip (s : string) : string :=
  match s with
  | EmptyString => EmptyString
  | String c s1 =>
      if is_space c then lstrip s1
      else
        match s1 with
        | String d s2 =>
            if byte_is 194 c && space2 d then lstrip s2
            else
              match s2 with
              | String e s3 => if space3 c d e then lstrip s3 else s
              | EmptyString => s
              end
        | EmptyString => s
        end
  end.

(** [s.rstrip()]: the text up to the place from which all is white
    space. *)
Fixpoint rstrip (s : string) : string :=
  match lstrip s with
  | EmptyString => EmptyString
  | _ =>
      match s with
      | EmptyString => EmptyString
      | String c s1 => String c (rstrip s1)
      end
  end.

(** [s.strip()] *)
Definition strip (s : string) : string := rstrip (lstrip s).

(** [s.lstrip(".")], [s.rstrip(".")] and [s.strip(".")] *)
Fixpoint lstrip_dots (s : string) : string :=
  match s with
  | String c s1 => if Ascii.eqb c "." then lstrip_dots s1 else s
  | EmptyString => EmptyString
  end.

Fixpoint rstrip_dots (s : string) : string :=
  match lstrip_dots s with
  | EmptyString => EmptyString
  | _ =>
      match s with
      | EmptyString => EmptyString
      | String c s1 => String c (rstrip_dots s1)
      end
  end.

Definition strip_dots (s : string) : string := rstrip_dots (lstrip_dots s).

(** [s.split(sep)] for a separator of one character. *)
Fixpoint split (sep : ascii) (s : string) : list string :=
  match s with
  | EmptyString => [EmptyString]
  | String c s1 =>
      if Ascii.eqb c sep then EmptyString :: split sep s1
      else
        match split sep s1 with
        | part :: parts => String c part :: parts
        | [] => [String c EmptyString]
        end
  end.

(** [s.split(sep, maxsplit)]: at most [maxsplit] cuts, the leftmost. *)
Fixpoint split_max (sep : ascii) (maxsplit : nat) (s : string) : list string :=
  match s with
  | EmptyString => [EmptyString]
  | String c s1 =>
      match maxsplit with
      | S k =>
          if Ascii.eqb c sep then EmptyString :: split_max sep k s1
          else
            match split_max sep maxsplit s1 with
            | part :: parts => String c part :: parts
            | [] => [String c EmptyString]
            end
      | O => [s]
      end
  end.

(** [len(s)]: the characters of [s], one per byte that does not continue
    a character. *)
Fixpoint len (s : string) : nat :=
  match s with
  | EmptyString => 0
  | String c s1 => if is_continuation c then len s1 else S (len s1)
  end.

(** [s[:n]] for any [int]: a negative [n] counts from the end. *)
Definition slice_to (n : Z) (s : string) : string :=
  if (0 <=? n)%Z then take_chars (Z.to_nat n) s
  else take_chars (len s - Z.to_nat (- n)) s.

(** The bytes of a string. *)
Fixpoint bytes (s : string) : list ascii :=
  match s with
  | EmptyString => []
  | String c s1 => c :: bytes s1
  end.

(** The double quote, which a string literal here cannot hold. *)
Definition dquote : string := String (ascii_of_N 34) EmptyString.

End PyText.

(** ** [utils.py]: file names and user input *)

(** The reserved characters of the first [re.sub]: [<], [>], [:], the
    double quote, [/], the backslash, [|], [?] and [*]. *)
Definition is_reserved (c : ascii) : bool :=
  existsb (fun n => PyText.byte_is n c) [60; 62; 58; 34; 47; 92; 124; 63; 42]%N.

(** A control character of one byte: U+0000..U+001F and U+007F. *)
Definition is_control (c : ascii) : bool :=
  PyStr.in_range 0 31 c || PyText.byte_is 127 c.

(** The first [re.sub]: every reserved character becomes an
    underscore. *)
Fixpoint replace_reserved (s : string) : string :=
  match s with
  | EmptyString => EmptyString
  | String c s1 => String (if is_reserved c then "_"%char else c) (replace_reserved s1)
  end.

(** The second [re.sub]: the characters U+0000..U+001F and
    U+007F..U+009F are removed; U+0080 to U+009F are the two bytes
    C2 80..9F. *)
Fixpoint remove_control (s : string) : string :=
  match s with
  | EmptyString => EmptyString
  | String c s1 =>
      if is_control c then remove_control s1
      else
        match s1 with
        | String d s2 =>
            if PyText.byte_is 194 c && PyStr.in_range 128 159 d
            then remove_control s2
            else String c (remove_control s1)
        | EmptyString => String c EmptyString
        end
  end.

(** [sanitize_filename] *)
Definition sanitize_filename (filename : string) : string :=
  let safe_name := replace_reserved filename in
  let safe_name := remove_control safe_name in
  let safe_name := PyText.strip_dots (PyText.strip safe_name) in
  take_chars 255 (if truthy_str safe_name then safe_name else "media").

(** [sanitize_user_input] *)
Definition sanitize_user_input (text : string) (max_length : Z) : string :=
  if negb (truthy_str text) then EmptyString
  else
    let sanitized := remove_control text in
    PyText.slice_to max_length (PyText.strip sanitized).

(** [os.path.basename] of POSIX: what follows the last slash. *)
Fixpoint basename (p : string) : string :=
  match p with
  | EmptyString => EmptyString
  | String c p' =>
      if PyStr.contains "/" p' then basename p'
      else if Ascii.eqb c "/" then p' else p
  end.

(** ** The engine: one task from workspace to delivery *)

Definition TEMP_DIR_PREFIX : string := "tgdl_".

Definition MSG_NO_SPACE : string := "Недостаточно места на диске.".
Definition MSG_NOT_FOUND : string := "Файл не найден после загрузки.".
Definition MSG_OVER_LIMIT (limit : Z) : string :=
  "Файл больше лимита Telegram (" +:+ str_of_int limit +:+ " МБ).".

Inductive loop_exit (A : Type) :=
  | Returned (a : A)                        (* a [return] inside the loop *)
  | Fell_through (last_error : option exn). (* the loop ran to its end *)
Arguments Returned {A} a.
Arguments Fell_through {A} last_error.

(** The local variables of [_handle_download] that its [except] and
    [finally] blocks read, and the world. *)
Record frame := {
  task : DownloadTask;
  status_msg : bool;            (* is [status_msg] set *)
  temp_dir : option string;
  the_world : world
}.

Section Engine.

Context (E : env).

Definition log (ev : event) : M world unit :=
  modify (fun w => {| fs := fs w; trace := trace w ++ [ev] |}).

Definition set_listing (dir : string) (entries : list entry) : M world unit :=
  modify (fun w => {| fs := <[dir := entries]> (fs w); trace := trace w |}).

Definition remove_dir (dir : string) : M world unit :=
  modify (fun w => {| fs := delete dir (fs w); trace := trace w |}).

(** One awaited call of the chat transport. *)
Definition chat (c : chat_call) : M world unit :=
  w <- get ;;
  let r := o_chat E w c in
  log (EvChat c r) ;;
  match r with
  | None => ret tt
  | Some e => raise e
  end.

(** [if status_msg: try: await status_msg.edit_text(text) except: pass] *)
Definition edit_status (status_msg : bool) (text : string) : M world unit :=
  when status_msg (quietly (chat (EditStatus text))).

(** [utils.create_temp_dir]: [mkdtemp] makes a directory that did not
    exist, named by the prefix and a random part. *)
Definition create_temp_dir : M world string :=
  w <- get ;;
  match o_mkdtemp E w with
  | Ret (base, random) =>
      let dir := base +:+ "/" +:+ TEMP_DIR_PREFIX +:+ random in
      if isdir w dir then
        let e := {| exn_cls := Foreign "FileExistsError"; exn_text := dir |} in
        log (EvMkdtemp (Raise e)) ;; raise e
      else log (EvMkdtemp (Ret dir)) ;; set_listing dir [] ;; ret dir
  | Raise e => log (EvMkdtemp (Raise e)) ;; raise e
  end.

(** [utils.has_enough_disk_space] *)
Definition has_enough_disk_space (dir : string) : M world bool :=
  w <- get ;;
  let ok := o_disk_space E w dir in
  log (EvDiskSpace dir ok) ;; ret ok.

(** [shutil.rmtree]: the directory is gone, or an exception is raised
    and the directory stays. *)
Definition rmtree (dir : string) : M world unit :=
  w <- get ;;
  let r := o_rmtree E w dir in
  log (EvRmtree dir r) ;;
  match r with
  | None => remove_dir dir
  | Some e => raise e
  end.

(** [utils.cleanup_temp_dir] *)
Definition cleanup_temp_dir (temp_dir : string) : M world unit :=
  quietly
    (w <- get ;;
     when (truthy_str temp_dir && isdir w temp_dir) (rmtree temp_dir)).

(** [ydl.extract_info(url, download=True)] *)
Definition extract_info (a : attempt) (temp_dir : string) (is_audio : bool)
    : M world unit :=
  w <- get ;;
  let '(entries, failed) := o_extract E w a temp_dir is_audio in
  set_listing temp_dir entries ;;
  log (EvExtract a failed) ;;
  match failed with
  | None => ret tt
  | Some e => raise e
  end.

(** [_download_with_ytdlp] *)
Definition download_with_ytdlp (url : string) (temp_dir : string)
    (is_audio : bool) (allowed_ext : list string) (use_tiktok_app_api : bool)
    : M world (option path) :=
  extract_info (url, use_tiktok_app_api) temp_dir is_audio ;;
  w <- get ;;
  match find_latest_file w temp_dir allowed_ext with
  | Ret r => ret r
  | Raise e => raise e
  end.

(** [utils.download_file_async] *)
Definition download_file_async (url : string) (filepath : path) : M world unit :=
  w <- get ;;
  let '(entries, failed) := o_http_download E w url filepath in
  set_listing filepath.1 entries ;;
  log (EvHttpDownload url filepath failed) ;;
  match failed with
  | None => ret tt
  | Some e => raise e
  end.

(** [session.get(url)] and [response.text()] *)
Definition http_get (url : string) : M world (Z * string) :=
  w <- get ;;
  let r := o_http_get E w url in
  log (EvHttpGet url r) ;;
  match r with
  | Ret resp => ret resp
  | Raise e => raise e
  end.

(** [_normalize_tiktok_url] *)
Definition normalize_tiktok_url (url : string) : M world (option string) :=
  w <- get ;;
  let r := o_normalize E w url in
  log (EvNormalize url r) ;; ret r.

(** [_download_tiktok_direct_from_html] *)
Definition download_tiktok_direct_from_html (url : string) (temp_dir : string)
    : M world (option path) :=
  try_except
    (resp <- http_get url ;;
     let '(http_status, html_content) := resp in
     if negb (http_status =? 200)%Z then ret None
     else
       let media_url := extract_tiktok_media_url_from_html E html_content in
       if falsy media_url then ret None
       else
         match media_url with
         | None => ret None
         | Some media_url =>
             w <- get ;;
             let filepath := (temp_dir, "tiktok_" +:+ time_stamp E w +:+ ".mp4") in
             download_file_async media_url filepath ;;
             w' <- get ;;
             if path_exists w' filepath then ret (Some filepath) else ret None
         end)
    (fun _ => ret None).

(** The [for] loop of [_download_content] over the attempt plan. *)
Fixpoint try_attempts (attempts : list attempt) (temp_dir : string)
    (is_audio : bool) (allowed_ext : list string) (last_error : option exn)
    : M world (loop_exit (option path)) :=
  match attempts with
  | [] => ret (Fell_through last_error)
  | (attempt_url, use_tiktok_app_api) :: rest =>
      try_except
        (r <- download_with_ytdlp attempt_url temp_dir is_audio allowed_ext
                use_tiktok_app_api ;;
         ret (Returned r))
        (fun error =>
           if negb (is_tiktok_extraction_error error) then raise error
           else try_attempts rest temp_dir is_audio allowed_ext (Some error))
  end.

(** [_download_content] *)
Definition download_content (url : string) (temp_dir : string) (mode : string)
    (status_msg : bool) : M world (option path) :=
  edit_status status_msg "Скачиваю медиа..." ;;
  let platform := detect_platform (direct_file_re E) url in
  let is_audio := bool_decide (mode = AUDIO) in
  let allowed_ext := if is_audio then AUDIO_EXTENSIONS else VIDEO_EXTENSIONS in
  match platform with
  | DIRECT =>
      match urlparse_path E url with
      | Raise e => raise e
      | Ret parsed_path =>
          w <- get ;;
          let base := basename parsed_path in
          let filename :=
            sanitize_filename
              (if truthy_str base then base
               else "download_" +:+ time_stamp E w) in
          let filename :=
            if negb (PyStr.contains "." filename)
            then filename +:+ (if is_audio then ".mp3" else ".mp4")
            else filename in
          let filepath := (temp_dir, filename) in
          download_file_async url filepath ;;
          ret (Some filepath)
      end
  | TIKTOK =>
      normalized <- normalize_tiktok_url url ;;
      let download_url :=
        match normalized with
        | Some n => if falsy normalized then url else n
        | None => url
        end in
      let attempts := build_tiktok_attempt_plan download_url in
      exit <- try_attempts attempts temp_dir is_audio allowed_ext None ;;
      match exit with
      | Returned r => ret r
      | Fell_through last_error =>
          direct_file <-
            (if negb is_audio
             then download_tiktok_direct_from_html download_url temp_dir
             else ret None) ;;
          match direct_file with
          | Some f => ret (Some f)
          | None =>
              match last_error with
              | Some e => raise e
              | None => ret None
              end
          end
      end
  | _ => download_with_ytdlp url temp_dir is_audio allowed_ext false
  end.

(** [_send_file] *)
Definition send_file (filepath : path) (mode : string) (status_msg : bool)
    : M world unit :=
  edit_status status_msg "Отправляю файл в Telegram..." ;;
  try_except
    (if bool_decide (mode = AUDIO) then chat (AnswerAudio filepath)
     else chat (AnswerVideo filepath))
    (fun _ => chat (AnswerDocument filepath)) ;;
  edit_status status_msg "Загрузка завершена.".

(** [_handle_download_error] *)
Definition handle_download_error (error : exn) (status_msg : bool)
    : M world unit :=
  edit_status status_msg "Ошибка при загрузке." ;;
  chat (Report (to_user_message error)).

(** Running a step of the world inside [_handle_download]. *)
Definition in_world {A} (m : M world A) : M frame A :=
  fun f =>
    let '(r, w) := m (the_world f) in
    (r, {| task := task f; status_msg := status_msg f;
           temp_dir := temp_dir f; the_world := w |}).

Definition set_status (st : DownloadStatus) : M frame unit :=
  modify (fun f =>
    {| task := {| task_id := task_id (task f); user_id := user_id (task f);
                  url := url (task f); mode := mode (task f);
                  status := st; error_message := error_message (task f) |};
       status_msg := status_msg f; temp_dir := temp_dir f;
       the_world := the_world f |}).

Definition set_error_message (text : string) : M frame unit :=
  modify (fun f =>
    {| task := {| task_id := task_id (task f); user_id := user_id (task f);
                  url := url (task f); mode := mode (task f);
                  status := status (task f); error_message := Some text |};
       status_msg := status_msg f; temp_dir := temp_dir f;
       the_world := the_world f |}).

Definition set_temp_dir (dir : string) : M frame unit :=
  modify (fun f =>
    {| task := task f; status_msg := status_msg f;
       temp_dir := Some dir; the_world := the_world f |}).

Definition set_status_msg : M frame unit :=
  modify (fun f =>
    {| task := task f; status_msg := true;
       temp_dir := temp_dir f; the_world := the_world f |}).

(** The [try] block of [_handle_download], in two parts: up to the
    value of [filepath] ([fetch_in] is what runs once [temp_dir] is
    set), and from there on. *)
Definition fetch_in (dir : string) : M frame (option path) :=
  enough <- in_world (has_enough_disk_space dir) ;;
  if negb enough
  then raise {| exn_cls := RuntimeError; exn_text := MSG_NO_SPACE |}
  else
    f <- get ;;
    in_world (chat (Announce (task_id (task f)))) ;;
    set_status_msg ;;
    set_status DOWNLOADING ;;
    in_world (download_content (url (task f)) dir (mode (task f)) true).

Definition fetch_phase : M frame (option path) :=
  dir <- in_world create_temp_dir ;;
  set_temp_dir dir ;;
  fetch_in dir.

Definition deliver_phase (filepath : option path) : M frame unit :=
  f <- get ;;
  match filepath with
  | Some p =>
      if negb (path_exists (the_world f) p)
      then raise (not_found_error MSG_NOT_FOUND)
      else
        let file_size_mb := get_file_size_mb (the_world f) p in
        if Qgt_bool file_size_mb (inject_Z (MAX_FILE_SIZE_MB E))
        then raise {| exn_cls := ValueError;
                      exn_text := MSG_OVER_LIMIT (MAX_FILE_SIZE_MB E) |}
        else
          set_status SENDING ;;
          in_world (send_file p (mode (task f)) true) ;;
          set_status COMPLETED
  | None => raise (not_found_error MSG_NOT_FOUND)
  end.

Definition handle_download_try : M frame unit :=
  filepath <- fetch_phase ;;
  deliver_phase filepath.

(** The [except Exception as error] block. *)
Definition handle_download_except (error : exn) : M frame unit :=
  set_status FAILED ;;
  set_error_message (str_of_exn error) ;;
  f <- get ;;
  in_world (handle_download_error error (status_msg f)).

(** The [finally] block. *)
Definition handle_download_finally : M frame unit :=
  f <- get ;;
  match temp_dir f with
  | Some dir => when (truthy_str dir) (in_world (cleanup_temp_dir dir))
  | None => ret tt
  end.

(** [_handle_download] *)
Definition handle_download : M frame unit :=
  try_finally
    (try_except handle_download_try handle_download_except)
    handle_download_finally.

(** The frame [_handle_download] starts from. *)
Definition new_frame (task_id user_id : Z) (url mode : string) (w : world)
    : frame :=
  {| task := {| task_id := task_id; user_id := user_id; url := url;
                mode := mode; status := QUEUED; error_message := None |};
     status_msg := false;
     temp_dir := None;
     the_world := w |}.

End Engine.

(** *** Reading a trace *)

(** The extractor calls of a trace, each with the exception it raised. *)
Definition attempts_made (evs : list event) : list (attempt * option exn) :=
  omap (fun ev => match ev with
                  | EvExtract a failed => Some (a, failed)
                  | _ => None
                  end) evs.

(** The pages fetched: the URLs of the [session.get] calls. *)
Definition pages_fetched (evs : list event) : list string :=
  omap (fun ev => match ev with
                  | EvHttpGet u _ => Some u
                  | _ => None
                  end) evs.

(** The delivery calls: [answer_audio], [answer_video], [answer_document]. *)
Definition sends (evs : list event) : list chat_call :=
  omap (fun ev => match ev with
                  | EvChat (AnswerAudio p) _ => Some (AnswerAudio p)
                  | EvChat (AnswerVideo p) _ => Some (AnswerVideo p)
                  | EvChat (AnswerDocument p) _ => Some (AnswerDocument p)
                  | _ => None
                  end) evs.

(** The failure messages shown to the requester. *)
Definition reports (evs : list event) : list string :=
  omap (fun ev => match ev with
                  | EvChat (Report text) _ => Some text
                  | _ => None
                  end) evs.

(** The classifier's verdict on the outcome of one extractor call. *)
Definition recoverable (failed : option exn) : bool :=
  match failed with
  | Some e => is_tiktok_extraction_error e
  | None => false
  end.

(** ** The attempt plan as the specification words it

    The four candidates in priority order, those without a URL left out,
    and of equal candidates only the first kept. *)
Definition present (cands : list (option string * bool)) : list attempt :=
  omap (fun c => match c.1 with
                 | Some u => if truthy_str u then Some (u, c.2) else None
                 | None => None
                 end) cands.

Fixpoint first_occurrences (l : list attempt) : list attempt :=
  match l with
  | [] => []
  | a :: l' => a :: filter (fun b => b <> a) (first_occurrences l')
  end.

Definition attempt_plan_spec (url : string) : list attempt :=
  let canonical := canonicalize_tiktok_video_url url in
  first_occurrences
    (present [(Some url, false); (canonical, false);
              (Some url, true); (canonical, true)]).

(** ** Notions the properties are stated with, and sample data *)

(** The pattern [/video/<digits>] stands at position [length pre] of [s]. *)
Definition video_pattern_at (s pre : string) : Prop :=
  exists d rest, PyStr.is_digit d = true /\ s = pre +:+ "/video/" +:+ d +:+ rest.

(** The plan, case by case. *)
Definition plan_by_cases (url : string) : list attempt :=
  match url with
  | EmptyString => []
  | _ =>
      match canonicalize_tiktok_video_url url with
      | None => [(url, false); (url, true)]
      | Some c =>
          if decide (c = url) then [(url, false); (url, true)]
          else [(url, false); (c, false); (url, true); (c, true)]
      end
  end.

(** What every call keeps: the counter of running tasks is not negative
    and no requester has a stored queued count of zero or less. *)
Definition quota_sane (dm : DownloadManager) : Prop :=
  (0 <= processing dm)%Z /\
  forall u q, queued_tasks dm !! u = Some q -> (0 < q)%Z.

(** Is this queue entry, or the item this worker holds, a task of [u]
    that has not started yet. *)
Definition wants (u : Z) (o : option queue_item) : nat :=
  match o with
  | Some it => if decide (item_user it = u) then 1 else 0
  | None => 0
  end.

Definition holds (u : Z) (w : worker) : nat :=
  match w with
  | Holding it => wants u (Some it)
  | _ => 0
  end.

(** The tasks of [u] that were let in and have not started. *)
Definition not_started (u : Z) (s : system) : nat :=
  sum_list_with (wants u) (queue (sys_dm s)) +
  sum_list_with (holds u) (sys_workers s).

Record quota_inv (n : Z) (s : system) : Prop := {
  inv_cap : max_concurrent (sys_dm s) = Z.max 1 n;
  inv_stored : forall u q, queued_tasks (sys_dm s) !! u = Some q -> (0 < q)%Z;
  inv_queued : forall u, queued_count (sys_dm s) u = Z.of_nat (not_started u s);
  inv_bound : forall u,
    (queued_count (sys_dm s) u + active_count (sys_dm s) u
     <= max_concurrent (sys_dm s))%Z
}.

Definition sample_item : queue_item :=
  {| item_task_id := 1; item_user := 7;
     item_url := "https://youtu.be/dQw4w9WgXcQ"; item_mode := "video" |}.

(** A state three steps from the start: user 7 was let in, a worker
    took the task and marked it started. *)
Definition sample_system : system :=
  {| sys_dm :=
       mark_task_started
         (set_queue (add_download (new_manager 3) 7 (item_url sample_item) "video").1 [])
         7 1;
     sys_workers := <[0 := Handling sample_item]>
                      (<[0 := Holding sample_item]> (replicate 3 Waiting)) |}.

(** A file whose extension, in lower case, is one of the allowed ones. *)
Definition matches (allowed_ext : list string) (e : entry) : Prop :=
  e_is_file e = true /\ PyStr.lower (suffix (e_name e)) ∈ allowed_ext.

(** [f] is an entry with [P] and no entry with [P] is more recent. *)
Definition latest_among (P : entry -> Prop) (entries : list entry) (f : entry)
    : Prop :=
  f ∈ entries /\ P f /\
  forall g, g ∈ entries -> P g -> (e_mtime g <= e_mtime f)%Z.

Definition with_world (f : frame) (w : world) : frame :=
  {| task := task f; status_msg := status_msg f;
     temp_dir := temp_dir f; the_world := w |}.

(** [m] leaves the local variable [temp_dir] alone. *)
Definition keeps_temp_dir {A} (m : M frame A) : Prop :=
  forall f r f', m f = (r, f') -> temp_dir f' = temp_dir f.

(** An environment in which everything goes well, but for two choices:
    the size of the one file the extractor leaves, and whether [rmtree]
    raises. *)
Definition sample_env (size : Z) (rmtree_raises : bool) : env :=
  {| MAX_FILE_SIZE_MB := 2048;
     direct_file_re := fun _ => false;
     urlparse_path := fun _ => Ret EmptyString;
     extract_tiktok_media_url_from_html := fun _ => None;
     time_stamp := fun _ => "0";
     o_mkdtemp := fun _ => Ret ("/tmp", "k3x9");
     o_disk_space := fun _ _ => true;
     o_chat := fun _ _ => None;
     o_normalize := fun _ _ => None;
     o_extract := fun _ _ _ _ =>
       ([ {| e_name := "clip_dQw4w9WgXcQ.mp4"; e_is_file := true;
             e_mtime := 1700000000; e_size := size |} ], None);
     o_http_get := fun _ _ =>
       Raise {| exn_cls := Foreign "ClientError"; exn_text := "unreachable" |};
     o_http_download := fun _ _ _ => ([], None);
     o_rmtree := fun _ _ =>
       if rmtree_raises
       then Some {| exn_cls := Foreign "PermissionError";
                    exn_text := "[Errno 13] Permission denied" |}
       else None |}.

Definition empty_world : world := {| fs := ∅; trace := [] |}.

Definition sample_frame : frame :=
  new_frame 1 7 "https://youtu.be/dQw4w9WgXcQ" "video" empty_world.

Definition sample_dir : string := "/tmp/tgdl_k3x9".

Definition extract_event (m : attempt * option exn) : event := EvExtract m.1 m.2.

(** [download_url]: the normalized URL when there is one, else the URL. *)
Definition download_url_of (url : string) (normalized : option string) : string :=
  match normalized with
  | Some n => if falsy normalized then url else n
  | None => url
  end.

(** What a fetch from the flaky platform must look like, read off the
    trace [evs] it leaves and its result [r] in the final world [w']:
    - the extractor calls are the candidates of the plan, from the first
      on, in order, none left out and none repeated;
    - every call but the last failed with a recoverable error;
    - if the last call succeeded, its result is returned and no page is
      fetched;
    - if it failed with an error that is not recoverable, that error is
      raised and no page is fetched;
    - if it failed with a recoverable error, every candidate was tried;
      in video mode the page of the download URL is fetched, once, and
      the file the last resort yields is returned, or else the last
      error is raised; in audio mode no page is fetched and the last
      error is raised. *)
Definition fallback_protocol (E : env) (url dir mode : string)
    (r : outcome (option path)) (w w' : world) : Prop :=
  exists (normalized : option string) (evs : list event),
    let download_url := download_url_of url normalized in
    let plan := build_tiktok_attempt_plan download_url in
    let made := attempts_made evs in
    trace w' = trace w ++ evs /\
    EvNormalize url normalized ∈ evs /\
    made.*1 = take (length made) plan /\
    (forall i m, made !! i = Some m -> S i < length made ->
                 recoverable m.2 = true) /\
    match last made with
    | None => False
    | Some (_, None) => pages_fetched evs = [] /\ exists p, r = Ret p
    | Some (_, Some e) =>
        if is_tiktok_extraction_error e
        then length made = length plan /\
             if bool_decide (mode = VIDEO)
             then pages_fetched evs = [download_url] /\
                  exists w2 d,
                    download_tiktok_direct_from_html E download_url dir w2
                    = (Ret d, w') /\
                    r = match d with
                        | Some f => Ret (Some f)
                        | None => Raise e
                        end
             else pages_fetched evs = [] /\ r = Raise e
        else pages_fetched evs = [] /\ r = Raise e
    end.

(** An environment for the flaky platform: the extractor fails with a
    recoverable error as long as fewer than [failures] calls were made,
    then leaves one file; the page fetched as a last resort has no media
    URL in it. *)
Definition flaky_env (failures : nat) : env :=
  {| MAX_FILE_SIZE_MB := 2048;
     direct_file_re := fun _ => false;
     urlparse_path := fun _ => Ret EmptyString;
     extract_tiktok_media_url_from_html := fun _ => None;
     time_stamp := fun _ => "0";
     o_mkdtemp := fun _ => Ret ("/tmp", "k3x9");
     o_disk_space := fun _ _ => true;
     o_chat := fun _ _ => None;
     o_normalize := fun _ _ => None;
     o_extract := fun w _ _ _ =>
       if (length (attempts_made (trace w)) <? failures)%nat
       then ([], Some {| exn_cls := Foreign "DownloadError";
                         exn_text := "ERROR: [TikTok] 12345: Unable to extract webpage video data" |})
       else ([ {| e_name := "clip_12345.mp4"; e_is_file := true;
                  e_mtime := 1700000000; e_size := 4096 |} ], None);
     o_http_get := fun _ _ => Ret (200%Z, "<html></html>");
     o_http_download := fun _ _ _ => ([], None);
     o_rmtree := fun _ _ => None |}.

Definition tiktok_url : string := "https://www.tiktok.com/@user/video/12345".

(** U+212A KELVIN SIGN, which [str.lower] turns into the letter [k]. *)
Definition KELVIN_SIGN : string :=
  String (ascii_of_N 226) (String (ascii_of_N 132) (String (ascii_of_N 170)
    EmptyString)).

Definition over_limit_error (E : env) : exn :=
  {| exn_cls := ValueError; exn_text := MSG_OVER_LIMIT (MAX_FILE_SIZE_MB E) |}.

(** ** The worker pool: which tasks are where *)

(** [get_active_downloads_count] *)
Definition get_active_downloads_count (dm : DownloadManager) : Z := processing dm.

(** [get_queue_size]: [qsize] counts the sentinels too. *)
Definition get_queue_size (dm : DownloadManager) : Z := Z.of_nat (length (queue dm)).

(** The task a worker has taken from the queue, started or not. *)
Definition in_hand (w : worker) : option queue_item :=
  match w with
  | Holding it | Handling it => Some it
  | Waiting | Stopped => None
  end.

(** The task a worker is running: [_mark_task_started] is done,
    [_mark_task_finished] is not. *)
Definition running (w : worker) : option queue_item :=
  match w with
  | Handling it => Some it
  | _ => None
  end.

(** The tasks of the queue, in the order they will be taken. *)
Definition waiting_tasks (s : system) : list queue_item :=
  omap id (queue (sys_dm s)).

(** The tasks let in and not finished: those of the queue, then those in
    the workers' hands. *)
Definition live_tasks (s : system) : list queue_item :=
  waiting_tasks s ++ omap in_hand (sys_workers s).

Definition running_tasks (s : system) : list queue_item :=
  omap running (sys_workers s).

Definition of_user (u : Z) (l : list queue_item) : list queue_item :=
  filter (fun it => item_user it = u) l.

(** A task as [add_download] makes it: numbered from 1 up to the counter,
    in one of the two modes. *)
Definition well_made (dm : DownloadManager) (it : queue_item) : Prop :=
  (1 <= item_task_id it <= task_counter dm)%Z /\ valid_mode (item_mode it) = true.

(** No requester has an empty active set stored. *)
Definition no_empty_set (dm : DownloadManager) : Prop :=
  forall u tasks, active_tasks dm !! u = Some tasks -> tasks <> ∅.

(** Every number of the list is below all that follow it. *)
Fixpoint ascending (l : list Z) : Prop :=
  match l with
  | [] => True
  | x :: l' => Forall (fun y => (x < y)%Z) l' /\ ascending l'
  end.

Record pool_inv (n : Z) (s : system) : Prop := {
  pool_workers : length (sys_workers s) = Z.to_nat (Z.max 1 n);
  pool_processing : processing (sys_dm s) = Z.of_nat (length (running_tasks s));
  pool_counter : (0 <= task_counter (sys_dm s))%Z;
  pool_made : Forall (well_made (sys_dm s)) (live_tasks s);
  pool_nodup : NoDup (item_task_id <$> live_tasks s);
  pool_sorted : ascending (item_task_id <$> waiting_tasks s);
  pool_active : forall u,
    default ∅ (active_tasks (sys_dm s) !! u)
    = list_to_set (item_task_id <$> of_user u (running_tasks s));
  pool_stored : no_empty_set (sys_dm s)
}.

(** The sample state one step later: the task has finished. *)
Definition sample_system_done : system :=
  {| sys_dm := default (sys_dm sample_system)
                 (mark_task_finished (sys_dm sample_system) 7 1);
     sys_workers := <[0 := Waiting]> (sys_workers sample_system) |}.

(** ** What a run tells the requester *)

(** The delivery calls of a trace, each with the exception it raised. *)
Definition deliveries (evs : list event) : list (chat_call * option exn) :=
  omap (fun ev => match ev with
                  | EvChat (AnswerAudio p) failed => Some (AnswerAudio p, failed)
                  | EvChat (AnswerVideo p) failed => Some (AnswerVideo p, failed)
                  | EvChat (AnswerDocument p) failed => Some (AnswerDocument p, failed)
                  | _ => None
                  end) evs.

(** The failure messages of a trace, each with the exception its sending
    raised. *)
Definition reports_made (evs : list event) : list (string * option exn) :=
  omap (fun ev => match ev with
                  | EvChat (Report text) failed => Some (text, failed)
                  | _ => None
                  end) evs.

(** The first delivery call of [_send_file], by mode. *)
Definition primary_send (mode : string) (p : path) : chat_call :=
  if bool_decide (mode = AUDIO) then AnswerAudio p else AnswerVideo p.

(** The file a delivery call sends. *)
Definition file_sent (c : chat_call) : option path :=
  match c with
  | AnswerAudio p | AnswerVideo p | AnswerDocument p => Some p
  | _ => None
  end.

(** The events of one [edit_text] on the status message: none without a
    status message, else the one call. *)
Definition status_edit (text : string) (evs : list event) : Prop :=
  evs = [] \/ exists failed, evs = [EvChat (EditStatus text) failed].

(** [m] delivers nothing and reports no failure; it adds to the trace
    [tr] of the state and takes nothing from it. *)
Definition discreet {S A} (tr : S -> list event) (m : M S A) : Prop :=
  forall s, exists evs,
    tr (m s).2 = tr s ++ evs /\ deliveries evs = [] /\ reports_made evs = [].

Definition frame_trace (f : frame) : list event := trace (the_world f).

(** What [_handle_download] returns for the outcome of its last chat
    call. *)
Definition outcome_of (failed : option exn) : outcome unit :=
  match failed with
  | None => Ret tt
  | Some e => Raise e
  end.

(** An environment for a direct link to a file: the link is recognised
    by its extension, and the transfer leaves the file in the
    workspace. *)
Definition direct_env : env :=
  {| MAX_FILE_SIZE_MB := 2048;
     direct_file_re := fun url => PyStr.contains ".mp4" url;
     urlparse_path := fun _ => Ret "/files/clip.mp4";
     extract_tiktok_media_url_from_html := fun _ => None;
     time_stamp := fun _ => "0";
     o_mkdtemp := fun _ => Ret ("/tmp", "k3x9");
     o_disk_space := fun _ _ => true;
     o_chat := fun _ _ => None;
     o_normalize := fun _ _ => None;
     o_extract := fun _ _ _ _ => ([], None);
     o_http_get := fun _ _ => Ret (200%Z, "<html></html>");
     o_http_download := fun _ _ p =>
       ([ {| e_name := p.2; e_is_file := true;
             e_mtime := 1700000000; e_size := 4096 |} ], None);
     o_rmtree := fun _ _ => None |}.

Definition direct_url : string := "https://example.com/files/clip.mp4".

(** An environment with a full disk, and one in which no workspace can
    be made. *)
Definition full_disk_env : env :=
  {| MAX_FILE_SIZE_MB := 2048;
     direct_file_re := fun _ => false;
     urlparse_path := fun _ => Ret EmptyString;
     extract_tiktok_media_url_from_html := fun _ => None;
     time_stamp := fun _ => "0";
     o_mkdtemp := fun _ => Ret ("/tmp", "k3x9");
     o_disk_space := fun _ _ => false;
     o_chat := fun _ _ => None;
     o_normalize := fun _ _ => None;
     o_extract := fun _ _ _ _ => ([], None);
     o_http_get := fun _ _ => Ret (200%Z, "<html></html>");
     o_http_download := fun _ _ _ => ([], None);
     o_rmtree := fun _ _ => None |}.

Definition no_space_error : exn :=
  {| exn_cls := RuntimeError; exn_text := MSG_NO_SPACE |}.

Definition mkdtemp_error : exn :=
  {| exn_cls := Foreign "OSError";
     exn_text := "[Errno 28] No space left on device: '/tmp/tgdl_k3x9'" |}.

Definition no_workspace_env : env :=
  {| MAX_FILE_SIZE_MB := 2048;
     direct_file_re := fun _ => false;
     urlparse_path := fun _ => Ret EmptyString;
     extract_tiktok_media_url_from_html := fun _ => None;
     time_stamp := fun _ => "0";
     o_mkdtemp := fun _ => Raise mkdtemp_error;
     o_disk_space := fun _ _ => true;
     o_chat := fun _ _ => None;
     o_normalize := fun _ _ => None;
     o_extract := fun _ _ _ _ => ([], None);
     o_http_get := fun _ _ => Ret (200%Z, "<html></html>");
     o_http_download := fun _ _ _ => ([], None);
     o_rmtree := fun _ _ => None |}.

(** ** [_parse_cookies_from_browser] *)

Definition parse_cookies_from_browser (raw_value : string) : option (list string) :=
  if negb (truthy_str raw_value) then None
  else
    let parts := map PyText.strip (PyText.split ":" raw_value) in
    match parts with
    | [] => None
    | browser :: rest =>
        if negb (truthy_str browser) then None
        else Some (browser :: filter (fun part => truthy_str part = true) (take 3 rest))
    end.

(** ** [utils.py]: which links are taken *)

Definition SUPPORTED_DOMAINS : list string :=
  [ "youtube.com"; "youtu.be"; "tiktok.com"; "vm.tiktok.com"; "vt.tiktok.com";
    "m.tiktok.com"; "instagram.com"; "facebook.com"; "twitter.com"; "x.com";
    "vk.com"; "m.vkvideo.ru"; "reddit.com"; "pinterest.com"; "pin.it";
    "dailymotion.com"; "vimeo.com"; "soundcloud.com" ].

Definition SHORTENER_DOMAINS : list string :=
  [ "vm.tiktok.com"; "vt.tiktok.com"; "m.tiktok.com"; "www.tiktok.com";
    "tiktok.com" ].

(** [is_supported_url]; [bool(DIRECT_FILE_RE.search(url))] is the
    argument [direct_file_re]. *)
Definition is_supported_url (direct_file_re : string -> bool) (url : string) : bool :=
  if negb (truthy_str url) then false
  else
    let low := PyStr.lower url in
    if any_token_in SUPPORTED_DOMAINS low then true
    else direct_file_re url.

(** The test of [normalize_tiktok_url_async] for a short link. *)
Definition is_short_link (url : string) : bool :=
  any_token_in SHORTENER_DOMAINS (PyStr.lower url).

(** ** [extract_tiktok_video_from_html] *)

(** A greedy [[^/]*] at the start of [s]: the run and the rest. *)
Fixpoint until_slash (s : string) : string * string :=
  match s with
  | EmptyString => (EmptyString, EmptyString)
  | String c s1 =>
      if Ascii.eqb c "/" then (EmptyString, s)
      else let '(run, rest) := until_slash s1 in (String c run, rest)
  end.

(** What follows a greedy [\d*] at the start of [s]. *)
Fixpoint drop_digits (s : string) : string :=
  match s with
  | String c s1 =>
      if PyStr.digit1 c then drop_digits s1
      else
        match s1 with
        | String d s2 =>
            if PyStr.digit2 c d then drop_digits s2
            else
              match s2 with
              | String e s3 =>
                  if PyStr.digit3 c d e then drop_digits s3
                  else
                    match s3 with
                    | String f s4 =>
                        if PyStr.digit4 c d e f then drop_digits s4 else s
                    | EmptyString => s
                    end
              | EmptyString => s
              end
        | EmptyString => s
        end
  | EmptyString => EmptyString
  end.

(** [/@(?P<user>[^/]+)/video/(?P<id>\d+)] at the start of [s]. *)
Definition match_user_video_at (s : string) : option (string * string) :=
  match PyStr.strip_prefix "/@" s with
  | Some s1 =>
      match until_slash s1 with
      | (EmptyString, _) => None
      | (user, s2) =>
          match PyStr.strip_prefix "/video/" s2 with
          | Some s3 =>
              match PyStr.take_digits s3 with
              | EmptyString => None
              | id => Some (user, id)
              end
          | None => None
          end
      end
  | None => None
  end.

(** The second pattern at the start of [s]: [itemId] in double quotes,
    [\s*:\s*], and the digits [(?P<id>\d+)] in double quotes. *)
Definition match_item_id_at (s : string) : option string :=
  match PyStr.strip_prefix (PyText.dquote +:+ "itemId" +:+ PyText.dquote) s with
  | Some s1 =>
      match PyStr.strip_prefix ":" (PyText.lstrip s1) with
      | Some s2 =>
          match PyStr.strip_prefix PyText.dquote (PyText.lstrip s2) with
          | Some s3 =>
              match PyStr.take_digits s3 with
              | EmptyString => None
              | id =>
                  if PyStr.startswith PyText.dquote (drop_digits s3)
                  then Some id else None
              end
          | None => None
          end
      | None => None
      end
  | None => None
  end.

(** [re.search]: the match at the leftmost position that has one. *)
Fixpoint search {A} (match_at : string -> option A) (s : string) : option A :=
  match match_at s with
  | Some r => Some r
  | None =>
      match s with
      | EmptyString => None
      | String _ s1 => search match_at s1
      end
  end.

Definition extract_tiktok_video_from_html (html : string) : option string :=
  match search match_user_video_at html with
  | Some (user, id) =>
      Some ("https://www.tiktok.com/@" +:+ user +:+ "/video/" +:+ id)
  | None =>
      match search match_item_id_at html with
      | Some id => Some ("https://www.tiktok.com/@_/video/" +:+ id)
      | None => None
      end
  end.

(** *** Notions for the text functions *)

(** Every byte of the result is a byte of the argument. *)
Definition keeps_bytes (f : string -> string) : Prop :=
  forall (P : ascii -> Prop) s,
    Forall P (PyText.bytes s) -> Forall P (PyText.bytes (f s)).

(** The first byte: what a cut at the right end does not touch. *)
Definition first_byte (s : string) : option ascii :=
  match s with
  | EmptyString => None
  | String c _ => Some c
  end.

(** ** [utils.normalize_tiktok_url_async]

    The calls of the HTTP session are answered by oracles that see the
    calls made so far; [strip_tracking_params], which rewrites the query
    of a URL with [urllib] and returns its argument when that raises, is
    a function given with them. *)

Inductive net_call :=
  | NetHead (url : string)
  | NetGet (url : string).

Record net := {
  strip_tracking_params : string -> string;
  (* session.head(url, allow_redirects=True): str(resp.url) *)
  o_head : list net_call -> string -> outcome string;
  (* session.get(url, allow_redirects=True): str(resp.url) *)
  o_get_url : list net_call -> string -> outcome string;
  (* session.get(final_url): resp.status and what resp.text() gives *)
  o_get_page : list net_call -> string -> outcome (Z * outcome string)
}.

Definition net_log (c : net_call) : M (list net_call) unit :=
  modify (fun calls => calls ++ [c]).

(** Returning or raising what an oracle answered. *)
Definition answer {S A} (r : outcome A) : M S A :=
  match r with
  | Ret a => ret a
  | Raise e => raise e
  end.

Definition normalize_tiktok_url_async (N : net) (url : string)
    : M (list net_call) (option string) :=
  let low := PyStr.lower url in
  try_except
    (final_url <-
       (if any_token_in SHORTENER_DOMAINS low then
          try_except
            (calls <- get ;; net_log (NetHead url) ;; answer (o_head N calls url))
            (fun _ =>
               calls <- get ;; net_log (NetGet url) ;; answer (o_get_url N calls url))
        else ret url) ;;
     let final_clean := strip_tracking_params N final_url in
     if PyStr.contains "/video/" final_clean then ret (Some final_clean)
     else
       calls <- get ;;
       net_log (NetGet final_url) ;;
       resp <- answer (o_get_page N calls final_url) ;;
       let '(http_status, text) := resp in
       if negb (http_status =? 200)%Z then ret None
       else
         html <- answer text ;;
         ret (extract_tiktok_video_from_html html))
    (fun _ => ret None).

(** A network on which a short link leads to a page that names the
    video. *)
Definition sample_net : net :=
  {| strip_tracking_params := fun url => url;
     o_head := fun _ _ => Ret "https://www.tiktok.com/t/ZT8abcdef/";
     o_get_url := fun _ url => Ret url;
     o_get_page := fun _ _ =>
       Ret (200%Z, Ret "<link href=https://www.tiktok.com/@lain/video/7301234567890123456>") |}.

Definition sample_page : string :=
  "<link href=https://www.tiktok.com/@lain/video/7301234567890123456>".

(** ** [handlers.py]: the links waiting for a choice of format

    A time stamp, [datetime.now().timestamp()], is a rational here: the
    float of the program is one, and the differences the program takes
    are between stamps so close that floats subtract them exactly. *)

(** An entry of [pending_links]. *)
Record payload := {
  p_user_id : Z;
  p_url : string;
  p_created_at : Q
}.

Record BotHandlers := {
  pending_links : gmap string payload;
  last_pending_cleanup : Q
}.

Definition pending_link_ttl_seconds : Q := 3600.
Definition pending_cleanup_interval_seconds : Q := 60.

(** [BotHandlers.__init__], the fields *)
Definition new_handlers : BotHandlers :=
  {| pending_links := ∅; last_pending_cleanup := 0 |}.

(** [now - payload["created_at"] > self.pending_link_ttl_seconds] *)
Definition expired (now : Q) (p : payload) : bool :=
  Qgt_bool (now - p_created_at p) pending_link_ttl_seconds.

(** [_cleanup_pending_links]; [now] is the clock at the call. *)
Definition cleanup_pending_links (now : Q) (h : BotHandlers) : BotHandlers :=
  if Qgt_bool pending_cleanup_interval_seconds (now - last_pending_cleanup h)
  then h
  else
    {| pending_links :=
         filter (fun kv : string * payload => expired now kv.2 = false)
           (pending_links h);
       last_pending_cleanup := now |}.

(** [_create_pending_link]: the clock is read twice, in the cleanup and
    for [created_at]; [token] is what [uuid.uuid4().hex[:12]] gives. *)
Definition create_pending_link (now created_at : Q) (token : string)
    (user_id : Z) (url : string) (h : BotHandlers) : BotHandlers :=
  let h := cleanup_pending_links now h in
  {| pending_links :=
       <[token := {| p_user_id := user_id; p_url := url;
                     p_created_at := created_at |}]> (pending_links h);
     last_pending_cleanup := last_pending_cleanup h |}.

(** [_resolve_pending_link] *)
Definition resolve_pending_link (now : Q) (token : string) (user_id : Z)
    (h : BotHandlers) : option string * BotHandlers :=
  let h := cleanup_pending_links now h in
  (match pending_links h !! token with
   | None => None
   | Some p =>
       if bool_decide (p_user_id p <> user_id) then None else Some (p_url p)
   end, h).

(** What [handle_download_callback] tells the requester. *)
Inductive callback_answer :=
  | BadButton
  | LinkStale
  | AtCap (active_count : Z)
  | NotQueued
  | Queued (queue_position : Z).

(** [handle_download_callback], up to its last answer; the edit of the
    message that follows changes nothing of the handlers or the
    manager. *)
Definition handle_download_callback (now : Q) (data : string) (user_id : Z)
    (h : BotHandlers) (dm : DownloadManager)
    : callback_answer * BotHandlers * DownloadManager :=
  match PyText.split_max ":" 2 data with
  | [_; format_type; token] =>
      let '(url, h) := resolve_pending_link now token user_id h in
      match url with
      | None => (LinkStale, h, dm)
      | Some url =>
          if negb (truthy_str url) then (LinkStale, h, dm)
          else
            let active_count := get_user_active_downloads dm user_id in
            if (max_concurrent dm <=? active_count)%Z
            then (AtCap active_count, h, dm)
            else
              let '(dm, queued) := add_download dm user_id url format_type in
              if negb queued then (NotQueued, h, dm)
              else (Queued (Z.max 1 (get_queue_size dm)), h, dm)
      end
  | _ => (BadButton, h, dm)
  end.

(** The calls on the pending links, each with the clock readings it
    makes, in the order it makes them. *)
Inductive link_op :=
  | CreateLink (now created_at : Q) (token : string) (user_id : Z) (url : string)
  | ResolveLink (now : Q) (token : string) (user_id : Z).

Definition run_link_op (h : BotHandlers) (op : link_op) : BotHandlers :=
  match op with
  | CreateLink now created_at token user_id url =>
      create_pending_link now created_at token user_id url h
  | ResolveLink now token user_id => (resolve_pending_link now token user_id h).2
  end.

Definition run_link_ops (h : BotHandlers) (ops : list link_op) : BotHandlers :=
  foldl run_link_op h ops.

Definition readings (op : link_op) : list Q :=
  match op with
  | CreateLink now created_at _ _ _ => [now; created_at]
  | ResolveLink now _ _ => [now]
  end.

(** The clock never goes back: each reading is at least [from] and at
    least the one before it. *)
Fixpoint chronological (from : Q) (times : list Q) : Prop :=
  match times with
  | [] => True
  | t :: times' => (from <= t)%Q /\ chronological t times'
  end.

Definition token_of (op : link_op) : option string :=
  match op with
  | CreateLink _ _ token _ _ => Some token
  | ResolveLink _ _ _ => None
  end.

(** What the stored links satisfy while the clock never goes back: the
    last cleanup is not after [t], and no link was older than the time
    to live at the last cleanup. *)
Definition links_inv (t : Q) (h : BotHandlers) : Prop :=
  (last_pending_cleanup h <= t)%Q /\
  forall token p,
    pending_links h !! token = Some p ->
    (last_pending_cleanup h - p_created_at p <= pending_link_ttl_seconds)%Q.

Definition sample_link : payload :=
  {| p_user_id := 7; p_url := "https://youtu.be/dQw4w9WgXcQ";
     p_created_at := 1700000000 |}.

Definition sample_handlers : BotHandlers :=
  create_pending_link 1700000000 1700000000 "3f2a9c0d1b7e" 7
    "https://youtu.be/dQw4w9WgXcQ" new_handlers.

(** The clock reading of the cleanup an operation starts with. *)
Definition cleanup_time (op : link_op) : Q :=
  match op with
  | CreateLink now _ _ _ _ => now
  | ResolveLink now _ _ => now
  end.

(** [sep.join(parts)] for a separator of one character. *)
Fixpoint join (sep : ascii) (parts : list string) : string :=
  match parts with
  | [] => EmptyString
  | [part] => part
  | part :: rest => part +:+ String sep (join sep rest)
  end.

(** The [callback_data] of the two buttons [handle_url_message] puts
    under its answer. *)
Definition button_data (mode token : string) : string :=
  "download:" +:+ mode +:+ ":" +:+ token.

(** * Properties *)

(** ** Strings *)

Lemma append_nil_r (s : string) : s +:+ EmptyString = s.
Proof. induction s as [|c s IH]; simpl; [reflexivity | now rewrite IH]. Qed.

Lemma append_assoc (a b c : string) : (a +:+ b) +:+ c = a +:+ (b +:+ c).
Proof. induction a as [|x a IH]; simpl; [reflexivity | now rewrite IH]. Qed.

Lemma ascii_eqb_true (a b : ascii) : Ascii.eqb a b = true <-> a = b.
Proof. apply Ascii.eqb_eq. Qed.

Lemma strip_prefix_spec (p s r : string) :
  PyStr.strip_prefix p s = Some r <-> s = p +:+ r.
Proof.
  revert s. induction p as [|a p IH]; intros s; simpl.
  - split; [now intros [= ->] | now intros ->].
  - destruct s as [|b s]; [split; discriminate|].
    destruct (Ascii.eqb a b) eqn:Hab.
    + apply Ascii.eqb_eq in Hab as ->. rewrite IH.
      split; [now intros -> | now intros [= ->]].
    + apply Ascii.eqb_neq in Hab. split; [discriminate | intros [= <- _]; congruence].
Qed.

Lemma startswith_spec (p s : string) :
  PyStr.startswith p s = true <-> exists r, s = p +:+ r.
Proof.
  revert s. induction p as [|a p IH]; intros s; simpl.
  - split; [intros _; now exists s | reflexivity].
  - destruct s as [|b s]; [split; [discriminate | intros [r [=]]]|].
    destruct (Ascii.eqb a b) eqn:Hab.
    + apply Ascii.eqb_eq in Hab as ->. rewrite IH.
      split; intros [r Hr]; exists r; [now rewrite Hr | now injection Hr].
    + apply Ascii.eqb_neq in Hab.
      split; [discriminate | intros [r [= <- _]]; congruence].
Qed.

(** The test [p in s] holds exactly when [p] occurs in [s]. *)
Lemma contains_spec (p s : string) :
  PyStr.contains p s = true <-> PyStr.occurs_in p s.
Proof.
  unfold PyStr.occurs_in. induction s as [|c s IH]; simpl.
  - destruct (PyStr.startswith p EmptyString) eqn:Hp.
    + apply startswith_spec in Hp as [r Hr].
      split; [intros _; exists EmptyString, r; exact Hr | reflexivity].
    + split; [discriminate|]. intros (pre & post & H).
      destruct pre; simpl in H; [|discriminate].
      assert (PyStr.startswith p EmptyString = true) as Hs
        by (apply startswith_spec; now exists post).
      congruence.
  - destruct (PyStr.startswith p (String c s)) eqn:Hp.
    + apply startswith_spec in Hp as [r Hr].
      split; [intros _; exists EmptyString, r; exact Hr | reflexivity].
    + rewrite IH. split.
      * intros (pre & post & ->). now exists (String c pre), post.
      * intros (pre & post & H). destruct pre as [|c' pre]; simpl in H.
        -- assert (PyStr.startswith p (String c s) = true) as Hs
             by (apply startswith_spec; now exists post).
           congruence.
        -- injection H as _ ->. now exists pre, post.
Qed.

Lemma contains_false (p s : string) :
  PyStr.contains p s = false <-> ~ PyStr.occurs_in p s.
Proof.
  rewrite <- contains_spec. destruct (PyStr.contains p s); split; congruence.
Qed.

Example lower_ascii_and_cyrillic :
  PyStr.lower "Файл больше лимита Telegram (2048 МБ)."
  = "файл больше лимита telegram (2048 мб)." /\
  PyStr.lower "ERROR: [TikTok] ExtractorError" = "error: [tiktok] extractorerror" /\
  PyStr.lower "ЁЖИК Размер" = "ёжик размер".
Proof. repeat split. Qed.

Example lower_kelvin_and_dotted_i :
  PyStr.lower ("youtu.BE/" +:+ KELVIN_SIGN) = "youtu.be/k" /\
  PyStr.lower "TİKTOK" = "ti̇ktok".
Proof. vm_compute. repeat split. Qed.

(** *** Digit runs *)

Lemma string_length_ind (P : string -> Prop) :
  (forall s, (forall t, String.length t < String.length s -> P t) -> P s) ->
  forall s, P s.
Proof.
  intros H s. remember (String.length s) as n eqn:Hn. revert s Hn.
  induction n as [n IH] using lt_wf_ind. intros s ->.
  apply H. intros t Ht. now apply (IH (String.length t)).
Qed.

Lemma length_append (a b : string) :
  String.length (a +:+ b) = String.length a + String.length b.
Proof. induction a as [|c a IH]; simpl; [reflexivity | now rewrite IH]. Qed.

(** The four ways a text can begin with a digit, or with none. *)
Ltac by_first_character s leaf :=
  destruct s as [|? s];
  [ leaf
  | cbv beta iota delta [PyStr.take_digits PyStr.all_digits PyStr.digit_at];
    fold PyStr.take_digits; fold PyStr.all_digits;
    destruct (PyStr.digit1 _) eqn:?;
    [ leaf
    | destruct s as [|? s];
      [ leaf
      | destruct (PyStr.digit2 _ _) eqn:?;
        [ leaf
        | destruct s as [|? s];
          [ leaf
          | destruct (PyStr.digit3 _ _ _) eqn:?;
            [ leaf
            | destruct s as [|? s];
              [ leaf
              | destruct (PyStr.digit4 _ _ _ _) eqn:?; leaf ] ] ] ] ] ] ].

(** One step of a digit run. *)
Lemma take_digits_step (s : string) :
  PyStr.take_digits s
  = match PyStr.digit_at s with
    | Some (d, rest) => d +:+ PyStr.take_digits rest
    | None => EmptyString
    end.
Proof. by_first_character s ltac:(reflexivity). Qed.

Lemma all_digits_step (s : string) :
  PyStr.all_digits s
  = match s with
    | EmptyString => true
    | _ => match PyStr.digit_at s with
           | Some (_, rest) => PyStr.all_digits rest
           | None => false
           end
    end.
Proof. by_first_character s ltac:(reflexivity). Qed.

(** What [digit_at] finds is one digit, and the text is that digit and
    the rest. *)
Lemma digit_at_some (s d rest : string) :
  PyStr.digit_at s = Some (d, rest) ->
  s = d +:+ rest /\ PyStr.is_digit d = true.
Proof.
  unfold PyStr.is_digit.
  by_first_character s
    ltac:(try discriminate;
          intros [= <- <-]; (split; [reflexivity|]);
          cbv beta iota delta [PyStr.digit_at];
          repeat match goal with
                 | H : _ = _ |- _ => rewrite H
                 end; reflexivity).
Qed.

(** A digit is not empty, and it is what [digit_at] finds in front of
    any text. *)
Lemma is_digit_at (d rest : string) :
  PyStr.is_digit d = true ->
  d <> EmptyString /\ PyStr.digit_at (d +:+ rest) = Some (d, rest).
Proof.
  unfold PyStr.is_digit.
  by_first_character d
    ltac:(try discriminate; try (destruct d; try discriminate);
          intros _; (split; [discriminate|]);
          cbv beta iota delta [PyStr.digit_at String.append];
          repeat match goal with
                 | H : _ = _ |- _ => rewrite H
                 end; reflexivity).
Qed.

Lemma digit_at_shorter (s d rest : string) :
  PyStr.digit_at s = Some (d, rest) -> String.length rest < String.length s.
Proof.
  intros H. apply digit_at_some in H as [-> Hd].
  apply (is_digit_at d EmptyString) in Hd as [Hne _].
  rewrite length_append. destruct d; [congruence | simpl; lia].
Qed.

Lemma all_digits_cons (d s : string) :
  PyStr.is_digit d = true -> PyStr.all_digits (d +:+ s) = PyStr.all_digits s.
Proof.
  intros Hd. apply (is_digit_at d s) in Hd as [Hne Hat].
  rewrite all_digits_step, Hat. destruct d; [congruence | reflexivity].
Qed.

(** A digit run is empty, or a digit and a digit run. *)
Lemma all_digits_inv (s : string) :
  PyStr.all_digits s = true ->
  s = EmptyString \/
  exists d rest, PyStr.is_digit d = true /\ s = d +:+ rest /\
                 PyStr.all_digits rest = true /\
                 String.length rest < String.length s.
Proof.
  rewrite all_digits_step. destruct s as [|c s]; [now left|].
  destruct (PyStr.digit_at (String c s)) as [[d rest]|] eqn:Hat; [|discriminate].
  intros Hrest. right. exists d, rest.
  pose proof (digit_at_shorter _ _ _ Hat) as Hlen.
  apply digit_at_some in Hat as [Hs Hd]. now repeat split.
Qed.

Lemma take_digits_all (s : string) : PyStr.all_digits (PyStr.take_digits s) = true.
Proof.
  induction s as [s IH] using string_length_ind.
  rewrite take_digits_step.
  destruct (PyStr.digit_at s) as [[d rest]|] eqn:Hat; [|reflexivity].
  pose proof (digit_at_shorter _ _ _ Hat) as Hlen.
  apply digit_at_some in Hat as [_ Hd].
  rewrite all_digits_cons by exact Hd. now apply IH.
Qed.

Lemma take_digits_split (s : string) :
  exists rest, s = PyStr.take_digits s +:+ rest /\ PyStr.no_leading_digit rest.
Proof.
  induction s as [s IH] using string_length_ind.
  rewrite take_digits_step.
  destruct (PyStr.digit_at s) as [[d r]|] eqn:Hat.
  - destruct (IH r (digit_at_shorter _ _ _ Hat)) as (rest & Hr & Hrest).
    apply digit_at_some in Hat as [-> _].
    exists rest. split; [|exact Hrest]. rewrite append_assoc. now rewrite <- Hr.
  - now exists s.
Qed.

Lemma take_digits_run (ds rest : string) :
  PyStr.all_digits ds = true -> PyStr.no_leading_digit rest ->
  PyStr.take_digits (ds +:+ rest) = ds.
Proof.
  intros Hds Hrest. induction ds as [ds IH] using string_length_ind.
  apply all_digits_inv in Hds as [->|(d & r & Hd & -> & Hr & Hlen)].
  - cbn [String.append]. rewrite take_digits_step.
    unfold PyStr.no_leading_digit in Hrest. now rewrite Hrest.
  - rewrite append_assoc, take_digits_step.
    apply (is_digit_at d (r +:+ rest)) in Hd as [_ ->].
    now rewrite IH.
Qed.

Lemma take_digits_nonempty (s : string) :
  PyStr.take_digits s <> EmptyString <->
  exists d rest, PyStr.is_digit d = true /\ s = d +:+ rest.
Proof.
  rewrite take_digits_step. split.
  - destruct (PyStr.digit_at s) as [[d rest]|] eqn:Hat; [|congruence].
    intros _. apply digit_at_some in Hat as [-> Hd]. now exists d, rest.
  - intros (d & rest & Hd & ->).
    apply (is_digit_at d rest) in Hd as [Hne ->].
    destruct d; [congruence | discriminate].
Qed.

(** The digits of the program's own texts are the ASCII ones, and the
    digits of other scripts are digits too. *)
Example digits_of_all_scripts :
  PyStr.take_digits "7301234567890123456?lang=en" = "7301234567890123456" /\
  PyStr.take_digits "١٢٣/" = "١٢٣" /\
  PyStr.take_digits "12３４x" = "12３４" /\
  PyStr.take_digits "𝟗𝟠x" = "𝟗𝟠" /\
  PyStr.take_digits "x12" = EmptyString /\
  PyStr.take_digits "²³" = EmptyString /\
  PyStr.take_digits "Ⅷ" = EmptyString.
Proof. vm_compute. repeat split. Qed.

(** ** Canonical URL *)

Lemma match_video_at_some (s ds : string) :
  match_video_at s = Some ds ->
  exists rest, s = "/video/" +:+ ds +:+ rest /\ ds <> EmptyString /\
               PyStr.all_digits ds = true /\ PyStr.no_leading_digit rest.
Proof.
  unfold match_video_at. intros H.
  destruct (PyStr.strip_prefix "/video/" s) as [r|] eqn:Hp; [|discriminate].
  apply strip_prefix_spec in Hp.
  destruct (take_digits_split r) as (rest & Hr & Hrest).
  pose proof (take_digits_all r) as Hall.
  destruct (PyStr.take_digits r) as [|c t] eqn:Ht; [discriminate|].
  injection H as <-. exists rest. repeat split; try assumption; [|discriminate].
  rewrite Hp. now rewrite Hr at 1.
Qed.

Lemma match_video_at_none (s : string) :
  match_video_at s = None <-> ~ video_pattern_at s EmptyString.
Proof.
  unfold match_video_at, video_pattern_at. split.
  - intros H (d & rest & Hd & Hs). cbn [String.append] in Hs.
    assert (PyStr.strip_prefix "/video/" s = Some (d +:+ rest)) as Hp
      by (now apply strip_prefix_spec).
    rewrite Hp in H.
    assert (PyStr.take_digits (d +:+ rest) <> EmptyString) as Hne
      by (apply take_digits_nonempty; now exists d, rest).
    destruct (PyStr.take_digits (d +:+ rest)); [congruence | discriminate].
  - intros H. destruct (PyStr.strip_prefix "/video/" s) as [r|] eqn:Hp; [|reflexivity].
    apply strip_prefix_spec in Hp.
    destruct (PyStr.take_digits r) as [|c t] eqn:Ht; [reflexivity|].
    exfalso. apply H.
    assert (PyStr.take_digits r <> EmptyString) as Hne by (rewrite Ht; discriminate).
    apply take_digits_nonempty in Hne as (d & rest & Hd & ->).
    exists d, rest. split; [exact Hd | exact Hp].
Qed.

Lemma search_video_id_some (s ds : string) :
  search_video_id s = Some ds ->
  exists pre rest,
    s = pre +:+ "/video/" +:+ ds +:+ rest /\
    ds <> EmptyString /\ PyStr.all_digits ds = true /\
    PyStr.no_leading_digit rest /\
    (forall pre1, video_pattern_at s pre1 ->
                  String.length pre <= String.length pre1).
Proof.
  induction s as [|c s IH].
  - discriminate.
  - change (search_video_id (String c s))
      with (match match_video_at (String c s) with
            | Some x => Some x
            | None => search_video_id s
            end).
    destruct (match_video_at (String c s)) as [ds'|] eqn:Hm.
    + intros [= ->]. apply match_video_at_some in Hm as (rest & Hs & Hne & Hall & Hr).
      exists EmptyString, rest. repeat split; try assumption.
      intros pre1 _. simpl. lia.
    + intros H. destruct (IH H) as (pre & rest & Hs & Hne & Hall & Hr & Hmin).
      exists (String c pre), rest. repeat split; try assumption.
      * simpl. f_equal. exact Hs.
      * intros pre1 (d & rest1 & Hd & Hs1).
        destruct pre1 as [|c1 pre1].
        -- apply match_video_at_none in Hm. exfalso. apply Hm.
           now exists d, rest1.
        -- simpl in Hs1. injection Hs1 as _ Hs1. simpl.
           apply le_n_S. apply Hmin. now exists d, rest1.
Qed.

Lemma search_video_id_none (s : string) :
  search_video_id s = None <-> ~ exists pre, video_pattern_at s pre.
Proof.
  induction s as [|c s IH].
  - split; [|reflexivity]. intros _ (pre & d & rest & _ & Hs).
    destruct pre; discriminate.
  - change (search_video_id (String c s))
      with (match match_video_at (String c s) with
            | Some x => Some x
            | None => search_video_id s
            end).
    destruct (match_video_at (String c s)) as [ds|] eqn:Hm.
    + split; [discriminate|]. intros H. exfalso. apply H.
      apply match_video_at_some in Hm as (rest & Hs & Hne & Hall & Hr).
      apply all_digits_inv in Hall as [->|(d & r & Hd & -> & _ & _)]; [congruence|].
      exists EmptyString, d, (r +:+ rest).
      split; [exact Hd | now rewrite Hs, append_assoc].
    + rewrite IH. apply match_video_at_none in Hm. split.
      * intros H (pre & d & rest & Hd & Hs). destruct pre as [|c1 pre].
        -- apply Hm. now exists d, rest.
        -- simpl in Hs. injection Hs as _ Hs. apply H. now exists pre, d, rest.
      * intros H (pre & d & rest & Hd & Hs). apply H.
        exists (String c pre), d, rest. split; [exact Hd | simpl; f_equal; exact Hs].
Qed.

Lemma search_video_id_skip (c : ascii) (s : string) :
  match_video_at (String c s) = None ->
  search_video_id (String c s) = search_video_id s.
Proof.
  intros H.
  change (search_video_id (String c s))
    with (match match_video_at (String c s) with
          | Some x => Some x
          | None => search_video_id s
          end).
  now rewrite H.
Qed.

Lemma match_video_at_run (ds rest : string) :
  ds <> EmptyString -> PyStr.all_digits ds = true -> PyStr.no_leading_digit rest ->
  match_video_at ("/video/" +:+ ds +:+ rest) = Some ds.
Proof.
  intros Hne Hall Hrest. unfold match_video_at.
  assert (PyStr.strip_prefix "/video/" ("/video/" +:+ ds +:+ rest) = Some (ds +:+ rest))
    as -> by (now apply strip_prefix_spec).
  rewrite take_digits_run by assumption.
  destruct ds; congruence.
Qed.

Lemma search_video_id_here (ds rest : string) :
  ds <> EmptyString -> PyStr.all_digits ds = true -> PyStr.no_leading_digit rest ->
  search_video_id ("/video/" +:+ ds +:+ rest) = Some ds.
Proof.
  intros Hne Hall Hrest.
  pose proof (match_video_at_run ds rest Hne Hall Hrest) as Hm.
  simpl in Hm |- *.
  change (match match_video_at (String "/" ("video/" +:+ ds +:+ rest)) with
          | Some x => Some x
          | None => search_video_id ("video/" +:+ ds +:+ rest)
          end = Some ds).
  simpl. now rewrite Hm.
Qed.

(** A canonical URL is its own canonical form. *)
Lemma canonicalize_canonical (ds : string) :
  ds <> EmptyString -> PyStr.all_digits ds = true ->
  canonicalize_tiktok_video_url (TIKTOK_ROOT +:+ ds) = Some (TIKTOK_ROOT +:+ ds).
Proof.
  intros Hne Hall. unfold canonicalize_tiktok_video_url.
  assert (search_video_id (TIKTOK_ROOT +:+ ds) = Some ds) as ->; [|reflexivity].
  unfold TIKTOK_ROOT. simpl String.append.
  do 25 (rewrite search_video_id_skip by reflexivity).
  pose proof (search_video_id_here ds EmptyString Hne Hall eq_refl) as H.
  rewrite append_nil_r in H. exact H.
Qed.

Lemma canonicalize_some (url c : string) :
  canonicalize_tiktok_video_url url = Some c ->
  exists pre ds rest,
    url = pre +:+ "/video/" +:+ ds +:+ rest /\
    ds <> EmptyString /\ PyStr.all_digits ds = true /\
    PyStr.no_leading_digit rest /\
    (forall pre1, video_pattern_at url pre1 ->
                  String.length pre <= String.length pre1) /\
    c = "https://www.tiktok.com/@_/video/" +:+ ds.
Proof.
  unfold canonicalize_tiktok_video_url. intros H.
  destruct (search_video_id url) as [ds|] eqn:Hs; [|discriminate].
  injection H as <-.
  apply search_video_id_some in Hs as (pre & rest & Hu & Hne & Hall & Hr & Hmin).
  exists pre, ds, rest. repeat split; assumption.
Qed.

Lemma canonicalize_none (url : string) :
  canonicalize_tiktok_video_url url = None <-> ~ exists pre, video_pattern_at url pre.
Proof.
  unfold canonicalize_tiktok_video_url. rewrite <- search_video_id_none.
  destruct (search_video_id url); split; congruence.
Qed.

Lemma canonicalize_idempotent (url c : string) :
  canonicalize_tiktok_video_url url = Some c ->
  canonicalize_tiktok_video_url c = Some c.
Proof.
  intros H. apply canonicalize_some in H as (pre & ds & rest & _ & Hne & Hall & _ & _ & ->).
  now apply canonicalize_canonical.
Qed.

(** C7.  The canonical form of a URL: when the URL has [/video/]
    followed by a digit, it is the platform root followed by the digit
    run that follows the leftmost such [/video/], the whole run and
    nothing more; when the URL has no such place there is no canonical
    form; and the canonical form of a canonical form is itself. *)
Theorem canonicalize_tiktok_video_url_spec (url : string) :
  (forall c, canonicalize_tiktok_video_url url = Some c ->
     exists pre ds rest,
       url = pre +:+ "/video/" +:+ ds +:+ rest /\
       ds <> EmptyString /\ PyStr.all_digits ds = true /\
       PyStr.no_leading_digit rest /\
       (forall pre1, video_pattern_at url pre1 ->
                     String.length pre <= String.length pre1) /\
       c = "https://www.tiktok.com/@_/video/" +:+ ds) /\
  (canonicalize_tiktok_video_url url = None <->
     ~ exists pre, video_pattern_at url pre) /\
  (forall c, canonicalize_tiktok_video_url url = Some c ->
     canonicalize_tiktok_video_url c = Some c).
Proof.
  split; [|split].
  - intros c. apply canonicalize_some.
  - apply canonicalize_none.
  - intros c. apply canonicalize_idempotent.
Qed.

Example canonicalize_sample :
  canonicalize_tiktok_video_url "https://www.tiktok.com/@user/video/12345?lang=en"
  = Some "https://www.tiktok.com/@_/video/12345".
Proof. reflexivity. Qed.

Example canonicalize_leftmost :
  canonicalize_tiktok_video_url "https://t.example/video/x/video/77a/video/8"
  = Some "https://www.tiktok.com/@_/video/77".
Proof. reflexivity. Qed.

Example canonicalize_short_link :
  canonicalize_tiktok_video_url "https://vm.tiktok.com/ZMabcdef/" = None.
Proof. reflexivity. Qed.

(** The digits of another script are digits of the pattern, alone or in
    one run with ASCII digits. *)
Example canonicalize_other_scripts :
  canonicalize_tiktok_video_url "https://www.tiktok.com/@u/video/١٢٣"
  = Some "https://www.tiktok.com/@_/video/١٢٣" /\
  canonicalize_tiktok_video_url "https://www.tiktok.com/@u/video/12３４x"
  = Some "https://www.tiktok.com/@_/video/12３４".
Proof. vm_compute. split; reflexivity. Qed.

(** ** The classifier *)

(** C5.  A failure is recoverable exactly when its text, in lower case,
    has the platform's name and has one of the four transient phrases. *)
Theorem is_tiktok_extraction_error_iff (error : exn) :
  let msg := PyStr.lower (str_of_exn error) in
  is_tiktok_extraction_error error = true <->
  PyStr.occurs_in "tiktok" msg /\
  (PyStr.occurs_in "unable to extract webpage video data" msg \/
   PyStr.occurs_in "unable to download webpage" msg \/
   PyStr.occurs_in "video not available" msg \/
   PyStr.occurs_in "extractorerror" msg).
Proof.
  intros msg. unfold is_tiktok_extraction_error. fold msg.
  rewrite <- !contains_spec.
  unfold any_token_in, TRANSIENT_TOKENS. simpl existsb.
  destruct (PyStr.contains "tiktok" msg);
    destruct (PyStr.contains "unable to extract webpage video data" msg);
    destruct (PyStr.contains "unable to download webpage" msg);
    destruct (PyStr.contains "video not available" msg);
    destruct (PyStr.contains "extractorerror" msg);
    simpl; intuition discriminate.
Qed.

Example classifier_names_platform :
  is_tiktok_extraction_error
    {| exn_cls := Foreign "DownloadError";
       exn_text := "ERROR: [TikTok] 7300000000000000000: Video not available" |}
  = true.
Proof. reflexivity. Qed.

Example classifier_without_platform :
  is_tiktok_extraction_error
    {| exn_cls := Foreign "DownloadError";
       exn_text := "ERROR: [generic] 7300000000000000000: Video not available" |}
  = false.
Proof. reflexivity. Qed.

Example classifier_other_failure :
  is_tiktok_extraction_error
    {| exn_cls := Foreign "DownloadError";
       exn_text := "ERROR: [TikTok] 73: This video is DRM protected" |}
  = false.
Proof. reflexivity. Qed.

(** The platform is named also when its name is written with the
    Kelvin sign for a [K]. *)
Example classifier_kelvin_sign :
  PyStr.lower ("Ti" +:+ KELVIN_SIGN +:+ "Tok") = "tiktok" /\
  is_tiktok_extraction_error
    {| exn_cls := Foreign "DownloadError";
       exn_text := "ERROR: [Ti" +:+ KELVIN_SIGN +:+ "Tok] 12345: Video not available" |}
  = true.
Proof. vm_compute. split; reflexivity. Qed.

(** ** The attempt plan *)

Lemma canonical_truthy (url c : string) :
  canonicalize_tiktok_video_url url = Some c -> falsy (Some c) = false.
Proof.
  unfold canonicalize_tiktok_video_url.
  destruct (search_video_id url); [|discriminate]. now intros [= <-].
Qed.

Lemma falsy_truthy (u : string) : falsy (Some u) = negb (truthy_str u).
Proof. now destruct u. Qed.

Lemma plan_step_url (seen : gset attempt) (attempts : list attempt)
    (u : string) (b : bool) :
  falsy (Some u) = false ->
  plan_step (seen, attempts) (Some u, b) =
  if decide ((u, b) ∈ seen) then (seen, attempts)
  else ({[ (u, b) ]} ∪ seen, attempts ++ [(u, b)]).
Proof. intros H. unfold plan_step. now rewrite H. Qed.

Lemma plan_step_none (st : gset attempt * list attempt) (b : bool) :
  plan_step st (None, b) = st.
Proof. now destruct st. Qed.

(** Membership in the set [seen] of the loop. *)
Ltac seen :=
  rewrite ?elem_of_union, ?elem_of_singleton; intuition congruence.
Ltac not_seen :=
  rewrite ?elem_of_union, ?elem_of_singleton, ?elem_of_empty;
  intuition congruence.

Lemma build_tiktok_attempt_plan_cases (url : string) :
  build_tiktok_attempt_plan url = plan_by_cases url.
Proof.
  unfold build_tiktok_attempt_plan, plan_by_cases.
  destruct url as [|a url]; [reflexivity|].
  remember (String a url) as u eqn:Eu.
  assert (falsy (Some u) = false) as Hu by now subst u.
  clear Eu a url.
  destruct (canonicalize_tiktok_video_url u) as [c|] eqn:Hc; cbn [foldl].
  - pose proof (canonical_truthy _ _ Hc) as Hcf.
    rewrite (plan_step_url _ _ u false Hu).
    rewrite decide_False by not_seen.
    rewrite (plan_step_url _ _ c false Hcf).
    destruct (decide (c = u)) as [->|Hne].
    + rewrite decide_True by seen.
      rewrite (plan_step_url _ _ u true Hu).
      rewrite decide_False by not_seen.
      rewrite (plan_step_url _ _ u true Hu).
      rewrite decide_True by seen. reflexivity.
    + rewrite decide_False by not_seen.
      rewrite (plan_step_url _ _ u true Hu).
      rewrite decide_False by not_seen.
      rewrite (plan_step_url _ _ c true Hcf).
      rewrite decide_False by not_seen. reflexivity.
  - rewrite (plan_step_url _ _ u false Hu).
    rewrite decide_False by not_seen.
    rewrite !plan_step_none.
    rewrite (plan_step_url _ _ u true Hu).
    rewrite decide_False by not_seen.
    reflexivity.
Qed.

Lemma present_url (u : string) (b : bool) (cands : list (option string * bool)) :
  falsy (Some u) = false ->
  present ((Some u, b) :: cands) = (u, b) :: present cands.
Proof.
  rewrite falsy_truthy. intros H%negb_false_iff.
  unfold present. simpl. now rewrite H.
Qed.

Lemma present_none (b : bool) (cands : list (option string * bool)) :
  present ((None, b) :: cands) = present cands.
Proof. reflexivity. Qed.

Lemma first_occurrences_cons (a : attempt) (l : list attempt) :
  first_occurrences (a :: l) = a :: filter (fun b => b <> a) (first_occurrences l).
Proof. reflexivity. Qed.

Lemma attempt_plan_spec_cases (url : string) :
  attempt_plan_spec url = plan_by_cases url.
Proof.
  unfold attempt_plan_spec, plan_by_cases.
  destruct url as [|a url]; [reflexivity|].
  remember (String a url) as u eqn:Eu.
  assert (falsy (Some u) = false) as Hu by now subst u.
  clear Eu a url.
  destruct (canonicalize_tiktok_video_url u) as [c|] eqn:Hc.
  - pose proof (canonical_truthy _ _ Hc) as Hcf.
    rewrite (present_url u false), (present_url c false),
      (present_url u true), (present_url c true) by assumption.
    change (present []) with (@nil attempt).
    unfold first_occurrences.
    destruct (decide (c = u)) as [->|Hne].
    + repeat (rewrite ?filter_nil, ?filter_cons; repeat case_decide);
        try reflexivity; try congruence; exfalso; auto.
    + repeat (rewrite ?filter_nil, ?filter_cons; repeat case_decide);
        try reflexivity; try congruence; exfalso; auto.
  - rewrite (present_url u false) by assumption. rewrite present_none.
    rewrite (present_url u true) by assumption. rewrite present_none.
    change (present []) with (@nil attempt).
    unfold first_occurrences.
    repeat (rewrite ?filter_nil, ?filter_cons; repeat case_decide);
      try reflexivity; try congruence; exfalso; auto.
Qed.

Lemma plan_by_cases_length (url : string) : length (plan_by_cases url) <= 4.
Proof.
  unfold plan_by_cases. destruct url; [simpl; lia|].
  destruct (canonicalize_tiktok_video_url _); [case_decide|]; simpl; lia.
Qed.

Lemma plan_by_cases_NoDup (url : string) : NoDup (plan_by_cases url).
Proof.
  unfold plan_by_cases. destruct url as [|a url]; [constructor|].
  set (u := String a url).
  destruct (canonicalize_tiktok_video_url u) as [c|]; [case_decide|];
    repeat (apply NoDup_cons; split;
            [rewrite ?elem_of_cons, ?elem_of_nil; intuition congruence|]);
    apply NoDup_nil; exact I.
Qed.

Lemma plan_by_cases_no_pattern (url : string) :
  (~ exists pre, video_pattern_at url pre) -> length (plan_by_cases url) <= 2.
Proof.
  intros H. apply canonicalize_none in H. unfold plan_by_cases.
  rewrite H. destruct url; simpl; lia.
Qed.

(** C4.  The plan the loop builds is the plan as specified: the four
    candidates (original, default), (canonical, default), (original,
    alternate), (canonical, alternate) in that order, without the
    candidates that have no URL, each pair once, at its first place.  It
    has at most four entries, no entry twice, and at most two entries
    when the URL has no [/video/<digits>]. *)
Theorem build_tiktok_attempt_plan_spec (url : string) :
  build_tiktok_attempt_plan url = attempt_plan_spec url /\
  length (build_tiktok_attempt_plan url) <= 4 /\
  NoDup (build_tiktok_attempt_plan url) /\
  ((~ exists pre, video_pattern_at url pre) ->
   length (build_tiktok_attempt_plan url) <= 2).
Proof.
  rewrite build_tiktok_attempt_plan_cases, attempt_plan_spec_cases.
  repeat split.
  - apply plan_by_cases_length.
  - apply plan_by_cases_NoDup.
  - apply plan_by_cases_no_pattern.
Qed.

Example plan_with_video_id :
  build_tiktok_attempt_plan "https://www.tiktok.com/@user/video/12345"
  = [ ("https://www.tiktok.com/@user/video/12345", false);
      ("https://www.tiktok.com/@_/video/12345", false);
      ("https://www.tiktok.com/@user/video/12345", true);
      ("https://www.tiktok.com/@_/video/12345", true) ].
Proof. vm_compute. reflexivity. Qed.

Example plan_of_canonical_url :
  build_tiktok_attempt_plan "https://www.tiktok.com/@_/video/12345"
  = [ ("https://www.tiktok.com/@_/video/12345", false);
      ("https://www.tiktok.com/@_/video/12345", true) ].
Proof. vm_compute. reflexivity. Qed.

Example plan_with_digits_of_another_script :
  build_tiktok_attempt_plan "https://www.tiktok.com/@u/video/١٢٣"
  = [ ("https://www.tiktok.com/@u/video/١٢٣", false);
      ("https://www.tiktok.com/@_/video/١٢٣", false);
      ("https://www.tiktok.com/@u/video/١٢٣", true);
      ("https://www.tiktok.com/@_/video/١٢٣", true) ].
Proof. vm_compute. reflexivity. Qed.

(** ** Quota bookkeeping under calls in any order *)

Lemma quota_sane_queued_count (dm : DownloadManager) (u : Z) :
  quota_sane dm -> (0 <= queued_count dm u)%Z.
Proof.
  intros [_ H]. unfold queued_count.
  destruct (queued_tasks dm !! u) as [q|] eqn:Hq; simpl; [|lia].
  specialize (H u q Hq). lia.
Qed.

Lemma new_manager_sane (n : Z) : quota_sane (new_manager n).
Proof.
  split; simpl; [lia|]. intros u q H. now rewrite lookup_empty in H.
Qed.

Lemma add_download_sane (dm : DownloadManager) (u : Z) (url mode : string) :
  quota_sane dm -> quota_sane (add_download dm u url mode).1.
Proof.
  intros Hs. pose proof (quota_sane_queued_count dm u Hs) as Hq.
  destruct Hs as [Hp Hs]. unfold add_download.
  destruct (negb (valid_mode mode)); [now split|].
  destruct (_ <=? _)%Z; [now split|].
  split; simpl; [exact Hp|]. intros v q.
  rewrite lookup_insert. case_decide.
  - intros [= <-]. lia.
  - apply Hs.
Qed.

Lemma mark_task_started_sane (dm : DownloadManager) (u t : Z) :
  quota_sane dm -> quota_sane (mark_task_started dm u t).
Proof.
  intros [Hp Hs]. unfold mark_task_started. split; simpl; [lia|].
  intros v q. destruct (0 <? queued_count dm u - 1)%Z eqn:Hlt.
  - apply Z.ltb_lt in Hlt. rewrite lookup_insert. case_decide.
    + intros [= <-]. exact Hlt.
    + apply Hs.
  - rewrite lookup_delete. case_decide; [discriminate | apply Hs].
Qed.

(** [_mark_task_finished] raises nothing: the [remove] is guarded. *)
Lemma mark_task_finished_total (dm : DownloadManager) (u t : Z) :
  exists dm',
    mark_task_finished dm u t = Some dm' /\
    queued_tasks dm' = queued_tasks dm /\
    max_concurrent dm' = max_concurrent dm /\
    queue dm' = queue dm /\
    (0 <= processing dm -> 0 <= processing dm')%Z /\
    (forall v, v <> u -> active_tasks dm' !! v = active_tasks dm !! v) /\
    default ∅ (active_tasks dm' !! u) = default ∅ (active_tasks dm !! u) ∖ {[ t ]}.
Proof.
  unfold mark_task_finished.
  destruct (active_tasks dm !! u) as [tasks|] eqn:Ha.
  - destruct (truthy_set tasks && bool_decide (t ∈ tasks)) eqn:Hin.
    + apply andb_prop in Hin as [_ Hin]. apply bool_decide_eq_true in Hin.
      unfold set_remove. rewrite decide_True by exact Hin. simpl.
      eexists. split; [reflexivity|]. simpl. repeat split.
      * intros Hp. destruct (0 <? processing dm)%Z eqn:E; [apply Z.ltb_lt in E|]; lia.
      * intros v Hv. destruct (truthy_set (tasks ∖ {[t]}));
          [now rewrite lookup_insert_ne | now rewrite lookup_delete_ne].
      * destruct (truthy_set (tasks ∖ {[t]})) eqn:Ht.
        -- now rewrite lookup_insert_eq.
        -- rewrite lookup_delete_eq. simpl. unfold truthy_set in Ht.
           apply bool_decide_eq_false in Ht. symmetry.
           destruct (decide (tasks ∖ {[t]} = ∅)) as [E|E]; [exact E | contradiction].
    + simpl. eexists. split; [reflexivity|]. simpl. repeat split.
      * intros Hp. destruct (0 <? processing dm)%Z eqn:E; [apply Z.ltb_lt in E|]; lia.
      * rewrite Ha. simpl. apply andb_false_iff in Hin as [Hin|Hin].
        -- unfold truthy_set in Hin. apply bool_decide_eq_false in Hin.
           destruct (decide (tasks = ∅)) as [->|E]; [|contradiction].
           apply set_eq. intros x. rewrite elem_of_difference, elem_of_empty. tauto.
        -- apply bool_decide_eq_false in Hin.
           apply set_eq. intros x. rewrite elem_of_difference, elem_of_singleton.
           split; [intros Hx; split; [exact Hx | congruence] | tauto].
  - simpl. eexists. split; [reflexivity|]. simpl. repeat split.
    + intros Hp. destruct (0 <? processing dm)%Z eqn:E; [apply Z.ltb_lt in E|]; lia.
    + rewrite Ha. simpl.
      apply set_eq. intros x. rewrite elem_of_difference, elem_of_empty. tauto.
Qed.

Lemma mark_task_finished_sane (dm dm' : DownloadManager) (u t : Z) :
  mark_task_finished dm u t = Some dm' -> quota_sane dm -> quota_sane dm'.
Proof.
  intros H [Hp Hs].
  destruct (mark_task_finished_total dm u t) as (dm2 & H2 & Hq & _ & _ & Hp2 & _).
  rewrite H in H2. injection H2 as <-. split; [auto|]. now rewrite Hq.
Qed.

(** A finish for a task that is not active changes neither map. *)
Lemma mark_task_finished_spurious (dm : DownloadManager) (u t : Z) :
  t ∉ default ∅ (active_tasks dm !! u) ->
  exists dm',
    mark_task_finished dm u t = Some dm' /\
    active_tasks dm' = active_tasks dm /\
    queued_tasks dm' = queued_tasks dm.
Proof.
  intros Hnot. unfold mark_task_finished.
  destruct (active_tasks dm !! u) as [tasks|] eqn:Ha; simpl in *.
  - rewrite (bool_decide_eq_false_2 _ Hnot), andb_false_r. simpl.
    eexists. split; [reflexivity|]. now split.
  - eexists. split; [reflexivity|]. now split.
Qed.

Lemma run_calls_sane (cs : list call) (dm : DownloadManager) :
  quota_sane dm -> exists dm', run_calls dm cs = Some dm' /\ quota_sane dm'.
Proof.
  revert dm. induction cs as [|c cs IH]; intros dm Hs; simpl.
  - now exists dm.
  - destruct c as [u url mode | u t | u t]; simpl.
    + apply IH. now apply add_download_sane.
    + apply IH. now apply mark_task_started_sane.
    + destruct (mark_task_finished_total dm u t) as (dm1 & H1 & _).
      rewrite H1. simpl. apply IH. now apply (mark_task_finished_sane dm dm1 u t).
Qed.

(** C10.  Whatever calls are made, with whatever arguments and in
    whatever order, none raises, the counter of running tasks is never
    negative, and no requester's queued count is negative (a stored count
    is at least one); and a finish for a task that is not in the
    requester's active set leaves both maps as they were. *)
Theorem quota_never_underflows :
  (forall (n : Z) (cs : list call),
     exists dm, run_calls (new_manager n) cs = Some dm /\
                (0 <= processing dm)%Z /\
                (forall u, 0 <= queued_count dm u)%Z /\
                (forall u q, queued_tasks dm !! u = Some q -> 1 <= q)%Z) /\
  (forall (dm : DownloadManager) (u t : Z),
     t ∉ default ∅ (active_tasks dm !! u) ->
     exists dm', mark_task_finished dm u t = Some dm' /\
                 active_tasks dm' = active_tasks dm /\
                 queued_tasks dm' = queued_tasks dm).
Proof.
  split.
  - intros n cs.
    destruct (run_calls_sane cs (new_manager n) (new_manager_sane n))
      as (dm & Hrun & Hs).
    exists dm. split; [exact Hrun|]. split; [apply Hs|]. split.
    + intros u. now apply quota_sane_queued_count.
    + intros u q Hq. destruct Hs as [_ Hs]. specialize (Hs u q Hq). lia.
  - apply mark_task_finished_spurious.
Qed.

(** ** Admission *)

Lemma add_download_invalid_mode (dm : DownloadManager) (u : Z) (url mode : string) :
  valid_mode mode = false -> add_download dm u url mode = (dm, false).
Proof. intros H. unfold add_download. now rewrite H. Qed.

Lemma add_download_allowed_iff (dm : DownloadManager) (u : Z) (url mode : string) :
  valid_mode mode = true ->
  (add_download dm u url mode).2 = true <->
  (active_count dm u + queued_count dm u < max_concurrent dm)%Z.
Proof.
  intros H. unfold add_download. rewrite H. simpl.
  destruct (_ <=? _)%Z eqn:E; simpl.
  - apply Z.leb_le in E. split; [discriminate | lia].
  - apply Z.leb_gt in E. split; [intros _; exact E | reflexivity].
Qed.

Lemma add_download_denied (dm : DownloadManager) (u : Z) (url mode : string) :
  (add_download dm u url mode).2 = false -> (add_download dm u url mode).1 = dm.
Proof.
  unfold add_download. destruct (negb (valid_mode mode)); [reflexivity|].
  destruct (_ <=? _)%Z; [reflexivity | discriminate].
Qed.

Lemma add_download_allowed (dm : DownloadManager) (u : Z) (url mode : string) :
  (add_download dm u url mode).2 = true ->
  let dm' := (add_download dm u url mode).1 in
  queued_count dm' u = (queued_count dm u + 1)%Z /\
  (forall v, v <> u -> queued_count dm' v = queued_count dm v) /\
  active_tasks dm' = active_tasks dm /\
  queue dm' = queue dm ++
              [Some {| item_task_id := (task_counter dm + 1)%Z; item_user := u;
                       item_url := url; item_mode := mode |}] /\
  max_concurrent dm' = max_concurrent dm /\
  queued_tasks dm' = <[u := (queued_count dm u + 1)%Z]> (queued_tasks dm).
Proof.
  unfold add_download. destruct (negb (valid_mode mode)); [discriminate|].
  destruct (_ <=? _)%Z; [discriminate|]. intros _. simpl.
  unfold queued_count at 1. simpl. rewrite lookup_insert_eq. simpl.
  repeat split. intros v Hv. unfold queued_count. simpl.
  now rewrite lookup_insert_ne.
Qed.

Lemma active_count_after_finish (dm dm' : DownloadManager) (u t : Z) :
  mark_task_finished dm u t = Some dm' ->
  t ∈ default ∅ (active_tasks dm !! u) ->
  (active_count dm' u = active_count dm u - 1)%Z.
Proof.
  intros H Hin.
  destruct (mark_task_finished_total dm u t) as (dm2 & H2 & _ & _ & _ & _ & _ & Ha).
  rewrite H in H2. injection H2 as <-. unfold active_count. rewrite Ha.
  set (tasks := default ∅ (active_tasks dm !! u)) in *.
  assert (size tasks = size (tasks ∖ {[t]}) + 1) as Hsz.
  { rewrite (union_difference_L {[t]} tasks) at 1
      by (now apply singleton_subseteq_l).
    rewrite size_union by (apply disjoint_difference_r1; reflexivity).
    rewrite size_singleton. lia. }
  lia.
Qed.

(** C6, as the code has it.  A request in a mode other than video and
    audio is refused and nothing changes.  A request in one of the two
    modes is allowed exactly when the requester's active and queued
    tasks together are fewer than the cap; when allowed, the requester's
    queued count grows by one, the other counts and the active sets stay,
    and exactly one entry, the new task, joins the tail of the queue;
    when refused, the manager is unchanged.  After a finish of one of the
    requester's active tasks, a requester who was at the cap is allowed
    again. *)
Theorem add_download_spec (dm : DownloadManager) (u : Z) (url mode : string) :
  (valid_mode mode = false -> add_download dm u url mode = (dm, false)) /\
  (valid_mode mode = true ->
   ((add_download dm u url mode).2 = true <->
    (active_count dm u + queued_count dm u < max_concurrent dm)%Z) /\
   ((add_download dm u url mode).2 = true ->
    let dm' := (add_download dm u url mode).1 in
    queued_count dm' u = (queued_count dm u + 1)%Z /\
    (forall v, v <> u -> queued_count dm' v = queued_count dm v) /\
    active_tasks dm' = active_tasks dm /\
    queue dm' = queue dm ++
                [Some {| item_task_id := (task_counter dm + 1)%Z; item_user := u;
                         item_url := url; item_mode := mode |}]) /\
   ((add_download dm u url mode).2 = false ->
    (add_download dm u url mode).1 = dm) /\
   (forall t dm1,
      (active_count dm u + queued_count dm u <= max_concurrent dm)%Z ->
      t ∈ default ∅ (active_tasks dm !! u) ->
      mark_task_finished dm u t = Some dm1 ->
      (add_download dm1 u url mode).2 = true)).
Proof.
  split; [apply add_download_invalid_mode|]. intros Hmode.
  split; [now apply add_download_allowed_iff|].
  split; [|split; [apply add_download_denied|]].
  - intros H. destruct (add_download_allowed dm u url mode H) as (? & ? & ? & ? & _).
    now repeat split.
  - intros t dm1 Hcap Hin Hfin.
    apply add_download_allowed_iff; [exact Hmode|].
    rewrite (active_count_after_finish dm dm1 u t Hfin Hin).
    destruct (mark_task_finished_total dm u t) as (dm2 & H2 & Hq & Hm & _).
    rewrite Hfin in H2. injection H2 as <-.
    unfold queued_count. rewrite Hq, Hm. fold (queued_count dm u). lia.
Qed.

(** C6 as stated fails: below the cap, a request in another mode is
    refused all the same. *)
Lemma add_download_not_only_quota :
  ~ (forall (dm : DownloadManager) (u : Z) (url mode : string),
       (add_download dm u url mode).2 = true <->
       (active_count dm u + queued_count dm u < max_concurrent dm)%Z).
Proof.
  intros H.
  specialize (H (new_manager 3) 7%Z "https://youtu.be/dQw4w9WgXcQ" "gif").
  destruct H as [_ H]. discriminate H. reflexivity.
Qed.

Example admission_at_cap_then_freed :
  let dm0 := new_manager 1 in
  let dm1 := (add_download dm0 7 "https://youtu.be/a" "video").1 in
  let dm2 := mark_task_started dm1 7 1 in
  (add_download dm2 7 "https://youtu.be/b" "audio").2 = false /\
  (dm3 ← mark_task_finished dm2 7 1;
   Some (add_download dm3 7 "https://youtu.be/b" "audio").2) = Some true.
Proof. vm_compute. split; reflexivity. Qed.

(** ** The per-requester bound *)

Lemma sum_list_with_insert {A} (f : A -> nat) (l : list A) (i : nat) (x y : A) :
  l !! i = Some x ->
  sum_list_with f (<[i := y]> l) + f x = sum_list_with f l + f y.
Proof.
  revert i. induction l as [|a l IH]; intros [|i] H; simpl in *; try discriminate.
  - injection H as ->. lia.
  - specialize (IH i H). lia.
Qed.

Lemma sum_list_with_le {A} (f : A -> nat) (l : list A) (i : nat) (x : A) :
  l !! i = Some x -> f x <= sum_list_with f l.
Proof.
  revert i. induction l as [|a l IH]; intros [|i] H; simpl in *; try discriminate.
  - injection H as ->. lia.
  - specialize (IH i H). lia.
Qed.

Lemma sum_list_with_sentinels (u : Z) (k : nat) :
  sum_list_with (wants u) (replicate k None) = 0.
Proof. induction k as [|k IH]; simpl; [reflexivity | exact IH]. Qed.

Lemma sum_list_with_waiting (u : Z) (k : nat) :
  sum_list_with (holds u) (replicate k Waiting) = 0.
Proof. induction k as [|k IH]; simpl; [reflexivity | exact IH]. Qed.

Lemma quota_inv_start (n : Z) : quota_inv n (start_system n).
Proof.
  split; simpl.
  - reflexivity.
  - intros u q H. now rewrite lookup_empty in H.
  - intros u. unfold queued_count, not_started. simpl.
    now rewrite lookup_empty, sum_list_with_waiting.
  - intros u. unfold queued_count, active_count. simpl.
    rewrite !lookup_empty. cbn [from_option id]. rewrite size_empty. lia.
Qed.

Lemma size_add_le (tasks : gset Z) (t : Z) :
  size (tasks ∪ {[ t ]}) <= size tasks + 1.
Proof.
  destruct (decide (t ∈ tasks)) as [Hin|Hnot].
  - assert (tasks ∪ {[t]} = tasks) as ->; [|lia].
    apply set_eq. intros x. rewrite elem_of_union, elem_of_singleton.
    split; [intros [Hx| ->]; assumption | now left].
  - rewrite size_union, size_singleton; [lia|].
    intros x Hx Hx'. apply elem_of_singleton in Hx' as ->. contradiction.
Qed.

Lemma quota_inv_step (n : Z) (s s' : system) :
  quota_inv n s -> step s s' -> quota_inv n s'.
Proof.
  intros [Hcap Hst Hq Hb] Hstep.
  destruct Hstep as [dm ws u url mode dm' allowed Hadd
                    | dm ws i it rest Hi Hqueue
                    | dm ws i rest Hi Hqueue
                    | dm ws i it Hi
                    | dm ws i it dm' Hi Hfin
                    | dm ws]; simpl in *.
  - (* add_download *)
    destruct allowed.
    + assert ((add_download dm u url mode).2 = true) as Hok by now rewrite Hadd.
      pose proof (add_download_allowed dm u url mode Hok) as Hall.
      assert (valid_mode mode = true) as Hmode.
      { destruct (valid_mode mode) eqn:E; [reflexivity|].
        rewrite add_download_invalid_mode in Hok by exact E. discriminate. }
      apply (add_download_allowed_iff dm u url mode Hmode) in Hok.
      rewrite Hadd in Hall. simpl in Hall.
      destruct Hall as (Hqu & Hqv & Hact & Hqueue & Hmax & Hqt).
      assert (forall v, active_count dm' v = active_count dm v) as Hav
        by (intros v; unfold active_count; now rewrite Hact).
      split; simpl.
      * now rewrite Hmax.
      * intros v q. rewrite Hqt, lookup_insert. case_decide.
        -- intros [= <-]. specialize (Hq u). lia.
        -- apply Hst.
      * intros v. unfold not_started. simpl. rewrite Hqueue.
        rewrite sum_list_with_app. simpl.
        specialize (Hq v). unfold not_started in Hq. simpl in Hq.
        destruct (decide (u = v)) as [->|Hne].
        -- rewrite Hqu. lia.
        -- rewrite Hqv by congruence. lia.
      * intros v. rewrite Hmax, Hav. specialize (Hb v).
        destruct (decide (v = u)) as [->|Hne]; [rewrite Hqu; lia|].
        now rewrite Hqv.
    + assert ((add_download dm u url mode).2 = false) as Hno by now rewrite Hadd.
      apply add_download_denied in Hno. rewrite Hadd in Hno. simpl in Hno.
      subst dm'. now split.
  - (* a worker takes an item *)
    split; simpl; try assumption.
    intros u. specialize (Hq u). unfold not_started in *. simpl in *.
    rewrite Hqueue in Hq. simpl in Hq.
    pose proof (sum_list_with_insert (holds u) ws i Waiting (Holding it) Hi) as Hs.
    simpl in Hs. unfold queued_count in *. simpl. lia.
  - (* a worker takes a sentinel *)
    split; simpl; try assumption.
    intros u. specialize (Hq u). unfold not_started in *. simpl in *.
    rewrite Hqueue in Hq. simpl in Hq.
    pose proof (sum_list_with_insert (holds u) ws i Waiting Stopped Hi) as Hs.
    simpl in Hs. unfold queued_count in *. simpl. lia.
  - (* _mark_task_started *)
    set (u0 := item_user it). set (t := item_task_id it).
    assert (1 <= queued_count dm u0)%Z as Hpos.
    { rewrite Hq. unfold not_started. simpl.
      pose proof (sum_list_with_le (holds u0) ws i (Holding it) Hi) as Hle.
      simpl in Hle. unfold u0 in Hle. rewrite decide_True in Hle by reflexivity.
      fold u0 in Hle. lia. }
    assert (forall v, queued_count (mark_task_started dm u0 t) v =
                      if decide (v = u0) then (queued_count dm u0 - 1)%Z
                      else queued_count dm v) as Hqc.
    { intros v. unfold queued_count at 1, mark_task_started. simpl.
      destruct (0 <? queued_count dm u0 - 1)%Z eqn:E.
      - rewrite lookup_insert. destruct (decide (u0 = v)) as [->|Hne].
        + now rewrite decide_True.
        + now rewrite decide_False by congruence.
      - apply Z.ltb_ge in E. rewrite lookup_delete.
        destruct (decide (u0 = v)) as [->|Hne].
        + rewrite decide_True by reflexivity. simpl. lia.
        + now rewrite decide_False by congruence. }
    assert (forall v, (active_count (mark_task_started dm u0 t) v <=
                       if decide (v = u0) then active_count dm u0 + 1
                       else active_count dm v)%Z) as Hac.
    { intros v. unfold active_count at 1, mark_task_started. simpl.
      rewrite lookup_insert. destruct (decide (u0 = v)) as [->|Hne].
      - rewrite decide_True by reflexivity. simpl. unfold active_count.
        pose proof (size_add_le (default ∅ (active_tasks dm !! v)) t). lia.
      - rewrite decide_False by congruence. unfold active_count. lia. }
    split; simpl.
    + exact Hcap.
    + intros v q. destruct (0 <? queued_count dm u0 - 1)%Z eqn:E.
      * apply Z.ltb_lt in E. rewrite lookup_insert. case_decide.
        -- intros [= <-]. exact E.
        -- apply Hst.
      * rewrite lookup_delete. case_decide; [discriminate | apply Hst].
    + intros v. rewrite Hqc. specialize (Hq v). unfold not_started in *. simpl in *.
      pose proof (sum_list_with_insert (holds v) ws i (Holding it) (Handling it) Hi)
        as Hs.
      simpl in Hs. fold u0 in Hs.
      destruct (decide (v = u0)) as [->|Hne].
      * rewrite decide_True in Hs by reflexivity. lia.
      * rewrite decide_False in Hs by congruence. lia.
    + intros v. specialize (Hb v). specialize (Hac v). rewrite Hqc.
      destruct (decide (v = u0)) as [->|Hne]; lia.
  - (* _mark_task_finished *)
    destruct (mark_task_finished_total dm (item_user it) (item_task_id it))
      as (dm2 & H2 & Hqt & Hmax & Hqueue & _ & Hother & Hmine).
    rewrite Hfin in H2. injection H2 as <-.
    assert (forall v, queued_count dm' v = queued_count dm v) as Hqc
      by (intros v; unfold queued_count; now rewrite Hqt).
    assert (forall v, (active_count dm' v <= active_count dm v)%Z) as Hac.
    { intros v. unfold active_count.
      destruct (decide (v = item_user it)) as [->|Hne].
      - rewrite Hmine. apply inj_le, subseteq_size.
        intros x Hx. now apply elem_of_difference in Hx as [Hx _].
      - now rewrite Hother. }
    split; simpl.
    + now rewrite Hmax.
    + intros v q. rewrite Hqt. apply Hst.
    + intros v. rewrite Hqc. specialize (Hq v). unfold not_started in *. simpl in *.
      rewrite Hqueue.
      pose proof (sum_list_with_insert (holds v) ws i (Handling it) Waiting Hi) as Hs.
      simpl in Hs. lia.
    + intros v. rewrite Hqc, Hmax. specialize (Hb v). specialize (Hac v). lia.
  - (* stop *)
    split; simpl; try assumption.
    intros u. specialize (Hq u). unfold not_started in *. simpl in *.
    rewrite sum_list_with_app, sum_list_with_sentinels.
    unfold queued_count in *. simpl. lia.
Qed.

Lemma reachable_quota_inv (n : Z) (s : system) : reachable n s -> quota_inv n s.
Proof.
  induction 1 as [|s s' _ IH Hstep].
  - apply quota_inv_start.
  - now apply (quota_inv_step n s s').
Qed.

(** C1.  In every state the manager can reach, whatever the order in
    which requests are let in and workers take, start and finish tasks,
    each requester's queued count and the size of its active set add up
    to at most the cap, which is the configured number of slots (at
    least one). *)
Theorem quota_bound (n : Z) (s : system) (u : Z) :
  reachable n s ->
  (queued_count (sys_dm s) u + active_count (sys_dm s) u
   <= max_concurrent (sys_dm s))%Z /\
  max_concurrent (sys_dm s) = Z.max 1 n.
Proof.
  intros H. apply reachable_quota_inv in H. split; [apply H | apply (inv_cap n s H)].
Qed.

Lemma quota_bound_witness :
  (queued_count (sys_dm sample_system) 7 + active_count (sys_dm sample_system) 7
   <= max_concurrent (sys_dm sample_system))%Z /\
  max_concurrent (sys_dm sample_system) = Z.max 1 3.
Proof.
  apply (quota_bound 3 sample_system 7).
  eapply reach_step; [eapply reach_step; [eapply reach_step; [apply reach_start|]|]|].
  - apply (step_add (new_manager 3) (replicate 3 Waiting) 7
             (item_url sample_item) "video"
             (add_download (new_manager 3) 7 (item_url sample_item) "video").1 true).
    reflexivity.
  - apply (step_get _ _ 0 sample_item []); reflexivity.
  - apply (step_start
             (set_queue (add_download (new_manager 3) 7 (item_url sample_item)
                           "video").1 [])
             (<[0 := Holding sample_item]> (replicate 3 Waiting)) 0 sample_item).
    reflexivity.
Defined.

(** ** Output-file selection *)

Lemma in_tuple_spec (x : string) (t : list string) :
  in_tuple x t = true <-> x ∈ t.
Proof.
  unfold in_tuple. rewrite existsb_exists. split.
  - intros (y & Hy & E). apply String.eqb_eq in E as ->. now apply list_elem_of_In.
  - intros H. exists x. split; [now apply list_elem_of_In | apply String.eqb_refl].
Qed.

Lemma kept_matches (allowed_ext : list string) (e : entry) :
  allowed_ext <> [] -> kept allowed_ext e = true <-> matches allowed_ext e.
Proof.
  intros Hne. unfold kept, matches.
  rewrite (bool_decide_eq_false_2 _ Hne). simpl.
  rewrite <- in_tuple_spec.
  destruct (e_is_file e); destruct (in_tuple _ _); simpl; intuition discriminate.
Qed.

Lemma max_from_spec (best : entry) (files : list entry) :
  let m := max_from best files in
  m ∈ best :: files /\
  forall g, g ∈ best :: files -> (e_mtime g <= e_mtime m)%Z.
Proof.
  revert best. induction files as [|e files IH]; intros best; simpl.
  - split; [left|].
    intros g Hg. apply list_elem_of_singleton in Hg as ->. lia.
  - destruct (IH (if (e_mtime best <? e_mtime e)%Z then e else best)) as [Hin Hmax].
    split.
    + apply elem_of_cons in Hin as [Hin|Hin].
      * rewrite Hin. destruct (_ <? _)%Z; [right; left | left].
      * right; right; exact Hin.
    + intros g Hg.
      assert (e_mtime best <= e_mtime (max_from (if (e_mtime best <? e_mtime e)%Z
                                                 then e else best) files)
              /\ e_mtime e <= e_mtime (max_from (if (e_mtime best <? e_mtime e)%Z
                                                 then e else best) files))%Z
        as [Hb He].
      { assert (e_mtime (if (e_mtime best <? e_mtime e)%Z then e else best)
                <= e_mtime (max_from (if (e_mtime best <? e_mtime e)%Z
                                      then e else best) files))%Z as H0
          by (apply Hmax; left).
        destruct (e_mtime best <? e_mtime e)%Z eqn:E;
          [apply Z.ltb_lt in E | apply Z.ltb_ge in E]; lia. }
      apply elem_of_cons in Hg as [->|Hg]; [exact Hb|].
      apply elem_of_cons in Hg as [->|Hg]; [exact He|].
      apply Hmax. now right.
Qed.

Lemma latest_of_filter (P : entry -> Prop) `{!forall e, Decision (P e)}
    (entries : list entry) (e : entry) (files : list entry) :
  filter P entries = e :: files ->
  latest_among P entries (max_from e files).
Proof.
  intros Hf. destruct (max_from_spec e files) as [Hin Hmax].
  rewrite <- Hf in Hin, Hmax.
  apply list_elem_of_filter in Hin as [HP Hin].
  split; [exact Hin|]. split; [exact HP|].
  intros g Hg HPg. apply Hmax. now apply list_elem_of_filter.
Qed.

Lemma filter_nil_none (P : entry -> Prop) `{!forall e, Decision (P e)}
    (entries : list entry) :
  filter P entries = [] <-> ~ exists g, g ∈ entries /\ P g.
Proof.
  split.
  - intros Hf (g & Hg & HP).
    assert (g ∈ filter P entries) as Hin by now apply list_elem_of_filter.
    rewrite Hf in Hin. now apply elem_of_nil in Hin.
  - intros Hno. destruct (filter P entries) as [|g l] eqn:Hf; [reflexivity|].
    exfalso. apply Hno. exists g.
    assert (g ∈ filter P entries) as Hin by (rewrite Hf; left).
    apply list_elem_of_filter in Hin as [HP Hin]. now split.
Qed.

Lemma latest_entry_matching (entries : list entry) (allowed_ext : list string) :
  allowed_ext <> [] ->
  (exists g, g ∈ entries /\ matches allowed_ext g) ->
  exists f, latest_entry entries allowed_ext = Some f /\
            latest_among (matches allowed_ext) entries f.
Proof.
  intros Hne Hex. unfold latest_entry.
  destruct (filter (fun e => kept allowed_ext e = true) entries) as [|e files] eqn:Hf.
  - exfalso. apply filter_nil_none in Hf. apply Hf.
    destruct Hex as (g & Hg & Hm). exists g. split; [exact Hg|].
    now apply kept_matches.
  - exists (max_from e files). split; [reflexivity|].
    destruct (latest_of_filter _ entries e files Hf) as (Hin & Hk & Hmax).
    split; [exact Hin|]. split; [now apply kept_matches in Hk|].
    intros g Hg Hm. apply Hmax; [exact Hg | now apply kept_matches].
Qed.

Lemma latest_entry_fallback (entries : list entry) (allowed_ext : list string) :
  allowed_ext <> [] ->
  (~ exists g, g ∈ entries /\ matches allowed_ext g) ->
  (exists g, g ∈ entries /\ e_is_file g = true) ->
  exists f, latest_entry entries allowed_ext = Some f /\
            latest_among (fun e => e_is_file e = true) entries f.
Proof.
  intros Hne Hno Hex. unfold latest_entry.
  assert (filter (fun e => kept allowed_ext e = true) entries = []) as ->.
  { apply filter_nil_none. intros (g & Hg & Hk). apply Hno. exists g.
    split; [exact Hg | now apply kept_matches in Hk]. }
  destruct (filter (fun e => e_is_file e = true) entries) as [|e files] eqn:Hf.
  - exfalso. apply filter_nil_none in Hf. now apply Hf.
  - exists (max_from e files). split; [reflexivity|].
    exact (latest_of_filter _ entries e files Hf).
Qed.

Lemma latest_entry_none (entries : list entry) (allowed_ext : list string) :
  latest_entry entries allowed_ext = None <->
  ~ exists g, g ∈ entries /\ e_is_file g = true.
Proof.
  unfold latest_entry. split.
  - intros H.
    destruct (filter (fun e => kept allowed_ext e = true) entries) eqn:Hk;
      [|discriminate].
    destruct (filter (fun e => e_is_file e = true) entries) eqn:Hf; [|discriminate].
    now apply filter_nil_none in Hf.
  - intros H.
    assert (filter (fun e => e_is_file e = true) entries = []) as Hf
      by now apply filter_nil_none.
    assert (filter (fun e => kept allowed_ext e = true) entries = []) as ->.
    { apply filter_nil_none. intros (g & Hg & Hk). apply H. exists g.
      split; [exact Hg|]. unfold kept in Hk. now destruct (e_is_file g). }
    now rewrite Hf.
Qed.

Lemma find_latest_file_listing (w : world) (dir : string) (entries : list entry)
    (allowed_ext : list string) :
  fs w !! dir = Some entries ->
  find_latest_file w dir allowed_ext =
  Ret (match latest_entry entries allowed_ext with
       | Some e => Some (dir, e_name e)
       | None => None
       end).
Proof. intros H. unfold find_latest_file. now rewrite H. Qed.

Example suffix_samples :
  suffix "clip.mp4" = ".mp4" /\ suffix "Clip.final.MP4" = ".MP4" /\
  suffix ".mp4" = EmptyString /\ suffix "clip." = EmptyString /\
  suffix "clip.mp4.part" = ".part" /\ suffix "clip" = EmptyString.
Proof. repeat split. Qed.

Example latest_entry_sample :
  latest_entry
    [ {| e_name := "a.mp4"; e_is_file := true; e_mtime := 5; e_size := 1 |};
      {| e_name := "b.part"; e_is_file := true; e_mtime := 9; e_size := 1 |};
      {| e_name := "c.MP4"; e_is_file := true; e_mtime := 7; e_size := 1 |};
      {| e_name := "d.mp4"; e_is_file := false; e_mtime := 8; e_size := 1 |} ]
    VIDEO_EXTENSIONS
  = Some {| e_name := "c.MP4"; e_is_file := true; e_mtime := 7; e_size := 1 |}.
Proof. vm_compute. reflexivity. Qed.

(** ** The engine *)

Section EngineFacts.

Context (E : env).

(** *** Local variables of [_handle_download] *)

Lemma in_world_run {A} (m : M world A) (f : frame) :
  in_world m f = ((m (the_world f)).1, with_world f (m (the_world f)).2).
Proof. unfold in_world. now destruct (m (the_world f)). Qed.

Lemma keeps_temp_dir_ret {A} (a : A) : keeps_temp_dir (ret a).
Proof. now intros f r f' [= _ <-]. Qed.

Lemma keeps_temp_dir_raise {A} (e : exn) : keeps_temp_dir (@raise frame A e).
Proof. now intros f r f' [= _ <-]. Qed.

Lemma keeps_temp_dir_get : keeps_temp_dir (@get frame).
Proof. now intros f r f' [= _ <-]. Qed.

Lemma keeps_temp_dir_bind {A B} (m : M frame A) (k : A -> M frame B) :
  keeps_temp_dir m -> (forall a, keeps_temp_dir (k a)) -> keeps_temp_dir (bind m k).
Proof.
  intros Hm Hk f r f'. unfold bind.
  destruct (m f) as [[a|e] f1] eqn:E1.
  - intros H. rewrite (Hk a f1 r f' H). exact (Hm f _ f1 E1).
  - intros [= _ <-]. exact (Hm f _ f1 E1).
Qed.

Lemma keeps_temp_dir_try_except {A} (m : M frame A) (h : exn -> M frame A) :
  keeps_temp_dir m -> (forall e, keeps_temp_dir (h e)) ->
  keeps_temp_dir (try_except m h).
Proof.
  intros Hm Hh f r f'. unfold try_except.
  destruct (m f) as [[a|e] f1] eqn:E1.
  - intros [= _ <-]. exact (Hm f _ f1 E1).
  - intros H. rewrite (Hh e f1 r f' H). exact (Hm f _ f1 E1).
Qed.

Lemma keeps_temp_dir_in_world {A} (m : M world A) : keeps_temp_dir (in_world m).
Proof. intros f r f'. rewrite in_world_run. now intros [= _ <-]. Qed.

Lemma keeps_temp_dir_set_status (st : DownloadStatus) : keeps_temp_dir (set_status st).
Proof. now intros f r f' [= _ <-]. Qed.

Lemma keeps_temp_dir_set_error_message (text : string) :
  keeps_temp_dir (set_error_message text).
Proof. now intros f r f' [= _ <-]. Qed.

Lemma keeps_temp_dir_set_status_msg : keeps_temp_dir set_status_msg.
Proof. now intros f r f' [= _ <-]. Qed.

Ltac keeps_temp_dir :=
  repeat first
    [ apply keeps_temp_dir_in_world
    | apply keeps_temp_dir_ret
    | apply keeps_temp_dir_raise
    | apply keeps_temp_dir_get
    | apply keeps_temp_dir_set_status
    | apply keeps_temp_dir_set_error_message
    | apply keeps_temp_dir_set_status_msg
    | apply keeps_temp_dir_bind; [|intros ?]
    | apply keeps_temp_dir_try_except; [|intros ?]
    | match goal with
      | |- keeps_temp_dir (if ?b then _ else _) => destruct b
      | |- keeps_temp_dir (match ?x with _ => _ end) => destruct x
      end ].

Lemma keeps_temp_dir_fetch_in (dir : string) : keeps_temp_dir (fetch_in E dir).
Proof. unfold fetch_in. keeps_temp_dir. Qed.

Lemma keeps_temp_dir_deliver (filepath : option path) :
  keeps_temp_dir (deliver_phase E filepath).
Proof. unfold deliver_phase. keeps_temp_dir. Qed.

Lemma keeps_temp_dir_except (error : exn) :
  keeps_temp_dir (handle_download_except E error).
Proof. unfold handle_download_except. keeps_temp_dir. Qed.

(** *** The workspace *)

Lemma truthy_temp_dir (base random : string) :
  truthy_str (base +:+ "/" +:+ TEMP_DIR_PREFIX +:+ random) = true.
Proof. now destruct base. Qed.

Lemma create_temp_dir_ret (w w1 : world) (dir : string) :
  create_temp_dir E w = (Ret dir, w1) ->
  truthy_str dir = true /\ isdir w dir = false /\ fs w1 !! dir = Some [].
Proof.
  unfold create_temp_dir, bind, get, log, set_listing, modify, ret, raise.
  destruct (o_mkdtemp E w) as [[base random]|e]; [|discriminate].
  destruct (isdir w _) eqn:Hd; [discriminate|].
  intros [= <- <-]. split; [apply truthy_temp_dir|]. split; [exact Hd|].
  simpl. apply lookup_insert_eq.
Qed.

(** Once [temp_dir] is set, the [try] and [except] blocks leave it set. *)
Lemma temp_dir_after_try (f0 : frame) (dir : string) (w1 : world) :
  create_temp_dir E (the_world f0) = (Ret dir, w1) ->
  temp_dir (try_except (handle_download_try E) (handle_download_except E) f0).2
  = Some dir.
Proof.
  intros Hc.
  set (f1 := {| task := task f0; status_msg := status_msg f0;
                temp_dir := Some dir; the_world := w1 |}).
  assert (try_except (handle_download_try E) (handle_download_except E) f0 =
          try_except (bind (fetch_in E dir) (deliver_phase E))
                     (handle_download_except E) f1) as ->.
  { unfold try_except, handle_download_try, fetch_phase.
    unfold bind at 1 2 3. rewrite in_world_run, Hc. reflexivity. }
  destruct (try_except _ _ f1) as [r f'] eqn:Hrun. simpl.
  assert (keeps_temp_dir (try_except (bind (fetch_in E dir) (deliver_phase E))
                                     (handle_download_except E))) as Hk.
  { apply keeps_temp_dir_try_except; [apply keeps_temp_dir_bind|].
    - apply keeps_temp_dir_fetch_in.
    - apply keeps_temp_dir_deliver.
    - apply keeps_temp_dir_except. }
  exact (Hk f1 r f' Hrun).
Qed.

(** The [finally] block: it raises nothing, and the directory is gone
    unless [rmtree] raised, which is the last thing that happened. *)
Lemma finally_cleans (f : frame) (dir : string) :
  temp_dir f = Some dir -> truthy_str dir = true ->
  exists w',
    handle_download_finally E f = (Ret tt, with_world f w') /\
    (isdir w' dir = false \/
     exists e, o_rmtree E (the_world f) dir = Some e /\
               last (trace w') = Some (EvRmtree dir (Some e))).
Proof.
  intros Hd Ht. unfold handle_download_finally, bind, get. rewrite Hd, Ht.
  unfold when. rewrite in_world_run.
  unfold cleanup_temp_dir, quietly, try_except, bind, get, when. rewrite Ht. simpl.
  destruct (isdir (the_world f) dir) eqn:Hdir.
  - unfold rmtree, bind, get, log, modify, remove_dir, raise, ret.
    destruct (o_rmtree E (the_world f) dir) as [e|] eqn:Hrm; simpl.
    + eexists. split; [reflexivity|]. right. exists e.
      split; [reflexivity|]. simpl. apply last_snoc.
    + eexists. split; [reflexivity|]. left. unfold isdir. simpl.
      now rewrite lookup_delete_eq.
  - unfold ret. simpl. exists (the_world f). split; [|now left].
    now destruct f.
Qed.

(** C9, as the code has it.  When the workspace was created, the
    [finally] block runs [cleanup_temp_dir] on it on every path out of
    [_handle_download], whatever the oracles answered on the way and
    whatever the directory holds: on return the directory is gone, unless
    [shutil.rmtree] itself raised; that exception is swallowed, it is the
    last call of the run, and the directory is left behind. *)
Theorem workspace_cleanup (f0 : frame) (dir : string) (w1 : world) :
  create_temp_dir E (the_world f0) = (Ret dir, w1) ->
  let f := (handle_download E f0).2 in
  temp_dir f = Some dir /\
  (isdir (the_world f) dir = false \/
   exists e w, o_rmtree E w dir = Some e /\
               last (trace (the_world f)) = Some (EvRmtree dir (Some e))).
Proof.
  intros Hc. pose proof (temp_dir_after_try f0 dir w1 Hc) as Ht.
  destruct (create_temp_dir_ret _ _ _ Hc) as (Htruthy & _).
  unfold handle_download, try_finally.
  destruct (try_except _ _ f0) as [r1 f1]. simpl in Ht.
  destruct (finally_cleans f1 dir Ht Htruthy) as (w' & Hfin & Hgone).
  rewrite Hfin. simpl. split; [exact Ht|].
  destruct Hgone as [Hgone | (e & Hrm & Hlast)]; [now left|].
  right. now exists e, (the_world f1).
Qed.

(** With an [rmtree] that never raises, the directory is always gone. *)
Corollary workspace_removed (f0 : frame) (dir : string) (w1 : world) :
  (forall w d, o_rmtree E w d = None) ->
  create_temp_dir E (the_world f0) = (Ret dir, w1) ->
  isdir (the_world (handle_download E f0).2) dir = false.
Proof.
  intros Hrm Hc.
  pose proof (temp_dir_after_try f0 dir w1 Hc) as Ht.
  destruct (create_temp_dir_ret _ _ _ Hc) as (Htruthy & _).
  unfold handle_download, try_finally.
  destruct (try_except _ _ f0) as [r1 f1]. simpl in Ht.
  destruct (finally_cleans f1 dir Ht Htruthy) as (w' & Hfin & Hgone).
  rewrite Hfin. simpl.
  destruct Hgone as [Hgone | (e & Hraised & _)]; [exact Hgone|].
  rewrite Hrm in Hraised. discriminate.
Qed.

End EngineFacts.

Section EngineOutcome.

Context (E : env).

Lemma finally_keeps_task (f : frame) :
  task (handle_download_finally E f).2 = task f.
Proof.
  unfold handle_download_finally, bind, get.
  destruct (temp_dir f) as [dir|]; [|reflexivity].
  unfold when. destruct (truthy_str dir); [|reflexivity].
  now rewrite in_world_run.
Qed.

Lemma try_finally_fst_task {A} (m : M frame A) (f : frame) :
  task (try_finally m (handle_download_finally E) f).2 = task (m f).2.
Proof.
  unfold try_finally. destruct (m f) as [r f1]. simpl.
  pose proof (finally_keeps_task f1) as H.
  destruct (handle_download_finally E f1) as [[[]|e] f2]; exact H.
Qed.

(** An exception out of the [try] block ends the task as failed, with
    the text of the exception as its error message. *)
Lemma raise_in_try_fails (f0 f1 : frame) (e : exn) :
  handle_download_try E f0 = (Raise e, f1) ->
  let f := (handle_download E f0).2 in
  status (task f) = FAILED /\ error_message (task f) = Some (str_of_exn e).
Proof.
  intros Htry. unfold handle_download. rewrite try_finally_fst_task.
  unfold try_except. rewrite Htry.
  unfold handle_download_except, bind, set_status, set_error_message, modify, get.
  rewrite in_world_run. simpl. now split.
Qed.

(** No file after the extraction: the task fails as not found. *)
Lemma not_found_fails (f0 f1 : frame) :
  fetch_phase E f0 = (Ret None, f1) ->
  let f := (handle_download E f0).2 in
  status (task f) = FAILED /\ error_message (task f) = Some MSG_NOT_FOUND.
Proof.
  intros Hfetch. apply (raise_in_try_fails f0 f1 (not_found_error MSG_NOT_FOUND)).
  unfold handle_download_try, bind. rewrite Hfetch. reflexivity.
Qed.

(** What [_download_with_ytdlp] returns is the selection made in the
    directory as the extraction left it. *)
Lemma download_with_ytdlp_selects (url dir : string) (is_audio : bool)
    (allowed_ext : list string) (app : bool) (w w' : world) (r : option path) :
  download_with_ytdlp E url dir is_audio allowed_ext app w = (Ret r, w') ->
  exists entries,
    fs w' !! dir = Some entries /\
    r = match latest_entry entries allowed_ext with
        | Some e => Some (dir, e_name e)
        | None => None
        end.
Proof.
  unfold download_with_ytdlp, extract_info, bind, get, set_listing, log, modify.
  destruct (o_extract E w (url, app) dir is_audio) as [entries failed].
  destruct failed as [e|]; [discriminate|]. unfold ret at 1.
  set (w1 := {| fs := _; trace := _ |}).
  assert (fs w1 !! dir = Some entries) as Hdir by apply lookup_insert_eq.
  rewrite (find_latest_file_listing w1 dir entries allowed_ext Hdir).
  intros [= <- <-]. now exists entries.
Qed.

End EngineOutcome.

(** C8.  In a workspace listing, for the extensions of either mode: if
    some file has an allowed extension (compared in lower case), the
    selection is such a file and none of them is more recent; if none
    has, and there is a file at all, the selection is a file and no file
    is more recent; if there is no file, there is no selection.
    [_find_latest_file] returns that selection for the directory,
    [_download_with_ytdlp] returns it for the directory as the extractor
    left it, and when the fetch yields no file the task ends failed with
    the not-found error. *)
Theorem find_latest_file_spec :
  (forall (is_audio : bool) (entries : list entry),
     let allowed_ext := if is_audio then AUDIO_EXTENSIONS else VIDEO_EXTENSIONS in
     ((exists g, g ∈ entries /\ matches allowed_ext g) ->
      exists f, latest_entry entries allowed_ext = Some f /\
                latest_among (matches allowed_ext) entries f) /\
     ((~ exists g, g ∈ entries /\ matches allowed_ext g) ->
      (exists g, g ∈ entries /\ e_is_file g = true) ->
      exists f, latest_entry entries allowed_ext = Some f /\
                latest_among (fun e => e_is_file e = true) entries f) /\
     ((~ exists g, g ∈ entries /\ e_is_file g = true) ->
      latest_entry entries allowed_ext = None)) /\
  (forall (w : world) (dir : string) (entries : list entry) (allowed_ext : list string),
     fs w !! dir = Some entries ->
     find_latest_file w dir allowed_ext =
     Ret (match latest_entry entries allowed_ext with
          | Some e => Some (dir, e_name e)
          | None => None
          end)) /\
  (forall (E : env) (url dir : string) (is_audio : bool) (allowed_ext : list string)
          (app : bool) (w w' : world) (r : option path),
     download_with_ytdlp E url dir is_audio allowed_ext app w = (Ret r, w') ->
     exists entries,
       fs w' !! dir = Some entries /\
       r = match latest_entry entries allowed_ext with
           | Some e => Some (dir, e_name e)
           | None => None
           end) /\
  (forall (E : env) (f0 f1 : frame),
     fetch_phase E f0 = (Ret None, f1) ->
     let f := (handle_download E f0).2 in
     status (task f) = FAILED /\ error_message (task f) = Some MSG_NOT_FOUND).
Proof.
  split; [|split; [|split]].
  - intros is_audio entries allowed_ext.
    assert (allowed_ext <> []) as Hne by (unfold allowed_ext; now destruct is_audio).
    split; [|split].
    + now apply latest_entry_matching.
    + now apply latest_entry_fallback.
    + apply latest_entry_none.
  - apply find_latest_file_listing.
  - apply download_with_ytdlp_selects.
  - apply not_found_fails.
Qed.

(** ** The workspace on sample runs *)

Lemma workspace_cleanup_witness :
  let f := (handle_download (sample_env 1024 false) sample_frame).2 in
  temp_dir f = Some sample_dir /\
  (isdir (the_world f) sample_dir = false \/
   exists e w, o_rmtree (sample_env 1024 false) w sample_dir = Some e /\
               last (trace (the_world f)) = Some (EvRmtree sample_dir (Some e))).
Proof.
  apply (workspace_cleanup (sample_env 1024 false) sample_frame sample_dir
           (create_temp_dir (sample_env 1024 false) empty_world).2).
  vm_compute. reflexivity.
Defined.

(** C9 as stated fails: when [rmtree] raises, [cleanup_temp_dir]
    swallows the exception and the task returns, completed, with its
    directory still there. *)
Lemma workspace_left_behind :
  ~ (forall (E : env) (f0 : frame) (dir : string) (w1 : world),
       create_temp_dir E (the_world f0) = (Ret dir, w1) ->
       isdir (the_world (handle_download E f0).2) dir = false).
Proof.
  intros H.
  specialize (H (sample_env 1024 true) sample_frame sample_dir
                (create_temp_dir (sample_env 1024 true) empty_world).2).
  assert (isdir (the_world (handle_download (sample_env 1024 true) sample_frame).2)
                sample_dir = true) as Hleft by (vm_compute; reflexivity).
  rewrite H in Hleft; [discriminate|]. vm_compute. reflexivity.
Qed.

Example workspace_left_behind_completed :
  let '(r, f) := handle_download (sample_env 1024 true) sample_frame in
  r = Ret tt /\ status (task f) = COMPLETED /\
  isdir (the_world f) sample_dir = true.
Proof. vm_compute. repeat split. Qed.

(** ** The fallback loop of the flaky platform *)

Section Fallback.

Context (E : env).

Lemma attempts_made_app (evs1 evs2 : list event) :
  attempts_made (evs1 ++ evs2) = attempts_made evs1 ++ attempts_made evs2.
Proof. apply omap_app. Qed.

Lemma pages_fetched_app (evs1 evs2 : list event) :
  pages_fetched (evs1 ++ evs2) = pages_fetched evs1 ++ pages_fetched evs2.
Proof. apply omap_app. Qed.

Lemma attempts_made_extract (made : list (attempt * option exn)) :
  attempts_made (map extract_event made) = made.
Proof.
  induction made as [|[a failed] made IH]; [reflexivity|].
  simpl. unfold attempts_made in *. simpl. now rewrite IH.
Qed.

Lemma pages_fetched_extract (made : list (attempt * option exn)) :
  pages_fetched (map extract_event made) = [].
Proof. induction made as [|m made IH]; [reflexivity | exact IH]. Qed.

Lemma edit_status_run (sm : bool) (text : string) (w : world) :
  exists evs,
    edit_status E sm text w = (Ret tt, {| fs := fs w; trace := trace w ++ evs |}) /\
    attempts_made evs = [] /\ pages_fetched evs = [].
Proof.
  unfold edit_status, when, quietly, try_except, chat, bind, get, log, modify,
    ret, raise.
  destruct sm.
  - exists [EvChat (EditStatus text) (o_chat E w (EditStatus text))].
    destruct (o_chat E w (EditStatus text)); simpl; now repeat split.
  - exists []. rewrite app_nil_r. destruct w; now repeat split.
Qed.

Lemma normalize_run (url : string) (w : world) :
  normalize_tiktok_url E url w =
  (Ret (o_normalize E w url),
   {| fs := fs w; trace := trace w ++ [EvNormalize url (o_normalize E w url)] |}).
Proof. reflexivity. Qed.

Lemma download_with_ytdlp_unfold (u dir : string) (is_audio : bool)
    (allowed_ext : list string) (app : bool) (w : world) :
  download_with_ytdlp E u dir is_audio allowed_ext app w =
  let '(entries, failed) := o_extract E w (u, app) dir is_audio in
  let w1 := {| fs := <[dir := entries]> (fs w);
               trace := trace w ++ [EvExtract (u, app) failed] |} in
  match failed with
  | None => (Ret (match latest_entry entries allowed_ext with
                  | Some e => Some (dir, e_name e)
                  | None => None
                  end), w1)
  | Some e => (Raise e, w1)
  end.
Proof.
  unfold download_with_ytdlp, extract_info, bind, get, set_listing, log, modify.
  destruct (o_extract E w (u, app) dir is_audio) as [entries failed].
  destruct failed as [e|]; [reflexivity|].
  unfold ret at 1. unfold find_latest_file. cbn [fs trace].
  rewrite lookup_insert_eq. reflexivity.
Qed.

(** One extractor call: one event, and the call returns exactly when
    the extractor did not raise. *)
Lemma download_with_ytdlp_run (u dir : string) (is_audio : bool)
    (allowed_ext : list string) (app : bool) (w : world) :
  exists failed,
    trace (download_with_ytdlp E u dir is_audio allowed_ext app w).2
    = trace w ++ [EvExtract (u, app) failed] /\
    match failed with
    | None => exists p,
        (download_with_ytdlp E u dir is_audio allowed_ext app w).1 = Ret p
    | Some e =>
        (download_with_ytdlp E u dir is_audio allowed_ext app w).1 = Raise e
    end.
Proof.
  rewrite download_with_ytdlp_unfold.
  destruct (o_extract E w (u, app) dir is_audio) as [entries failed].
  exists failed. destruct failed as [e|]; simpl; [now split|].
  split; [reflexivity|]. eexists. reflexivity.
Qed.

(** The last resort: it raises nothing, asks for one page, the one of
    the URL it is given, and calls no extractor. *)
Lemma html_fallback_run (u dir : string) (w : world) :
  exists d evs,
    (download_tiktok_direct_from_html E u dir w).1 = Ret d /\
    trace (download_tiktok_direct_from_html E u dir w).2 = trace w ++ evs /\
    attempts_made evs = [] /\ pages_fetched evs = [u].
Proof.
  unfold download_tiktok_direct_from_html, try_except, http_get, bind, get, log,
    modify, ret, raise.
  destruct (o_http_get E w u) as [[http_status html_content]|e] eqn:Hget.
  - simpl. destruct (negb (http_status =? 200)%Z).
    + exists None, [EvHttpGet u (Ret (http_status, html_content))]. now repeat split.
    + destruct (extract_tiktok_media_url_from_html E html_content) as [m|] eqn:Hm.
      * destruct (falsy (Some m)).
        -- exists None, [EvHttpGet u (Ret (http_status, html_content))].
           now repeat split.
        -- unfold download_file_async, bind, get, set_listing, log, modify, ret, raise.
           set (w1 := {| fs := fs w; trace := _ |}).
           set (p := (dir, _)).
           destruct (o_http_download E w1 m p) as [entries failed]. simpl.
           destruct failed as [e|].
           ++ exists None,
                [EvHttpGet u (Ret (http_status, html_content));
                 EvHttpDownload m p (Some e)].
              simpl. rewrite <- app_assoc. now repeat split.
           ++ destruct (path_exists _ p).
              ** exists (Some p),
                   [EvHttpGet u (Ret (http_status, html_content));
                    EvHttpDownload m p None].
                 simpl. rewrite <- app_assoc. now repeat split.
              ** exists None,
                   [EvHttpGet u (Ret (http_status, html_content));
                    EvHttpDownload m p None].
                 simpl. rewrite <- app_assoc. now repeat split.
      * exists None, [EvHttpGet u (Ret (http_status, html_content))].
        now repeat split.
  - simpl. exists None, [EvHttpGet u (Raise e)]. now repeat split.
Qed.

Lemma try_attempts_cons (u : string) (app : bool) (rest : list attempt)
    (dir : string) (is_audio : bool) (allowed_ext : list string)
    (last_error : option exn) (w : world) :
  try_attempts E ((u, app) :: rest) dir is_audio allowed_ext last_error w =
  match download_with_ytdlp E u dir is_audio allowed_ext app w with
  | (Ret r, w1) => (Ret (Returned r), w1)
  | (Raise e, w1) =>
      if is_tiktok_extraction_error e
      then try_attempts E rest dir is_audio allowed_ext (Some e) w1
      else (Raise e, w1)
  end.
Proof.
  cbn [try_attempts]. unfold try_except, bind.
  destruct (download_with_ytdlp E u dir is_audio allowed_ext app w) as [[r|e] w1];
    [reflexivity|].
  now destruct (is_tiktok_extraction_error e).
Qed.

(** What the loop over the plan does, read off its trace. *)
Lemma try_attempts_run (attempts : list attempt) (dir : string) (is_audio : bool)
    (allowed_ext : list string) (last_error : option exn) (w : world) :
  exists made : list (attempt * option exn),
    trace (try_attempts E attempts dir is_audio allowed_ext last_error w).2
    = trace w ++ map extract_event made /\
    made.*1 = take (length made) attempts /\
    (forall i m, made !! i = Some m -> S i < length made -> recoverable m.2 = true) /\
    match (try_attempts E attempts dir is_audio allowed_ext last_error w).1 with
    | Ret (Returned p) => exists a, last made = Some (a, None)
    | Raise e =>
        exists a, last made = Some (a, Some e) /\
                  is_tiktok_extraction_error e = false
    | Ret (Fell_through le) =>
        length made = length attempts /\
        match last made with
        | Some (_, failed) => recoverable failed = true /\ le = failed
        | None => le = last_error /\ attempts = []
        end
    end.
Proof.
  revert last_error w.
  induction attempts as [|[u app] rest IH]; intros last_error w.
  - exists []. simpl. rewrite app_nil_r. repeat split.
    intros i m H. now rewrite lookup_nil in H.
  - rewrite try_attempts_cons.
    destruct (download_with_ytdlp_run u dir is_audio allowed_ext app w)
      as (failed & Htr & Hres).
    destruct (download_with_ytdlp E u dir is_audio allowed_ext app w) as [r1 w1].
    simpl in Htr, Hres. destruct failed as [e|].
    + subst r1. destruct (is_tiktok_extraction_error e) eqn:Hrec.
      * destruct (IH (Some e) w1) as (made & Htr' & Hord & Hnext & Hend).
        exists (((u, app), Some e) :: made). split; [|split; [|split]].
        -- rewrite Htr', Htr, <- app_assoc. reflexivity.
        -- change ((u, app) :: made.*1 = (u, app) :: take (length made) rest).
           f_equal. exact Hord.
        -- intros [|i] m Hm Hlt; simpl in Hm.
           ++ injection Hm as <-. exact Hrec.
           ++ apply (Hnext i m Hm). simpl in Hlt. lia.
        -- destruct made as [|m0 made].
           ++ simpl in Hend |- *.
              destruct (try_attempts E rest dir is_audio allowed_ext (Some e) w1).1
                as [[p|le]|e'].
              ** destruct Hend as (a & Ha). discriminate.
              ** destruct Hend as (Hlen & -> & ->). simpl. now repeat split.
              ** destruct Hend as (a & Ha & _). discriminate.
           ++ rewrite last_cons_cons.
              destruct (try_attempts E rest dir is_audio allowed_ext (Some e) w1).1
                as [[p|le]|e']; try exact Hend.
              destruct Hend as (Hlen & Hlast). split; [simpl in *; lia|].
              destruct (last (m0 :: made)) as [[a0 failed]|] eqn:Hl; [exact Hlast|].
              apply last_None in Hl. discriminate.
      * exists [((u, app), Some e)]. simpl. repeat split.
        -- exact Htr.
        -- intros [|i] m Hm Hlt; simpl in *; lia.
        -- now exists (u, app).
    + destruct Hres as (p & ->). simpl.
      exists [((u, app), None)]. repeat split.
      * exact Htr.
      * intros [|i] m Hm Hlt; simpl in *; lia.
      * now exists (u, app).
Qed.

End Fallback.

Section FallbackSpec.

Context (E : env).

(** [_download_content] on a URL of the flaky platform, step by step. *)
Lemma download_content_tiktok (url dir mode : string) (sm : bool) (w : world) :
  detect_platform (direct_file_re E) url = TIKTOK ->
  download_content E url dir mode sm w =
  let w0 := (edit_status E sm "Скачиваю медиа..." w).2 in
  let normalized := o_normalize E w0 url in
  let w1 := {| fs := fs w0; trace := trace w0 ++ [EvNormalize url normalized] |} in
  let download_url := download_url_of url normalized in
  let is_audio := bool_decide (mode = AUDIO) in
  let allowed_ext := if is_audio then AUDIO_EXTENSIONS else VIDEO_EXTENSIONS in
  match try_attempts E (build_tiktok_attempt_plan download_url) dir is_audio
          allowed_ext None w1 with
  | (Ret (Returned r), w2) => (Ret r, w2)
  | (Raise e, w2) => (Raise e, w2)
  | (Ret (Fell_through last_error), w2) =>
      let '(d, w3) :=
        if is_audio then (Ret None, w2)
        else download_tiktok_direct_from_html E download_url dir w2 in
      match d with
      | Ret (Some f) => (Ret (Some f), w3)
      | Ret None =>
          match last_error with
          | Some e => (Raise e, w3)
          | None => (Ret None, w3)
          end
      | Raise e => (Raise e, w3)
      end
  end.
Proof.
  intros Hplat. unfold download_content. rewrite Hplat.
  destruct (edit_status_run E sm "Скачиваю медиа..." w) as (evs0 & He & _).
  unfold bind at 1. rewrite He. cbn [snd].
  unfold bind at 1. rewrite normalize_run.
  set (w0 := {| fs := fs w; trace := trace w ++ evs0 |}).
  set (normalized := o_normalize E w0 url).
  assert (match normalized with
          | Some n => if falsy normalized then url else n
          | None => url
          end = download_url_of url normalized) as -> by reflexivity.
  cbn zeta. cbn [fs trace].
  unfold bind at 1.
  destruct (try_attempts E _ dir _ _ None _) as [[[r|le]|e] w2]; try reflexivity.
  unfold bind at 1.
  destruct (bool_decide (mode = AUDIO)); cbn [negb].
  - unfold ret at 1. now destruct le.
  - destruct (download_tiktok_direct_from_html E _ dir w2) as [[[f|]|e] w3];
      try reflexivity.
    now destruct le.
Qed.

End FallbackSpec.

Lemma detect_platform_nonempty (re : string -> bool) (url : string) :
  detect_platform re url = TIKTOK -> url <> EmptyString.
Proof. intros H ->. discriminate. Qed.

Lemma download_url_nonempty (url : string) (normalized : option string) :
  url <> EmptyString -> download_url_of url normalized <> EmptyString.
Proof.
  intros Hu. unfold download_url_of.
  destruct normalized as [[|c n]|]; simpl; congruence.
Qed.

Lemma plan_nonempty (u : string) :
  u <> EmptyString -> build_tiktok_attempt_plan u <> [].
Proof.
  intros Hu. rewrite build_tiktok_attempt_plan_cases. unfold plan_by_cases.
  destruct u as [|c u]; [congruence|].
  destruct (canonicalize_tiktok_video_url _); [case_decide|]; discriminate.
Qed.

Lemma valid_mode_cases (mode : string) :
  valid_mode mode = true -> mode = VIDEO \/ mode = AUDIO.
Proof.
  unfold valid_mode. intros H. apply orb_prop in H as [H|H];
    apply bool_decide_eq_true in H; auto.
Qed.

(** C3.  A fetch from the flaky platform, in video or audio mode,
    follows the fallback protocol, whatever the extractor, the network
    and the chat answer: the candidates of the attempt plan are tried in
    order and the first success ends the fetch; the next candidate is
    tried only after a failure the classifier marks recoverable, and a
    failure that is not recoverable is raised at once, with no further
    candidate and no page fetched; when every candidate has failed
    recoverably, the page is fetched as a last resort in video mode only,
    and when that yields no file, or in audio mode, the last recorded
    error is raised. *)
Theorem tiktok_fetch_spec (E : env) (url dir mode : string) (sm : bool) (w : world) :
  detect_platform (direct_file_re E) url = TIKTOK ->
  valid_mode mode = true ->
  fallback_protocol E url dir mode
    (download_content E url dir mode sm w).1 w
    (download_content E url dir mode sm w).2.
Proof.
  intros Hplat Hmode.
  rewrite (download_content_tiktok E url dir mode sm w Hplat).
  destruct (edit_status_run E sm "Скачиваю медиа..." w) as (evs0 & He & Ha0 & Hp0).
  rewrite He. cbn [snd fs trace]. cbn zeta.
  set (w0 := {| fs := fs w; trace := trace w ++ evs0 |}).
  set (normalized := o_normalize E w0 url).
  set (download_url := download_url_of url normalized).
  set (is_audio := bool_decide (mode = AUDIO)).
  set (allowed_ext := if is_audio then AUDIO_EXTENSIONS else VIDEO_EXTENSIONS).
  set (w1 := {| fs := fs w; trace := _ |}).
  set (plan := build_tiktok_attempt_plan download_url).
  assert (plan <> []) as Hplan.
  { apply plan_nonempty, download_url_nonempty.
    exact (detect_platform_nonempty _ _ Hplat). }
  destruct (try_attempts_run E plan dir is_audio allowed_ext None w1)
    as (made & Htr & Hord & Hnext & Hend).
  destruct (try_attempts E plan dir is_audio allowed_ext None w1) as [r2 w2].
  cbn [fst snd] in Htr, Hend.
  assert (trace w2 = trace w ++ (evs0 ++ [EvNormalize url normalized]
                                 ++ map extract_event made)) as Htr2.
  { rewrite Htr. unfold w1. cbn [trace]. now rewrite <- !app_assoc. }
  assert (attempts_made (evs0 ++ [EvNormalize url normalized]
                         ++ map extract_event made) = made) as Hmade.
  { rewrite !attempts_made_app, Ha0, attempts_made_extract. reflexivity. }
  assert (pages_fetched (evs0 ++ [EvNormalize url normalized]
                         ++ map extract_event made) = []) as Hpages.
  { rewrite !pages_fetched_app, Hp0, pages_fetched_extract. reflexivity. }
  assert (EvNormalize url normalized
          ∈ evs0 ++ [EvNormalize url normalized] ++ map extract_event made) as Hin.
  { apply elem_of_app. right. left. }
  destruct r2 as [[p|le]|e].
  - (* the loop returned *)
    destruct Hend as (a & Hlast).
    exists normalized, (evs0 ++ [EvNormalize url normalized] ++ map extract_event made).
    cbn zeta. rewrite Hmade, Hlast. cbn [fst snd].
    repeat split; try assumption. now exists p.
  - (* every candidate failed with a recoverable error *)
    destruct Hend as (Hlen & Hlast).
    destruct (last made) as [[a failed]|] eqn:Hl.
    2: { destruct Hlast as [_ Hnil]. contradiction. }
    destruct Hlast as [Hrec ->]. destruct failed as [e|]; [|discriminate].
    simpl in Hrec.
    destruct (valid_mode_cases mode Hmode) as [Hv|Ha].
    + (* video: the last resort *)
      assert (is_audio = false) as -> by (unfold is_audio; now subst mode).
      destruct (html_fallback_run E download_url dir w2)
        as (d & evs3 & Hd & Htr3 & Ha3 & Hp3).
      destruct (download_tiktok_direct_from_html E download_url dir w2)
        as [r3 w3] eqn:Hhtml.
      cbn [fst snd] in Hd, Htr3. subst r3.
      exists normalized,
        ((evs0 ++ [EvNormalize url normalized] ++ map extract_event made) ++ evs3).
      cbn zeta.
      rewrite attempts_made_app, Hmade, Ha3, app_nil_r, Hl, Hrec.
      rewrite pages_fetched_app, Hpages, Hp3.
      rewrite (bool_decide_eq_true_2 _ Hv).
      assert (trace (match d with
                     | Some f => (Ret (Some f), w3)
                     | None => (@Raise (option path) e, w3)
                     end).2 = trace w3) as -> by now destruct d.
      split; [rewrite Htr3, Htr2; now rewrite <- !app_assoc|].
      split; [apply elem_of_app; now left|].
      split; [exact Hord|]. split; [exact Hnext|]. split; [exact Hlen|].
      split; [reflexivity|].
      exists w2, d. split; [now destruct d | now destruct d].
    + (* audio: no last resort *)
      assert (is_audio = true) as -> by (unfold is_audio; now subst mode).
      exists normalized, (evs0 ++ [EvNormalize url normalized] ++ map extract_event made).
      cbn zeta. rewrite Hmade, Hl, Hrec, Hpages.
      assert (bool_decide (mode = VIDEO) = false) as ->
        by (subst mode; reflexivity).
      cbn [fst snd]. now repeat split.
  - (* an error that is not recoverable *)
    destruct Hend as (a & Hlast & Hrec).
    exists normalized, (evs0 ++ [EvNormalize url normalized] ++ map extract_event made).
    cbn zeta. rewrite Hmade, Hlast, Hrec. cbn [fst snd].
    now repeat split.
Qed.

Lemma tiktok_fetch_witness :
  fallback_protocol (flaky_env 3) tiktok_url sample_dir "video"
    (download_content (flaky_env 3) tiktok_url sample_dir "video" true empty_world).1
    empty_world
    (download_content (flaky_env 3) tiktok_url sample_dir "video" true empty_world).2.
Proof.
  apply (tiktok_fetch_spec (flaky_env 3) tiktok_url sample_dir "video" true
           empty_world).
  - vm_compute. reflexivity.
  - vm_compute. reflexivity.
Defined.

(** Three recoverable failures, then the fourth candidate succeeds. *)
Example fourth_candidate_succeeds :
  let '(r, w') :=
    download_content (flaky_env 3) tiktok_url sample_dir "video" true empty_world in
  r = Ret (Some (sample_dir, "clip_12345.mp4")) /\
  (attempts_made (trace w')).*1 = build_tiktok_attempt_plan tiktok_url /\
  pages_fetched (trace w') = [].
Proof. vm_compute. repeat split. Qed.

(** Four recoverable failures and a page without a media URL: the last
    error is raised, and the task fails with the message for the
    extraction outage. *)
Example all_candidates_fail :
  let '(r, w') :=
    download_content (flaky_env 4) tiktok_url sample_dir "video" true empty_world in
  r = Raise {| exn_cls := Foreign "DownloadError";
               exn_text := "ERROR: [TikTok] 12345: Unable to extract webpage video data" |} /\
  length (attempts_made (trace w')) = 4 /\
  pages_fetched (trace w') = [tiktok_url].
Proof. vm_compute. repeat split. Qed.

Example all_candidates_fail_audio :
  let '(r, w') :=
    download_content (flaky_env 4) tiktok_url sample_dir "audio" true empty_world in
  length (attempts_made (trace w')) = 4 /\ pages_fetched (trace w') = [].
Proof. vm_compute. repeat split. Qed.

Example extraction_outage_reported :
  let f := (handle_download (flaky_env 4)
              (new_frame 1 7 tiktok_url "video" empty_world)).2 in
  status (task f) = FAILED /\ reports (trace (the_world f)) = [MSG_TIKTOK_DATA].
Proof. vm_compute. repeat split. Qed.

(** ** The size gate *)

Section SizeGate.

Context (E : env).

(** The test of the gate, on the size in bytes. *)
Lemma size_gate_test (w : world) (p : path) (e : entry) :
  lookup_file w p = Some e ->
  Qgt_bool (get_file_size_mb w p) (inject_Z (MAX_FILE_SIZE_MB E)) = true <->
  (MAX_FILE_SIZE_MB E * 1048576 < e_size e)%Z.
Proof.
  intros H. unfold Qgt_bool, get_file_size_mb. rewrite H.
  rewrite negb_true_iff. rewrite <- not_true_iff_false, Qle_bool_iff.
  unfold Qle. simpl. lia.
Qed.

Lemma sends_app (evs1 evs2 : list event) :
  sends (evs1 ++ evs2) = sends evs1 ++ sends evs2.
Proof. apply omap_app. Qed.

Lemma reports_app (evs1 evs2 : list event) :
  reports (evs1 ++ evs2) = reports evs1 ++ reports evs2.
Proof. apply omap_app. Qed.

Lemma edit_status_quiet (sm : bool) (text : string) (w : world) :
  exists evs,
    edit_status E sm text w = (Ret tt, {| fs := fs w; trace := trace w ++ evs |}) /\
    sends evs = [] /\ reports evs = [].
Proof.
  unfold edit_status, when, quietly, try_except, chat, bind, get, log, modify,
    ret, raise.
  destruct sm.
  - exists [EvChat (EditStatus text) (o_chat E w (EditStatus text))].
    destruct (o_chat E w (EditStatus text)); simpl; now repeat split.
  - exists []. rewrite app_nil_r. destruct w; now repeat split.
Qed.

(** The report of a failure: no delivery call, one message. *)
Lemma handle_download_error_trace (error : exn) (sm : bool) (w : world) :
  exists evs,
    trace (handle_download_error E error sm w).2 = trace w ++ evs /\
    sends evs = [] /\ reports evs = [to_user_message error].
Proof.
  unfold handle_download_error. unfold bind at 1.
  destruct (edit_status_quiet sm "Ошибка при загрузке." w) as (evs0 & He & Hs0 & Hr0).
  rewrite He. unfold chat, bind, get, log, modify, ret, raise. cbn [fs trace].
  set (w0 := {| fs := fs w; trace := trace w ++ evs0 |}).
  exists (evs0 ++ [EvChat (Report (to_user_message error))
                     (o_chat E w0 (Report (to_user_message error)))]).
  rewrite sends_app, reports_app, Hs0, Hr0.
  destruct (o_chat E w0 (Report (to_user_message error)));
    cbn [snd trace]; rewrite <- app_assoc; now repeat split.
Qed.

(** The [finally] block: neither a delivery call nor a message. *)
Lemma finally_trace (f : frame) :
  exists evs,
    trace (the_world (handle_download_finally E f).2) = trace (the_world f) ++ evs /\
    sends evs = [] /\ reports evs = [].
Proof.
  unfold handle_download_finally, bind, get.
  destruct (temp_dir f) as [dir|]; [|exists []; now rewrite app_nil_r].
  unfold when. destruct (truthy_str dir); [|exists []; now rewrite app_nil_r].
  rewrite in_world_run. cbn [snd the_world with_world].
  unfold cleanup_temp_dir, quietly, try_except, bind, get, when.
  destruct (truthy_str dir && isdir (the_world f) dir);
    [|exists []; now rewrite app_nil_r].
  unfold rmtree, bind, get, log, modify, remove_dir, raise, ret.
  exists [EvRmtree dir (o_rmtree E (the_world f) dir)].
  now destruct (o_rmtree E (the_world f) dir).
Qed.

(** From an exception out of the [try] block to the end of the task:
    the task is failed, nothing is delivered, and the one message shown
    is the error manager's message for that exception. *)
Lemma raise_in_try_reports (f0 f1 : frame) (e : exn) :
  handle_download_try E f0 = (Raise e, f1) ->
  let f := (handle_download E f0).2 in
  status (task f) = FAILED /\
  error_message (task f) = Some (str_of_exn e) /\
  exists evs,
    trace (the_world f) = trace (the_world f1) ++ evs /\
    sends evs = [] /\ reports evs = [to_user_message e].
Proof.
  intros Htry.
  destruct (raise_in_try_fails E f0 f1 e Htry) as [Hst Hmsg].
  split; [exact Hst|]. split; [exact Hmsg|].
  unfold handle_download, try_finally, try_except. rewrite Htry.
  unfold handle_download_except, bind, set_status, set_error_message, modify, get.
  rewrite in_world_run. cbn [status_msg the_world].
  destruct (handle_download_error_trace e (status_msg f1) (the_world f1))
    as (evs1 & Ht1 & Hs1 & Hr1).
  set (f2 := with_world _ _).
  assert (trace (the_world f2) = trace (the_world f1) ++ evs1) as Ht2 by exact Ht1.
  destruct (finally_trace f2) as (evs2 & Ht3 & Hs2 & Hr2).
  exists (evs1 ++ evs2). rewrite sends_app, reports_app, Hs1, Hs2, Hr1, Hr2.
  split; [|now split].
  destruct (handle_download_error E e (status_msg f1) (the_world f1)).1 as [[]|e'];
    destruct (handle_download_finally E f2) as [[[]|e''] f3];
    cbn [snd] in *; rewrite Ht3, Ht2; now rewrite <- app_assoc.
Qed.

(** A selected file over the ceiling: the task fails, no delivery call
    follows the selection, and the one message shown is the error
    manager's message for the gate's own exception. *)
Lemma size_gate_fails (f0 f1 : frame) (p : path) (e : entry) :
  fetch_phase E f0 = (Ret (Some p), f1) ->
  lookup_file (the_world f1) p = Some e ->
  (MAX_FILE_SIZE_MB E * 1048576 < e_size e)%Z ->
  let f := (handle_download E f0).2 in
  status (task f) = FAILED /\
  error_message (task f) = Some (MSG_OVER_LIMIT (MAX_FILE_SIZE_MB E)) /\
  exists evs,
    trace (the_world f) = trace (the_world f1) ++ evs /\
    sends evs = [] /\ reports evs = [to_user_message (over_limit_error E)].
Proof.
  intros Hfetch Hfile Hsize.
  apply (raise_in_try_reports f0 f1 (over_limit_error E)).
  unfold handle_download_try, bind at 1. rewrite Hfetch.
  unfold deliver_phase, bind, get, path_exists. rewrite Hfile. cbn [negb].
  apply (size_gate_test (the_world f1) p e Hfile) in Hsize. now rewrite Hsize.
Qed.

End SizeGate.

(** At the default ceiling the gate's exception gets the generic message. *)
Example over_limit_message :
  to_user_message (over_limit_error (sample_env 0 false))
  = MSG_GENERIC "Файл больше лимита Telegram (2048 МБ)."
  /\ to_user_message (over_limit_error (sample_env 0 false)) <> MSG_TOO_LARGE.
Proof. vm_compute. split; [reflexivity | discriminate]. Qed.

(** What the error manager does call too large. *)
Example too_large_messages :
  to_user_message {| exn_cls := Foreign "DownloadError";
                     exn_text := "File is too large" |} = MSG_TOO_LARGE /\
  to_user_message {| exn_cls := ValueError;
                     exn_text := "Размер файла превышает лимит" |} = MSG_TOO_LARGE /\
  to_user_message {| exn_cls := Foreign "DownloadError";
                     exn_text := "File is larger than max_filesize" |} = MSG_TOO_LARGE.
Proof. vm_compute. repeat split. Qed.

(** C2 at a file of 3 GiB under the default ceiling of 2048 MB: the task
    fails and nothing is sent, but the message shown to the requester is
    the generic one, not the one the error manager has for files that are
    too large. *)
Theorem size_gate_reports_generic :
  let '(r, f) :=
    handle_download (sample_env (3 * 1024 * 1024 * 1024) false) sample_frame in
  status (task f) = FAILED /\
  error_message (task f) = Some "Файл больше лимита Telegram (2048 МБ)." /\
  sends (trace (the_world f)) = [] /\
  reports (trace (the_world f)) =
    [MSG_GENERIC "Файл больше лимита Telegram (2048 МБ)."] /\
  reports (trace (the_world f)) <> [MSG_TOO_LARGE].
Proof. vm_compute. repeat split. discriminate. Qed.

(** No file after an extraction that raised nothing: the task fails as
    not found. *)
Example nothing_extracted :
  let E :=
    {| MAX_FILE_SIZE_MB := 2048;
       direct_file_re := fun _ => false;
       urlparse_path := fun _ => Ret EmptyString;
       extract_tiktok_media_url_from_html := fun _ => None;
       time_stamp := fun _ => "0";
       o_mkdtemp := fun _ => Ret ("/tmp", "k3x9");
       o_disk_space := fun _ _ => true;
       o_chat := fun _ _ => None;
       o_normalize := fun _ _ => None;
       o_extract := fun _ _ _ _ => ([], None);
       o_http_get := fun _ _ => Ret (200%Z, "<html></html>");
       o_http_download := fun _ _ _ => ([], None);
       o_rmtree := fun _ _ => None |} in
  let '(r, f) := handle_download E sample_frame in
  r = Ret tt /\ status (task f) = FAILED /\
  error_message (task f) = Some MSG_NOT_FOUND /\
  sends (trace (the_world f)) = [] /\
  isdir (the_world f) sample_dir = false.
Proof. vm_compute. repeat split. Qed.

(** A requester with nothing running submits one task: it is let in and
    queued; a worker takes it and starts it; it finishes. *)
Example one_task_through_the_quota :
  let dm0 := new_manager 3 in
  let dm1 := (add_download dm0 7 "https://youtu.be/dQw4w9WgXcQ" "video").1 in
  let dm2 := mark_task_started (set_queue dm1 []) 7 1 in
  (add_download dm0 7 "https://youtu.be/dQw4w9WgXcQ" "video").2 = true /\
  queued_count dm1 7 = 1%Z /\ active_count dm1 7 = 0%Z /\
  queued_count dm2 7 = 0%Z /\ active_tasks dm2 !! 7%Z = Some {[ 1%Z ]} /\
  queued_tasks dm2 = ∅ /\
  (dm3 ← mark_task_finished dm2 7 1; Some (active_tasks dm3, processing dm3))
  = Some (∅, 0%Z).
Proof. vm_compute. repeat split. Qed.

(** ** The worker pool *)

Lemma omap_cons_case {A B} (f : A -> option B) (x : A) (l : list A) :
  omap f (x :: l) = from_option (fun b => [b]) [] (f x) ++ omap f l.
Proof. simpl. now destruct (f x). Qed.

Lemma omap_at {A B} (f : A -> option B) (l : list A) (i : nat) (x : A) :
  l !! i = Some x ->
  omap f l = omap f (take i l) ++ from_option (fun b => [b]) [] (f x)
             ++ omap f (drop (S i) l).
Proof.
  intros H. rewrite <- (take_drop_middle l i x H) at 1.
  now rewrite omap_app, omap_cons_case.
Qed.

Lemma omap_insert_at {A B} (f : A -> option B) (l : list A) (i : nat) (x y : A) :
  l !! i = Some x ->
  omap f (<[i := y]> l) = omap f (take i l) ++ from_option (fun b => [b]) [] (f y)
                          ++ omap f (drop (S i) l).
Proof.
  intros H. rewrite insert_take_drop by (eapply lookup_lt_Some; eassumption).
  now rewrite omap_app, omap_cons_case.
Qed.

Lemma omap_sentinels {A} (k : nat) : omap id (replicate k (@None A)) = [].
Proof. induction k as [|k IH]; [reflexivity | exact IH]. Qed.

Lemma omap_length_le {A B} (f : A -> option B) (l : list A) :
  length (omap f l) <= length l.
Proof.
  induction l as [|x l IH]; [simpl; lia|].
  rewrite omap_cons_case, length_app. destruct (f x); simpl; lia.
Qed.

Lemma running_in_hand (l : list worker) (it : queue_item) :
  it ∈ omap running l -> it ∈ omap in_hand l.
Proof.
  rewrite !list_elem_of_omap. intros (w & Hw & Hr). exists w. split; [exact Hw|].
  destruct w; try discriminate. exact Hr.
Qed.

Lemma ascending_snoc (l : list Z) (y : Z) :
  ascending l -> Forall (fun x => (x < y)%Z) l -> ascending (l ++ [y]).
Proof.
  induction l as [|x l IH]; simpl.
  - intros _ _. split; [constructor | exact I].
  - intros [Hx Hl] Hy. apply Forall_cons in Hy as [Hxy Hy]. split.
    + apply Forall_app. split; [exact Hx | now constructor].
    + now apply IH.
Qed.

Lemma add_download_fields (dm dm' : DownloadManager) (u : Z) (url mode : string) :
  add_download dm u url mode = (dm', true) ->
  valid_mode mode = true /\
  processing dm' = processing dm /\
  task_counter dm' = (task_counter dm + 1)%Z /\
  active_tasks dm' = active_tasks dm /\
  queue dm' = queue dm ++
              [Some {| item_task_id := (task_counter dm + 1)%Z; item_user := u;
                       item_url := url; item_mode := mode |}].
Proof.
  unfold add_download. destruct (valid_mode mode); [|discriminate]. simpl.
  destruct (_ <=? _)%Z; [discriminate|]. intros [= <-]. now repeat split.
Qed.

Lemma mark_task_finished_fields (dm dm' : DownloadManager) (u t : Z) :
  mark_task_finished dm u t = Some dm' ->
  task_counter dm' = task_counter dm /\
  processing dm' = (if (0 <? processing dm)%Z then processing dm - 1
                    else processing dm)%Z.
Proof.
  unfold mark_task_finished.
  destruct (active_tasks dm !! u) as [tasks|]; simpl.
  - destruct (truthy_set tasks && bool_decide (t ∈ tasks)); simpl.
    + destruct (set_remove tasks t); simpl; [|discriminate].
      intros [= <-]. now split.
    + intros [= <-]. now split.
  - intros [= <-]. now split.
Qed.

(** *** No empty set is stored, whatever is called *)

Lemma no_empty_set_new (n : Z) : no_empty_set (new_manager n).
Proof. intros u tasks H. simpl in H. now rewrite lookup_empty in H. Qed.

Lemma no_empty_set_add (dm : DownloadManager) (u : Z) (url mode : string) :
  no_empty_set dm -> no_empty_set (add_download dm u url mode).1.
Proof.
  intros H. unfold add_download. destruct (negb (valid_mode mode)); [exact H|].
  destruct (_ <=? _)%Z; exact H.
Qed.

Lemma no_empty_set_started (dm : DownloadManager) (u t : Z) :
  no_empty_set dm -> no_empty_set (mark_task_started dm u t).
Proof.
  intros H v tasks. unfold mark_task_started. simpl.
  rewrite lookup_insert. case_decide.
  - intros [= <-] He.
    assert (t ∈ (∅ : gset Z)) as Hin
      by (rewrite <- He; apply elem_of_union_r; now apply elem_of_singleton).
    now apply elem_of_empty in Hin.
  - apply H.
Qed.

Lemma no_empty_set_finished (dm dm' : DownloadManager) (u t : Z) :
  mark_task_finished dm u t = Some dm' -> no_empty_set dm -> no_empty_set dm'.
Proof.
  unfold mark_task_finished. intros Hfin H.
  destruct (active_tasks dm !! u) as [tasks|] eqn:Ha; simpl in Hfin.
  - destruct (truthy_set tasks && bool_decide (t ∈ tasks)); simpl in Hfin.
    + destruct (set_remove tasks t) as [tasks'|]; simpl in Hfin; [|discriminate].
      injection Hfin as <-. intros v S. simpl.
      destruct (truthy_set tasks') eqn:Ht.
      * rewrite lookup_insert. case_decide.
        -- intros [= <-]. unfold truthy_set in Ht.
           now apply bool_decide_eq_true in Ht.
        -- apply H.
      * rewrite lookup_delete. case_decide; [discriminate | apply H].
    + injection Hfin as <-. exact H.
  - injection Hfin as <-. exact H.
Qed.

Lemma run_calls_no_empty_set (cs : list call) (dm dm' : DownloadManager) :
  run_calls dm cs = Some dm' -> no_empty_set dm -> no_empty_set dm'.
Proof.
  revert dm. induction cs as [|c cs IH]; intros dm; simpl.
  - now intros [= <-].
  - destruct c as [u url mode | u t | u t]; simpl.
    + intros Hrun H. apply (IH _ Hrun). now apply no_empty_set_add.
    + intros Hrun H. apply (IH _ Hrun). now apply no_empty_set_started.
    + destruct (mark_task_finished dm u t) as [dm1|] eqn:Hfin; simpl; [|discriminate].
      intros Hrun H. apply (IH _ Hrun). now apply (no_empty_set_finished dm dm1 u t).
Qed.

(** X1.  Whatever calls are made on a new manager, with whatever
    arguments and in whatever order, a requester is reported to have no
    download exactly when neither map has an entry for it: no empty
    active set and no zero count is left behind. *)
Theorem no_tombstones (n : Z) (cs : list call) :
  exists dm,
    run_calls (new_manager n) cs = Some dm /\
    forall u,
      get_user_active_downloads dm u = 0%Z <->
      active_tasks dm !! u = None /\ queued_tasks dm !! u = None.
Proof.
  destruct (run_calls_sane cs (new_manager n) (new_manager_sane n))
    as (dm & Hrun & _ & Hq).
  pose proof (run_calls_no_empty_set cs _ dm Hrun (no_empty_set_new n)) as Ha.
  exists dm. split; [exact Hrun|]. intros u.
  unfold get_user_active_downloads, active_count, queued_count. split.
  - intros H0.
    destruct (active_tasks dm !! u) as [tasks|] eqn:Hau;
      destruct (queued_tasks dm !! u) as [q|] eqn:Hqu;
      cbn [from_option id] in H0; rewrite ?size_empty in H0.
    + specialize (Hq u q Hqu). lia.
    + exfalso. apply (Ha u tasks Hau). apply leibniz_equiv, size_empty_inv. lia.
    + specialize (Hq u q Hqu). lia.
    + now split.
  - intros [-> ->]. cbn [from_option id]. now rewrite size_empty.
Qed.

(** *** The invariant of the pool *)

Lemma pool_inv_start (n : Z) : pool_inv n (start_system n).
Proof.
  assert (forall k, omap in_hand (replicate k Waiting) = []) as Hh
    by (induction k as [|k IH]; [reflexivity | exact IH]).
  assert (forall k, omap running (replicate k Waiting) = []) as Hr
    by (induction k as [|k IH]; [reflexivity | exact IH]).
  split; unfold live_tasks, running_tasks, waiting_tasks; simpl;
    rewrite ?Hh, ?Hr; simpl.
  - apply length_replicate.
  - reflexivity.
  - lia.
  - constructor.
  - constructor.
  - exact I.
  - intros u. now rewrite lookup_empty.
  - apply no_empty_set_new.
Qed.

Lemma well_made_mono (dm dm' : DownloadManager) (l : list queue_item) :
  (task_counter dm <= task_counter dm')%Z ->
  Forall (well_made dm) l -> Forall (well_made dm') l.
Proof.
  intros Hle H. eapply Forall_impl; [exact H|].
  intros it [Hid Hm]. split; [lia | exact Hm].
Qed.

Lemma of_user_app (u : Z) (l1 l2 : list queue_item) :
  of_user u (l1 ++ l2) = of_user u l1 ++ of_user u l2.
Proof. apply filter_app. Qed.

Lemma of_user_cons (u : Z) (it : queue_item) (l : list queue_item) :
  of_user u (it :: l)
  = if decide (item_user it = u) then it :: of_user u l else of_user u l.
Proof. unfold of_user. now rewrite filter_cons. Qed.

Lemma ids_of_user_subset (u : Z) (l : list queue_item) (t : Z) :
  t ∈ item_task_id <$> of_user u l -> t ∈ item_task_id <$> l.
Proof.
  rewrite !list_elem_of_fmap. intros (it & -> & Hin).
  apply list_elem_of_filter in Hin as [_ Hin]. now exists it.
Qed.

Lemma active_ids_app (u : Z) (l1 l2 : list queue_item) :
  list_to_set (item_task_id <$> of_user u (l1 ++ l2)) =@{gset Z}
  list_to_set (item_task_id <$> of_user u l1)
  ∪ list_to_set (item_task_id <$> of_user u l2).
Proof. now rewrite of_user_app, fmap_app, list_to_set_app_L. Qed.

Lemma active_ids_cons (u : Z) (it : queue_item) (l : list queue_item) :
  list_to_set (item_task_id <$> of_user u (it :: l)) =@{gset Z}
  if decide (item_user it = u)
  then {[ item_task_id it ]} ∪ list_to_set (item_task_id <$> of_user u l)
  else list_to_set (item_task_id <$> of_user u l).
Proof. unfold of_user. rewrite filter_cons. now destruct (decide _). Qed.

Lemma pool_inv_step (n : Z) (s s' : system) :
  pool_inv n s -> step s s' -> pool_inv n s'.
Proof.
  intros [Hws Hproc Hcnt Hmade Hnd Hsort Hact Hst] Hstep.
  destruct Hstep as [dm ws u url mode dm' allowed Hadd
                    | dm ws i it rest Hi Hqueue
                    | dm ws i rest Hi Hqueue
                    | dm ws i it Hi
                    | dm ws i it dm' Hi Hfin
                    | dm ws];
    unfold live_tasks, running_tasks, waiting_tasks in *; simpl in *.
  - (* add_download *)
    destruct allowed.
    + destruct (add_download_fields dm dm' u url mode Hadd)
        as (Hmode & Hp & Hc & Ha & Hq).
      set (new := {| item_task_id := (task_counter dm + 1)%Z; item_user := u;
                     item_url := url; item_mode := mode |}) in *.
      assert (forall t, t ∈ item_task_id <$> (omap id (queue dm) ++ omap in_hand ws) ->
                        (t <= task_counter dm)%Z) as Hold.
      { intros t Ht. apply list_elem_of_fmap in Ht as (it & -> & Hin).
        rewrite Forall_forall in Hmade. destruct (Hmade it Hin) as [Hid _]. lia. }
      split; unfold live_tasks, running_tasks, waiting_tasks; simpl;
        rewrite ?Hq, ?omap_app; simpl.
      * exact Hws.
      * now rewrite Hp.
      * lia.
      * rewrite <- app_assoc. apply Forall_app. apply Forall_app in Hmade as [Hm1 Hm2].
        split; [|apply Forall_app; split].
        -- apply (well_made_mono dm); [lia | exact Hm1].
        -- constructor; [|constructor]. split; [simpl; lia | exact Hmode].
        -- apply (well_made_mono dm); [lia | exact Hm2].
      * rewrite <- app_assoc, !fmap_app. simpl.
        rewrite fmap_app in Hnd.
        apply NoDup_app in Hnd as (Hn1 & Hn12 & Hn2).
        apply NoDup_app. split; [exact Hn1|]. split.
        -- intros t Ht1 Ht2. apply elem_of_cons in Ht2 as [->|Ht2].
           ++ assert (task_counter dm + 1 <= task_counter dm)%Z; [|lia].
              apply Hold. rewrite fmap_app. apply elem_of_app. now left.
           ++ exact (Hn12 t Ht1 Ht2).
        -- apply NoDup_cons. split; [|exact Hn2].
           intros Ht. assert (task_counter dm + 1 <= task_counter dm)%Z; [|lia].
           apply Hold. rewrite fmap_app. apply elem_of_app. now right.
      * rewrite fmap_app. simpl. apply ascending_snoc; [exact Hsort|].
        apply Forall_forall. intros t Ht.
        assert (t <= task_counter dm)%Z; [|lia].
        apply Hold. rewrite fmap_app. apply elem_of_app. now left.
      * intros v. rewrite Ha. apply Hact.
      * intros v tasks. rewrite Ha. apply Hst.
    + assert ((add_download dm u url mode).2 = false) as Hno by now rewrite Hadd.
      apply add_download_denied in Hno. rewrite Hadd in Hno. simpl in Hno.
      subst dm'. now split.
  - (* a worker takes an item *)
    rewrite Hqueue in *. simpl in *.
    pose proof (omap_at in_hand ws i _ Hi) as Hh.
    pose proof (omap_insert_at in_hand ws i _ (Holding it) Hi) as Hh'.
    pose proof (omap_at running ws i _ Hi) as Hr.
    pose proof (omap_insert_at running ws i _ (Holding it) Hi) as Hr'.
    simpl in Hh, Hh', Hr, Hr'.
    assert (omap id rest ++ omap in_hand (<[i := Holding it]> ws)
            ≡ₚ it :: omap id rest ++ omap in_hand ws) as Hperm.
    { rewrite Hh, Hh'. now rewrite <- !Permutation_middle. }
    split; unfold live_tasks, running_tasks, waiting_tasks; simpl.
    + now rewrite length_insert.
    + now rewrite Hr', <- Hr.
    + exact Hcnt.
    + rewrite Hperm. exact Hmade.
    + rewrite Hperm. exact Hnd.
    + apply Hsort.
    + intros v. rewrite Hr', <- Hr. apply Hact.
    + exact Hst.
  - (* a worker takes a sentinel *)
    rewrite Hqueue in *. simpl in *.
    pose proof (omap_at in_hand ws i _ Hi) as Hh.
    pose proof (omap_insert_at in_hand ws i _ Stopped Hi) as Hh'.
    pose proof (omap_at running ws i _ Hi) as Hr.
    pose proof (omap_insert_at running ws i _ Stopped Hi) as Hr'.
    simpl in Hh, Hh', Hr, Hr'.
    split; unfold live_tasks, running_tasks, waiting_tasks; simpl;
      rewrite ?Hh', ?Hr', <- ?Hh, <- ?Hr; try assumption.
    now rewrite length_insert.
  - (* _mark_task_started *)
    pose proof (omap_at in_hand ws i _ Hi) as Hh.
    pose proof (omap_insert_at in_hand ws i _ (Handling it) Hi) as Hh'.
    pose proof (omap_at running ws i _ Hi) as Hr.
    pose proof (omap_insert_at running ws i _ (Handling it) Hi) as Hr'.
    simpl in Hh, Hh', Hr, Hr'.
    split; unfold live_tasks, running_tasks, waiting_tasks; simpl;
      rewrite ?Hh', <- ?Hh; try assumption.
    + now rewrite length_insert.
    + rewrite Hproc, Hr, Hr'. rewrite !length_app. cbn [length]. lia.
    + intros v. rewrite Hr', active_ids_app, active_ids_cons.
      specialize (Hact v). rewrite Hr, active_ids_app in Hact.
      rewrite lookup_insert.
      destruct (decide (item_user it = v)) as [Heq|Hne]; cbn [from_option id].
      * rewrite <- Heq in *. rewrite Hact.
        apply set_eq. intros x. rewrite !elem_of_union. tauto.
      * exact Hact.
    + now apply no_empty_set_started.
  - (* _mark_task_finished *)
    destruct (mark_task_finished_total dm (item_user it) (item_task_id it))
      as (dm2 & H2 & _ & _ & Hqueue & _ & Hother & Hmine).
    rewrite Hfin in H2. injection H2 as <-.
    destruct (mark_task_finished_fields dm dm' _ _ Hfin) as [Hc Hp].
    pose proof (omap_at in_hand ws i _ Hi) as Hh.
    pose proof (omap_insert_at in_hand ws i _ Waiting Hi) as Hh'.
    pose proof (omap_at running ws i _ Hi) as Hr.
    pose proof (omap_insert_at running ws i _ Waiting Hi) as Hr'.
    simpl in Hh, Hh', Hr, Hr'.
    assert (omap id (queue dm) ++ omap in_hand ws
            ≡ₚ it :: omap id (queue dm) ++ omap in_hand (<[i := Waiting]> ws))
      as Hperm.
    { rewrite Hh, Hh'. now rewrite <- !Permutation_middle. }
    rewrite Hperm in Hmade, Hnd. apply Forall_cons in Hmade as [_ Hmade].
    simpl in Hnd. apply NoDup_cons in Hnd as [Hfresh Hnd].
    assert (item_task_id it ∉ item_task_id <$> omap running (<[i := Waiting]> ws))
      as Hfresh'.
    { intros Hin. apply Hfresh. rewrite fmap_app. apply elem_of_app. right.
      apply list_elem_of_fmap in Hin as (it' & Heq & Hin).
      apply list_elem_of_fmap. exists it'. split; [exact Heq|].
      now apply running_in_hand. }
    split; unfold live_tasks, running_tasks, waiting_tasks; simpl; rewrite ?Hqueue.
    + now rewrite length_insert.
    + assert (length (omap running ws)
              = S (length (omap running (<[i := Waiting]> ws)))) as Hlen
        by (rewrite Hr, Hr', !length_app; cbn [length]; lia).
      rewrite Hp, Hproc, Hlen.
      destruct (0 <? Z.of_nat (S _))%Z eqn:E; [lia|]. apply Z.ltb_ge in E. lia.
    + lia.
    + apply (well_made_mono dm); [lia | exact Hmade].
    + exact Hnd.
    + exact Hsort.
    + intros v. specialize (Hact v).
      rewrite Hr, active_ids_app, active_ids_cons in Hact.
      rewrite Hr' in Hfresh' |- *. rewrite active_ids_app.
      destruct (decide (item_user it = v)) as [Heq|Hne].
      * rewrite <- Heq in *. rewrite Hmine, Hact.
        apply set_eq. intros x.
        rewrite elem_of_difference, !elem_of_union, !elem_of_singleton.
        split; [tauto|].
        intros Hx. split; [tauto|]. intros ->. apply Hfresh'.
        rewrite fmap_app. apply elem_of_app.
        destruct Hx as [Hx|Hx]; [left | right];
          apply elem_of_list_to_set in Hx;
          now apply (ids_of_user_subset (item_user it)).
      * rewrite Hother by congruence. exact Hact.
    + now apply (no_empty_set_finished dm dm' _ _ Hfin).
  - (* stop *)
    split; unfold live_tasks, running_tasks, waiting_tasks; simpl;
      rewrite ?omap_app, ?omap_sentinels, ?app_nil_r; assumption.
Qed.

Lemma reachable_pool_inv (n : Z) (s : system) : reachable n s -> pool_inv n s.
Proof.
  induction 1 as [|s s' _ IH Hstep].
  - apply pool_inv_start.
  - now apply (pool_inv_step n s s').
Qed.

Lemma sample_system_reachable : reachable 3 sample_system.
Proof.
  eapply reach_step; [eapply reach_step; [eapply reach_step; [apply reach_start|]|]|].
  - apply (step_add (new_manager 3) (replicate 3 Waiting) 7
             (item_url sample_item) "video"
             (add_download (new_manager 3) 7 (item_url sample_item) "video").1 true).
    reflexivity.
  - apply (step_get _ _ 0 sample_item []); reflexivity.
  - apply (step_start
             (set_queue (add_download (new_manager 3) 7 (item_url sample_item)
                           "video").1 [])
             (<[0 := Holding sample_item]> (replicate 3 Waiting)) 0 sample_item).
    reflexivity.
Qed.

Lemma sample_system_done_reachable : reachable 3 sample_system_done.
Proof.
  eapply reach_step; [apply sample_system_reachable|].
  apply (step_finish (sys_dm sample_system) (sys_workers sample_system) 0
           sample_item); reflexivity.
Qed.

(** X2.  In every state the manager can reach, the tasks let in and not
    finished are numbered apart, each with a number from 1 up to the
    counter and a mode that is video or audio, and the queue holds its
    tasks in ascending order of their numbers: the next task taken is the
    oldest one waiting. *)
Theorem task_ids_unique (n : Z) (s : system) :
  reachable n s ->
  NoDup (item_task_id <$> live_tasks s) /\
  Forall (well_made (sys_dm s)) (live_tasks s) /\
  ascending (item_task_id <$> waiting_tasks s).
Proof.
  intros H. apply reachable_pool_inv in H.
  split; [apply (pool_nodup n s H)|]. split; [apply (pool_made n s H)|].
  apply (pool_sorted n s H).
Qed.

Lemma task_ids_unique_witness :
  NoDup (item_task_id <$> live_tasks sample_system) /\
  Forall (well_made (sys_dm sample_system)) (live_tasks sample_system) /\
  ascending (item_task_id <$> waiting_tasks sample_system).
Proof. apply (task_ids_unique 3 sample_system), sample_system_reachable. Defined.

(** *** Counting a requester's tasks *)

Lemma wants_count (u : Z) (q : list (option queue_item)) :
  sum_list_with (wants u) q = length (of_user u (omap id q)).
Proof.
  induction q as [|[it|] q IH]; simpl; [reflexivity| |exact IH].
  unfold of_user in *. rewrite filter_cons. simpl.
  destruct (decide (item_user it = u)); simpl; now rewrite IH.
Qed.

Lemma holds_count (u : Z) (ws : list worker) :
  sum_list_with (holds u) ws + length (of_user u (omap running ws))
  = length (of_user u (omap in_hand ws)).
Proof.
  induction ws as [|w ws IH]; [reflexivity|].
  rewrite (omap_cons_case running), (omap_cons_case in_hand), !of_user_app,
    !length_app.
  cbn [sum_list_with].
  destruct w as [|it|it|]; cbn [running in_hand from_option holds wants];
    rewrite ?of_user_cons; try destruct (decide (item_user it = u));
    cbn [length]; change (length (of_user u [])) with 0; lia.
Qed.

Lemma ids_NoDup_of_user (u : Z) (l : list queue_item) :
  NoDup (item_task_id <$> l) -> NoDup (item_task_id <$> of_user u l).
Proof.
  intros H. eapply sublist_NoDup; [exact H|].
  apply fmap_sublist, sublist_filter.
Qed.

Lemma ids_NoDup_running (ws : list worker) :
  NoDup (item_task_id <$> omap in_hand ws) -> NoDup (item_task_id <$> omap running ws).
Proof.
  induction ws as [|w ws IH]; simpl; [auto|].
  destruct w as [|it|it|]; simpl; auto.
  - intros H. apply NoDup_cons in H as [_ H]. auto.
  - intros H. apply NoDup_cons in H as [Hnot H]. apply NoDup_cons. split; [|auto].
    intros Hin. apply Hnot.
    apply list_elem_of_fmap in Hin as (it' & Heq & Hin).
    apply list_elem_of_fmap. exists it'. split; [exact Heq|].
    now apply running_in_hand.
Qed.

Lemma active_count_running (n : Z) (s : system) (u : Z) :
  pool_inv n s ->
  active_count (sys_dm s) u = Z.of_nat (length (of_user u (running_tasks s))).
Proof.
  intros H. unfold active_count. rewrite (pool_active n s H).
  rewrite size_list_to_set, length_fmap; [reflexivity|].
  apply ids_NoDup_of_user, ids_NoDup_running.
  pose proof (pool_nodup n s H) as Hnd. unfold live_tasks in Hnd.
  rewrite fmap_app in Hnd. now apply NoDup_app in Hnd as (_ & _ & Hnd).
Qed.

(** X3.  In every state the manager can reach, what
    [get_user_active_downloads] reports for a requester is the number of
    that requester's tasks that were let in and have not finished: those
    in the queue and those in the workers' hands; and the requester's
    active set holds the numbers of the tasks the workers are running
    for it. *)
Theorem user_downloads_exact (n : Z) (s : system) (u : Z) :
  reachable n s ->
  get_user_active_downloads (sys_dm s) u
  = Z.of_nat (length (of_user u (live_tasks s))) /\
  default ∅ (active_tasks (sys_dm s) !! u)
  = list_to_set (item_task_id <$> of_user u (running_tasks s)).
Proof.
  intros H. pose proof (reachable_quota_inv n s H) as Hq.
  apply reachable_pool_inv in H. split; [|apply (pool_active n s H)].
  unfold get_user_active_downloads.
  rewrite (active_count_running n s u H), (inv_queued n s Hq).
  unfold not_started, live_tasks, waiting_tasks, running_tasks.
  rewrite of_user_app, length_app, wants_count.
  pose proof (holds_count u (sys_workers s)). lia.
Qed.

Lemma user_downloads_exact_witness :
  get_user_active_downloads (sys_dm sample_system) 7
  = Z.of_nat (length (of_user 7 (live_tasks sample_system))) /\
  default ∅ (active_tasks (sys_dm sample_system) !! 7%Z)
  = list_to_set (item_task_id <$> of_user 7 (running_tasks sample_system)).
Proof. apply (user_downloads_exact 3 sample_system 7), sample_system_reachable. Defined.

(** X4.  In every state the manager can reach, the counter
    [get_active_downloads_count] reads is the number of workers running a
    task, there are as many workers as the cap says, and so at most that
    many tasks run at once. *)
Theorem running_bound (n : Z) (s : system) :
  reachable n s ->
  get_active_downloads_count (sys_dm s) = Z.of_nat (length (running_tasks s)) /\
  Z.of_nat (length (sys_workers s)) = max_concurrent (sys_dm s) /\
  (get_active_downloads_count (sys_dm s) <= max_concurrent (sys_dm s))%Z.
Proof.
  intros H. pose proof (reachable_quota_inv n s H) as Hq.
  apply reachable_pool_inv in H. unfold get_active_downloads_count.
  pose proof (pool_processing n s H) as Hp.
  pose proof (pool_workers n s H) as Hw.
  pose proof (inv_cap n s Hq) as Hc.
  pose proof (omap_length_le running (sys_workers s)) as Hle.
  unfold running_tasks in *. repeat split; lia.
Qed.

Lemma running_bound_witness :
  get_active_downloads_count (sys_dm sample_system)
  = Z.of_nat (length (running_tasks sample_system)) /\
  Z.of_nat (length (sys_workers sample_system)) = max_concurrent (sys_dm sample_system) /\
  (get_active_downloads_count (sys_dm sample_system)
   <= max_concurrent (sys_dm sample_system))%Z.
Proof. apply (running_bound 3 sample_system), sample_system_reachable. Defined.

(** X5.  When no task is left, none in the queue and none in a worker's
    hands, nothing of the quota is held: both maps are empty and the
    counter of running tasks is zero. *)
Theorem idle_releases (n : Z) (s : system) :
  reachable n s -> live_tasks s = [] ->
  active_tasks (sys_dm s) = ∅ /\ queued_tasks (sys_dm s) = ∅ /\
  processing (sys_dm s) = 0%Z.
Proof.
  intros H Hidle. pose proof (reachable_quota_inv n s H) as Hq.
  apply reachable_pool_inv in H.
  unfold live_tasks in Hidle. apply app_eq_nil in Hidle as [Hw Hh].
  assert (running_tasks s = []) as Hr.
  { unfold running_tasks. destruct (omap running (sys_workers s)) as [|it l] eqn:E;
      [reflexivity|].
    assert (it ∈ omap in_hand (sys_workers s)) as Hin
      by (apply running_in_hand; rewrite E; now left).
    rewrite Hh in Hin. now apply elem_of_nil in Hin. }
  split; [|split].
  - apply map_eq. intros u. rewrite lookup_empty.
    destruct (active_tasks (sys_dm s) !! u) as [tasks|] eqn:Ha; [|reflexivity].
    exfalso. apply (pool_stored n s H u tasks Ha).
    pose proof (pool_active n s H u) as Hact. rewrite Ha, Hr in Hact. exact Hact.
  - apply map_eq. intros u. rewrite lookup_empty.
    destruct (queued_tasks (sys_dm s) !! u) as [q|] eqn:Hqu; [|reflexivity].
    exfalso. pose proof (inv_stored n s Hq u q Hqu) as Hpos.
    pose proof (inv_queued n s Hq u) as Hcount.
    unfold queued_count in Hcount. rewrite Hqu in Hcount. simpl in Hcount.
    unfold not_started in Hcount. rewrite wants_count in Hcount.
    pose proof (holds_count u (sys_workers s)) as Hc.
    unfold waiting_tasks in Hw. rewrite Hw, Hh in *. simpl in *. lia.
  - rewrite (pool_processing n s H), Hr. reflexivity.
Qed.

Lemma idle_releases_witness :
  active_tasks (sys_dm sample_system_done) = ∅ /\
  queued_tasks (sys_dm sample_system_done) = ∅ /\
  processing (sys_dm sample_system_done) = 0%Z.
Proof.
  apply (idle_releases 3 sample_system_done).
  - apply sample_system_done_reachable.
  - reflexivity.
Defined.

(** ** What a run tells the requester *)

Lemma deliveries_app (evs1 evs2 : list event) :
  deliveries (evs1 ++ evs2) = deliveries evs1 ++ deliveries evs2.
Proof. apply omap_app. Qed.

Lemma reports_made_app (evs1 evs2 : list event) :
  reports_made (evs1 ++ evs2) = reports_made evs1 ++ reports_made evs2.
Proof. apply omap_app. Qed.

Section Discreet.

Context {St : Type} (tr : St -> list event).

Lemma discreet_ret {A} (a : A) : discreet tr (ret a).
Proof. intros s. exists []. now rewrite app_nil_r. Qed.

Lemma discreet_raise {A} (e : exn) : discreet tr (@raise St A e).
Proof. intros s. exists []. now rewrite app_nil_r. Qed.

Lemma discreet_get : discreet tr (@get St).
Proof. intros s. exists []. now rewrite app_nil_r. Qed.

Lemma discreet_modify (f : St -> St) :
  (forall s, tr (f s) = tr s) -> discreet tr (modify f).
Proof. intros H s. exists []. simpl. now rewrite H, app_nil_r. Qed.

Lemma discreet_bind {A B} (m : M St A) (k : A -> M St B) :
  discreet tr m -> (forall a, discreet tr (k a)) -> discreet tr (bind m k).
Proof.
  intros Hm Hk s. unfold bind. destruct (Hm s) as (evs1 & H1 & Hd1 & Hr1).
  destruct (m s) as [[a|e] s1]; simpl in H1.
  - destruct (Hk a s1) as (evs2 & H2 & Hd2 & Hr2). exists (evs1 ++ evs2).
    rewrite H2, H1, <- app_assoc, deliveries_app, reports_made_app.
    rewrite Hd1, Hd2, Hr1, Hr2. now repeat split.
  - exists evs1. now repeat split.
Qed.

Lemma discreet_try_except {A} (m : M St A) (h : exn -> M St A) :
  discreet tr m -> (forall e, discreet tr (h e)) -> discreet tr (try_except m h).
Proof.
  intros Hm Hh s. unfold try_except. destruct (Hm s) as (evs1 & H1 & Hd1 & Hr1).
  destruct (m s) as [[a|e] s1]; simpl in H1.
  - exists evs1. now repeat split.
  - destruct (Hh e s1) as (evs2 & H2 & Hd2 & Hr2). exists (evs1 ++ evs2).
    rewrite H2, H1, <- app_assoc, deliveries_app, reports_made_app.
    rewrite Hd1, Hd2, Hr1, Hr2. now repeat split.
Qed.

End Discreet.

Section Told.

Context (E : env).

Lemma chat_run (c : chat_call) (w : world) :
  chat E c w = (outcome_of (o_chat E w c),
                {| fs := fs w; trace := trace w ++ [EvChat c (o_chat E w c)] |}).
Proof.
  unfold chat, bind, get, log, modify, ret, raise.
  now destruct (o_chat E w c).
Qed.

Lemma edit_status_shape (sm : bool) (text : string) (w : world) :
  exists evs,
    edit_status E sm text w = (Ret tt, {| fs := fs w; trace := trace w ++ evs |}) /\
    status_edit text evs.
Proof.
  unfold edit_status, when, quietly, try_except. destruct sm.
  - rewrite chat_run. exists [EvChat (EditStatus text) (o_chat E w (EditStatus text))].
    split; [now destruct (o_chat E w (EditStatus text))|]. right. eauto.
  - exists []. split; [|now left]. rewrite app_nil_r. now destruct w.
Qed.

Lemma status_edit_quiet (text : string) (evs : list event) :
  status_edit text evs -> deliveries evs = [] /\ reports_made evs = [].
Proof. intros [->|(failed & ->)]; now split. Qed.

Lemma discreet_edit_status (sm : bool) (text : string) :
  discreet trace (edit_status E sm text).
Proof.
  intros w. destruct (edit_status_shape sm text w) as (evs & -> & Hev).
  exists evs. split; [reflexivity|]. now apply (status_edit_quiet text).
Qed.

Lemma discreet_log (ev : event) :
  deliveries [ev] = [] -> reports_made [ev] = [] -> discreet trace (log ev).
Proof. intros Hd Hr w. now exists [ev]. Qed.

Lemma discreet_set_listing (dir : string) (entries : list entry) :
  discreet trace (set_listing dir entries).
Proof. now apply discreet_modify. Qed.

Lemma discreet_remove_dir (dir : string) : discreet trace (remove_dir dir).
Proof. now apply discreet_modify. Qed.

Lemma discreet_announce (t : Z) : discreet trace (chat E (Announce t)).
Proof. intros w. rewrite chat_run. now exists [EvChat (Announce t) (o_chat E w (Announce t))]. Qed.

Ltac discreet_by known :=
  repeat first
    [ known
    | apply discreet_ret
    | apply discreet_raise
    | apply discreet_get
    | apply discreet_edit_status
    | apply discreet_set_listing
    | apply discreet_remove_dir
    | apply discreet_announce
    | (apply discreet_log; reflexivity)
    | apply discreet_bind; [|intros ?]
    | apply discreet_try_except; [|intros ?]
    | match goal with
      | |- discreet _ (if ?b then _ else _) => destruct b
      | |- discreet _ (match ?x with _ => _ end) => destruct x
      end ].

Ltac discreet := discreet_by fail.

Lemma discreet_create_temp_dir : discreet trace (create_temp_dir E).
Proof. unfold create_temp_dir. discreet. Qed.

Lemma discreet_has_enough_disk_space (dir : string) :
  discreet trace (has_enough_disk_space E dir).
Proof. unfold has_enough_disk_space. discreet. Qed.

Lemma discreet_cleanup_temp_dir (dir : string) :
  discreet trace (cleanup_temp_dir E dir).
Proof. unfold cleanup_temp_dir, quietly, when, rmtree. discreet. Qed.

Lemma discreet_download_with_ytdlp (url dir : string) (is_audio : bool)
    (allowed_ext : list string) (app : bool) :
  discreet trace (download_with_ytdlp E url dir is_audio allowed_ext app).
Proof. unfold download_with_ytdlp, extract_info. discreet. Qed.

Lemma discreet_download_file_async (url : string) (p : path) :
  discreet trace (download_file_async E url p).
Proof. unfold download_file_async. discreet. Qed.

Lemma discreet_html_fallback (url dir : string) :
  discreet trace (download_tiktok_direct_from_html E url dir).
Proof.
  unfold download_tiktok_direct_from_html, http_get.
  discreet_by ltac:(apply discreet_download_file_async).
Qed.

Lemma discreet_try_attempts (attempts : list attempt) (dir : string)
    (is_audio : bool) (allowed_ext : list string) (last_error : option exn) :
  discreet trace (try_attempts E attempts dir is_audio allowed_ext last_error).
Proof.
  revert last_error. induction attempts as [|[u app] rest IH]; intros last_error.
  - apply discreet_ret.
  - cbn [try_attempts]. apply discreet_try_except.
    + apply discreet_bind; [apply discreet_download_with_ytdlp|].
      intros r. apply discreet_ret.
    + intros e. destruct (negb _); [apply discreet_raise | apply IH].
Qed.

Lemma discreet_download_content (url dir mode : string) (sm : bool) :
  discreet trace (download_content E url dir mode sm).
Proof.
  unfold download_content, normalize_tiktok_url.
  discreet_by ltac:(first [ apply discreet_try_attempts
                          | apply discreet_html_fallback
                          | apply discreet_download_file_async
                          | apply discreet_download_with_ytdlp ]).
Qed.

(** *** The local variables, again *)

Lemma discreet_in_world {A} (m : M world A) :
  discreet trace m -> discreet frame_trace (in_world m).
Proof.
  intros H f. rewrite in_world_run. destruct (H (the_world f)) as (evs & Ht & Hd).
  exists evs. split; [exact Ht | exact Hd].
Qed.

Lemma discreet_fetch_phase : discreet frame_trace (fetch_phase E).
Proof.
  unfold fetch_phase, fetch_in, set_temp_dir, set_status_msg, set_status.
  repeat first
    [ apply discreet_ret
    | apply discreet_raise
    | apply discreet_get
    | (apply discreet_modify; reflexivity)
    | (apply discreet_in_world;
       first [ apply discreet_create_temp_dir
             | apply discreet_has_enough_disk_space
             | apply discreet_announce
             | apply discreet_download_content ])
    | apply discreet_bind; [|intros ?]
    | match goal with
      | |- discreet _ (if ?b then _ else _) => destruct b
      end ].
Qed.

(** [_send_file]: the mode's own call, then the document call if that
    one raised; what the document call raises is raised. *)
Lemma send_file_run (p : path) (mode : string) (sm : bool) (w : world) :
  exists evs,
    trace (send_file E p mode sm w).2 = trace w ++ evs /\
    fs (send_file E p mode sm w).2 = fs w /\
    reports_made evs = [] /\
    ((deliveries evs = [(primary_send mode p, None)] /\
      (send_file E p mode sm w).1 = Ret tt) \/
     (exists e1,
        deliveries evs = [(primary_send mode p, Some e1); (AnswerDocument p, None)] /\
        (send_file E p mode sm w).1 = Ret tt) \/
     (exists e1 e2,
        deliveries evs = [(primary_send mode p, Some e1);
                          (AnswerDocument p, Some e2)] /\
        (send_file E p mode sm w).1 = Raise e2)).
Proof.
  unfold send_file, bind, try_except, primary_send.
  destruct (edit_status_shape sm "Отправляю файл в Telegram..." w)
    as (evs0 & -> & He0).
  destruct (status_edit_quiet _ _ He0) as [Hd0 Hr0].
  set (w0 := {| fs := fs w; trace := trace w ++ evs0 |}).
  set (c := if bool_decide (mode = AUDIO) then AnswerAudio p else AnswerVideo p).
  assert ((if bool_decide (mode = AUDIO) then chat E (AnswerAudio p)
           else chat E (AnswerVideo p)) w0 = chat E c w0) as ->
    by (unfold c; now destruct (bool_decide (mode = AUDIO))).
  assert (forall r, deliveries [EvChat c r] = [(c, r)] /\
                    reports_made [EvChat c r] = []) as Hc
    by (intros r; unfold c; now destruct (bool_decide (mode = AUDIO))).
  rewrite chat_run.
  destruct (o_chat E w0 c) as [e1|]; cbn [outcome_of].
  - set (w1 := {| fs := fs w0; trace := trace w0 ++ [EvChat c (Some e1)] |}).
    rewrite chat_run.
    destruct (o_chat E w1 (AnswerDocument p)) as [e2|]; cbn [outcome_of].
    + exists (evs0 ++ [EvChat c (Some e1)] ++ [EvChat (AnswerDocument p) (Some e2)]).
      cbn [fst snd trace fs].
      rewrite !deliveries_app, !reports_made_app, Hd0, Hr0.
      rewrite (proj1 (Hc _)), (proj2 (Hc _)).
      split; [unfold w1, w0; cbn [trace]; now rewrite <- !app_assoc|].
      split; [reflexivity|]. split; [reflexivity|]. right. right. now exists e1, e2.
    + set (w2 := {| fs := fs w1; trace := _ |}).
      destruct (edit_status_shape sm "Загрузка завершена." w2) as (evs2 & -> & He2).
      destruct (status_edit_quiet _ _ He2) as [Hd2 Hr2].
      exists (evs0 ++ [EvChat c (Some e1)] ++ [EvChat (AnswerDocument p) None]
              ++ evs2).
      cbn [fst snd trace fs].
      rewrite !deliveries_app, !reports_made_app, Hd0, Hr0, Hd2, Hr2.
      rewrite (proj1 (Hc _)), (proj2 (Hc _)).
      split; [unfold w2, w1, w0; cbn [trace]; now rewrite <- !app_assoc|].
      split; [reflexivity|]. split; [reflexivity|]. right. left. now exists e1.
  - set (w1 := {| fs := fs w0; trace := _ |}).
    destruct (edit_status_shape sm "Загрузка завершена." w1) as (evs2 & -> & He2).
    destruct (status_edit_quiet _ _ He2) as [Hd2 Hr2].
    exists (evs0 ++ [EvChat c None] ++ evs2).
    cbn [fst snd trace fs].
    rewrite !deliveries_app, !reports_made_app, Hd0, Hr0, Hd2, Hr2.
    rewrite (proj1 (Hc _)), (proj2 (Hc _)).
    split; [unfold w1, w0; cbn [trace]; now rewrite <- !app_assoc|].
    split; [reflexivity|]. split; [reflexivity|]. now left.
Qed.

(** X6.  [_send_file] makes the delivery call of the mode first, audio
    or video; it makes the document call only when that first call
    raised, and no third call; it returns when one of the two went
    through and raises what the document call raised; it reports no
    failure itself and leaves the files alone. *)
Theorem send_file_spec (p : path) (mode : string) (sm : bool) (w : world) :
  exists evs,
    trace (send_file E p mode sm w).2 = trace w ++ evs /\
    fs (send_file E p mode sm w).2 = fs w /\
    reports_made evs = [] /\
    ((deliveries evs = [(primary_send mode p, None)] /\
      (send_file E p mode sm w).1 = Ret tt) \/
     (exists e1,
        deliveries evs = [(primary_send mode p, Some e1); (AnswerDocument p, None)] /\
        (send_file E p mode sm w).1 = Ret tt) \/
     (exists e1 e2,
        deliveries evs = [(primary_send mode p, Some e1);
                          (AnswerDocument p, Some e2)] /\
        (send_file E p mode sm w).1 = Raise e2)).
Proof. apply send_file_run. Qed.

Lemma path_exists_lookup (w : world) (p : path) :
  path_exists w p = true -> exists en, lookup_file w p = Some en.
Proof. unfold path_exists. destruct (lookup_file w p) as [en|]; [eauto | discriminate]. Qed.

(** The second half of the [try] block. *)
Lemma deliver_phase_run (filepath : option path) (f : frame) :
  exists evs,
    frame_trace (deliver_phase E filepath f).2 = frame_trace f ++ evs /\
    reports_made evs = [] /\
    match (deliver_phase E filepath f).1 with
    | Ret _ => status (task (deliver_phase E filepath f).2) = COMPLETED /\
               exists c, last (deliveries evs) = Some (c, None)
    | Raise e => Forall (fun d => d.2 <> None) (deliveries evs)
    end /\
    (deliveries evs = [] \/
     exists p en,
       filepath = Some p /\ lookup_file (the_world f) p = Some en /\
       (e_size en <= MAX_FILE_SIZE_MB E * 1048576)%Z /\
       Forall (fun d => file_sent d.1 = Some p) (deliveries evs)).
Proof.
  assert (exists evs : list event,
            frame_trace f = frame_trace f ++ evs /\ reports_made evs = [] /\
            Forall (fun d : chat_call * option exn => d.2 <> None) (deliveries evs) /\
            deliveries evs = []) as Hnone
    by (exists []; rewrite app_nil_r; repeat split; constructor).
  unfold deliver_phase, bind, get, raise.
  destruct filepath as [p|].
  2:{ destruct Hnone as (evs & ? & ? & ? & ?). exists evs. cbn [fst snd]. auto. }
  destruct (path_exists (the_world f) p) eqn:Hex; cbn [negb].
  2:{ destruct Hnone as (evs & ? & ? & ? & ?). exists evs. cbn [fst snd]. auto. }
  destruct (path_exists_lookup _ _ Hex) as (en & Hen).
  destruct (Qgt_bool _ _) eqn:Hgt.
  { destruct Hnone as (evs & ? & ? & ? & ?). exists evs. cbn [fst snd]. auto. }
  assert (e_size en <= MAX_FILE_SIZE_MB E * 1048576)%Z as Hsize.
  { destruct (Z_lt_le_dec (MAX_FILE_SIZE_MB E * 1048576) (e_size en)) as [Hlt|Hle];
      [|exact Hle].
    apply (size_gate_test E (the_world f) p en Hen) in Hlt. congruence. }
  unfold set_status, modify. rewrite in_world_run. cbn [the_world task mode].
  destruct (send_file_run p (mode (task f)) true (the_world f))
    as (evs & Ht & _ & Hr & Hcases).
  exists evs.
  assert (Forall (fun d : chat_call * option exn => file_sent d.1 = Some p)
            (deliveries evs)) as Hfiles.
  { unfold primary_send in Hcases.
    destruct Hcases as [[-> _] | [(e1 & -> & _) | (e1 & e2 & -> & _)]];
      destruct (bool_decide _); repeat constructor. }
  destruct (send_file E p (mode (task f)) true (the_world f)) as [[[]|e] w'].
  - cbn [fst snd] in *. unfold frame_trace. cbn [the_world with_world status task].
    split; [exact Ht|]. split; [exact Hr|]. split.
    + split; [reflexivity|].
      destruct Hcases as [[-> _] | [(e1 & -> & _) | (e1 & e2 & _ & Hno)]];
        [eauto | eauto | discriminate].
    + right. exists p, en. now repeat split.
  - cbn [fst snd] in *. unfold frame_trace. cbn [the_world with_world].
    split; [exact Ht|]. split; [exact Hr|]. split.
    + destruct Hcases as [[_ Hno] | [(e1 & _ & Hno) | (e1 & e2 & -> & _)]];
        [discriminate | discriminate |].
      repeat constructor; discriminate.
    + right. exists p, en. now repeat split.
Qed.

(** The [try] block. *)
Lemma handle_download_try_run (f0 : frame) :
  exists evs,
    frame_trace (handle_download_try E f0).2 = frame_trace f0 ++ evs /\
    reports_made evs = [] /\
    match (handle_download_try E f0).1 with
    | Ret _ => status (task (handle_download_try E f0).2) = COMPLETED /\
               exists c, last (deliveries evs) = Some (c, None)
    | Raise e => Forall (fun d => d.2 <> None) (deliveries evs)
    end /\
    (deliveries evs = [] \/
     exists p en f1,
       fetch_phase E f0 = (Ret (Some p), f1) /\
       lookup_file (the_world f1) p = Some en /\
       (e_size en <= MAX_FILE_SIZE_MB E * 1048576)%Z /\
       Forall (fun d => file_sent d.1 = Some p) (deliveries evs)).
Proof.
  unfold handle_download_try, bind.
  destruct (discreet_fetch_phase f0) as (evs1 & Ht1 & Hd1 & Hr1).
  destruct (fetch_phase E f0) as [[filepath|e] f1] eqn:Hfetch; cbn [snd] in Ht1.
  - destruct (deliver_phase_run filepath f1) as (evs2 & Ht2 & Hr2 & Hend & Hgate).
    exists (evs1 ++ evs2).
    rewrite deliveries_app, reports_made_app, Hd1, Hr1, Hr2. cbn [app].
    split; [now rewrite Ht2, Ht1, <- app_assoc|]. split; [reflexivity|].
    split; [exact Hend|].
    destruct Hgate as [Hnone | (p & en & -> & Hen & Hsize & Hfiles)]; [now left|].
    right. now exists p, en, f1.
  - exists evs1. cbn [fst snd]. rewrite Hd1.
    split; [exact Ht1|]. split; [exact Hr1|]. split; [constructor | now left].
Qed.

(** The [except] block. *)
Lemma except_run (e : exn) (f1 : frame) :
  exists failed evs,
    (handle_download_except E e f1).1 = outcome_of failed /\
    status (task (handle_download_except E e f1).2) = FAILED /\
    error_message (task (handle_download_except E e f1).2) = Some (str_of_exn e) /\
    frame_trace (handle_download_except E e f1).2 = frame_trace f1 ++ evs /\
    deliveries evs = [] /\
    reports_made evs = [(to_user_message e, failed)].
Proof.
  unfold handle_download_except, bind, set_status, set_error_message, modify, get.
  rewrite in_world_run. cbn [status_msg the_world].
  unfold handle_download_error, bind.
  destruct (edit_status_shape (status_msg f1) "Ошибка при загрузке." (the_world f1))
    as (evs0 & -> & He0).
  destruct (status_edit_quiet _ _ He0) as [Hd0 Hr0].
  rewrite chat_run. cbn [fst snd fs trace].
  set (w0 := {| fs := fs (the_world f1); trace := _ |}).
  exists (o_chat E w0 (Report (to_user_message e))),
    (evs0 ++ [EvChat (Report (to_user_message e))
                (o_chat E w0 (Report (to_user_message e)))]).
  unfold frame_trace. cbn [the_world with_world task status error_message trace].
  rewrite deliveries_app, reports_made_app, Hd0, Hr0.
  split; [reflexivity|]. split; [reflexivity|]. split; [reflexivity|].
  split; [now rewrite <- app_assoc|]. now split.
Qed.

(** The [finally] block raises nothing and tells the requester nothing. *)
Lemma finally_run (f : frame) :
  exists evs,
    (handle_download_finally E f).1 = Ret tt /\
    task (handle_download_finally E f).2 = task f /\
    frame_trace (handle_download_finally E f).2 = frame_trace f ++ evs /\
    deliveries evs = [] /\ reports_made evs = [].
Proof.
  assert (exists evs : list event,
            frame_trace f = frame_trace f ++ evs /\
            deliveries evs = [] /\ reports_made evs = []) as Hnone
    by (exists []; now rewrite app_nil_r).
  unfold handle_download_finally, bind, get.
  destruct (temp_dir f) as [dir|].
  2:{ destruct Hnone as (evs & ? & ? & ?). exists evs. now repeat split. }
  unfold when. destruct (truthy_str dir).
  2:{ destruct Hnone as (evs & ? & ? & ?). exists evs. now repeat split. }
  rewrite in_world_run. cbn [fst snd task with_world].
  unfold frame_trace. cbn [the_world with_world].
  unfold cleanup_temp_dir, quietly, try_except, bind, get, when.
  destruct (truthy_str dir && isdir (the_world f) dir).
  2:{ destruct Hnone as (evs & ? & ? & ?). exists evs. now repeat split. }
  unfold rmtree, bind, get, log, modify, remove_dir, raise, ret.
  exists [EvRmtree dir (o_rmtree E (the_world f) dir)].
  now destruct (o_rmtree E (the_world f) dir).
Qed.

(** [_handle_download] from end to end. *)
Lemma handle_download_run (f0 : frame) :
  exists evs,
    frame_trace (handle_download E f0).2 = frame_trace f0 ++ evs /\
    ((handle_download E f0).1 = Ret tt /\
     status (task (handle_download E f0).2) = COMPLETED /\
     reports_made evs = [] /\
     (exists c, last (deliveries evs) = Some (c, None))
     \/
     exists e failed,
       (handle_download E f0).1 = outcome_of failed /\
       status (task (handle_download E f0).2) = FAILED /\
       error_message (task (handle_download E f0).2) = Some (str_of_exn e) /\
       reports_made evs = [(to_user_message e, failed)] /\
       Forall (fun d => d.2 <> None) (deliveries evs)) /\
    (deliveries evs = [] \/
     exists p en f1,
       fetch_phase E f0 = (Ret (Some p), f1) /\
       lookup_file (the_world f1) p = Some en /\
       (e_size en <= MAX_FILE_SIZE_MB E * 1048576)%Z /\
       Forall (fun d => file_sent d.1 = Some p) (deliveries evs)).
Proof.
  destruct (handle_download_try_run f0) as (evs1 & Ht1 & Hr1 & Hend & Hgate).
  unfold handle_download, try_finally, try_except.
  destruct (handle_download_try E f0) as [[[]|e] f1]; cbn [fst snd] in *.
  - destruct (finally_run f1) as (evs2 & Hret & Htask & Ht2 & Hd2 & Hr2).
    destruct (handle_download_finally E f1) as [r2 f2]. cbn [fst snd] in *.
    subst r2. cbn [fst snd]. exists (evs1 ++ evs2).
    rewrite deliveries_app, reports_made_app, Hd2, Hr1, Hr2, !app_nil_r.
    split; [now rewrite Ht2, Ht1, <- app_assoc|].
    split; [|exact Hgate]. left. rewrite Htask. destruct Hend as [Hst Hlast].
    now repeat split.
  - destruct (except_run e f1) as (failed & evs2 & Hret & Hst & Hmsg & Ht2 & Hd2 & Hr2).
    destruct (handle_download_except E e f1) as [r2 f2]. cbn [fst snd] in *.
    destruct (finally_run f2) as (evs3 & Hret3 & Htask & Ht3 & Hd3 & Hr3).
    destruct (handle_download_finally E f2) as [r3 f3]. cbn [fst snd] in *.
    subst r3. cbn [fst snd]. exists (evs1 ++ evs2 ++ evs3).
    rewrite !deliveries_app, !reports_made_app, Hd2, Hd3, Hr1, Hr2, Hr3, !app_nil_r.
    cbn [app].
    split; [now rewrite Ht3, Ht2, Ht1, <- !app_assoc|].
    split; [|exact Hgate]. right. exists e, failed. rewrite Htask.
    now repeat split.
Qed.

(** X7.  Every run of [_handle_download] ends in one of two ways,
    whatever the extractor, the network, the file system and the chat
    do.  Either the task is completed: a delivery call went through,
    it was the last delivery call, no failure was reported and nothing
    is raised.  Or the task is failed with the text of an exception as
    its error message: every delivery call made had raised, exactly one
    failure message was sent, the error manager's message for that
    exception, and the run raises only what the sending of that message
    raised. *)
Theorem handle_download_outcome (f0 : frame) :
  exists evs,
    frame_trace (handle_download E f0).2 = frame_trace f0 ++ evs /\
    ((handle_download E f0).1 = Ret tt /\
     status (task (handle_download E f0).2) = COMPLETED /\
     reports_made evs = [] /\
     (exists c, last (deliveries evs) = Some (c, None))
     \/
     exists e failed,
       (handle_download E f0).1 = outcome_of failed /\
       status (task (handle_download E f0).2) = FAILED /\
       error_message (task (handle_download E f0).2) = Some (str_of_exn e) /\
       reports_made evs = [(to_user_message e, failed)] /\
       Forall (fun d => d.2 <> None) (deliveries evs)).
Proof.
  destruct (handle_download_run f0) as (evs & Ht & Hend & _).
  exists evs. now split.
Qed.

(** X8.  Nothing is delivered but the file the fetch returned, and only
    when that file exists in the workspace as the fetch left it and is
    not over the ceiling: its size in bytes is at most the ceiling in
    megabytes times 1024 * 1024. *)
Theorem delivery_gated (f0 : frame) :
  exists evs,
    frame_trace (handle_download E f0).2 = frame_trace f0 ++ evs /\
    (deliveries evs = [] \/
     exists p en f1,
       fetch_phase E f0 = (Ret (Some p), f1) /\
       lookup_file (the_world f1) p = Some en /\
       (e_size en <= MAX_FILE_SIZE_MB E * 1048576)%Z /\
       Forall (fun d => file_sent d.1 = Some p) (deliveries evs)).
Proof.
  destruct (handle_download_run f0) as (evs & Ht & _ & Hgate).
  exists evs. now split.
Qed.

(** *** The other platforms *)

Lemma contains_dot_suffix (s ext : string) :
  PyStr.contains "." ext = true -> PyStr.contains "." (s +:+ ext) = true.
Proof.
  intros H. induction s as [|c s IH]; [exact H|].
  change (String c s +:+ ext) with (String c (s +:+ ext)).
  cbn [PyStr.contains]. destruct (PyStr.startswith "." _); [reflexivity | exact IH].
Qed.

(** X10.  A link of any platform other than the flaky one and the
    direct files goes to the extractor once, as it is and without the
    app variant; the URL is not normalized, no page is fetched, and there
    is no second try: what the call raises is raised, and otherwise the
    result is the selection made in the workspace as the call left it. *)
Theorem single_attempt_spec (url dir mode : string) (sm : bool) (w : world) :
  detect_platform (direct_file_re E) url <> TIKTOK ->
  detect_platform (direct_file_re E) url <> DIRECT ->
  exists edit failed,
    status_edit "Скачиваю медиа..." edit /\
    trace (download_content E url dir mode sm w).2
    = trace w ++ edit ++ [EvExtract (url, false) failed] /\
    match failed with
    | None =>
        exists entries,
          fs (download_content E url dir mode sm w).2 !! dir = Some entries /\
          (download_content E url dir mode sm w).1
          = Ret (match latest_entry entries
                         (if bool_decide (mode = AUDIO) then AUDIO_EXTENSIONS
                          else VIDEO_EXTENSIONS) with
                 | Some en => Some (dir, e_name en)
                 | None => None
                 end)
    | Some e => (download_content E url dir mode sm w).1 = Raise e
    end.
Proof.
  intros Hnot_tiktok Hnot_direct.
  destruct (edit_status_shape sm "Скачиваю медиа..." w) as (edit & He & Hedit).
  set (w0 := {| fs := fs w; trace := trace w ++ edit |}) in *.
  set (allowed_ext := if bool_decide (mode = AUDIO) then AUDIO_EXTENSIONS
                      else VIDEO_EXTENSIONS).
  assert (download_content E url dir mode sm w
          = download_with_ytdlp E url dir (bool_decide (mode = AUDIO)) allowed_ext
              false w0) as ->.
  { unfold download_content, bind at 1. rewrite He. fold w0. cbn zeta.
    fold allowed_ext.
    destruct (detect_platform (direct_file_re E) url); try reflexivity; congruence. }
  rewrite download_with_ytdlp_unfold.
  destruct (o_extract E w0 (url, false) dir (bool_decide (mode = AUDIO)))
    as [entries failed].
  exists edit, failed. split; [exact Hedit|]. cbn zeta.
  destruct failed as [e|]; cbn [fst snd trace fs]; unfold w0; cbn [trace fs].
  - split; [now rewrite <- app_assoc | reflexivity].
  - split; [now rewrite <- app_assoc|]. exists entries.
    split; [apply lookup_insert_eq | reflexivity].
Qed.

(** *** A task that gets no workspace *)

(** X11.  When the disk has too little room, the task fails before
    anything is announced or fetched: after the check the only calls
    are the failure message and the removal of the workspace.  The
    error is the [RuntimeError] of the check. *)
Theorem no_disk_space_spec (f0 : frame) (dir : string) (w1 : world) :
  create_temp_dir E (the_world f0) = (Ret dir, w1) ->
  o_disk_space E w1 dir = false ->
  status_msg f0 = false ->
  exists sent removed,
    frame_trace (handle_download E f0).2
    = frame_trace f0 ++ [EvMkdtemp (Ret dir); EvDiskSpace dir false;
                         EvChat (Report (to_user_message no_space_error)) sent;
                         EvRmtree dir removed] /\
    (handle_download E f0).1 = outcome_of sent /\
    status (task (handle_download E f0).2) = FAILED /\
    error_message (task (handle_download E f0).2) = Some MSG_NO_SPACE.
Proof.
  intros Hc Hdisk Hsm.
  destruct (create_temp_dir_ret E _ _ _ Hc) as (Htruthy & _ & Hdir).
  assert (trace w1 = trace (the_world f0) ++ [EvMkdtemp (Ret dir)] /\
          isdir w1 dir = true) as [Ht1 Hisdir].
  { revert Hc. unfold create_temp_dir, bind, get, log, set_listing, modify, ret, raise.
    destruct (o_mkdtemp E (the_world f0)) as [[base random]|e]; [|discriminate].
    destruct (isdir (the_world f0) _); [discriminate|]. cbv beta.
    intros [= <- <-]. cbn [trace]. split; [reflexivity|].
    unfold isdir. cbn [fs]. now rewrite lookup_insert_eq. }
  destruct (handle_download E f0) as [r f] eqn:Hrun. cbn [fst snd]. revert Hrun.
  unfold handle_download, try_finally, try_except, handle_download_try, fetch_phase,
    bind.
  rewrite in_world_run, Hc. cbn [fst snd].
  unfold set_temp_dir, modify, fetch_in, bind.
  rewrite in_world_run. cbn [the_world with_world].
  unfold has_enough_disk_space, bind, get, log, modify, ret. rewrite Hdisk.
  cbn [fst snd negb]. unfold raise.
  unfold handle_download_except, bind, set_status, set_error_message, modify, get.
  rewrite in_world_run. cbn [status_msg the_world with_world]. rewrite Hsm.
  unfold handle_download_error, bind, edit_status, when, ret.
  rewrite chat_run. cbn [fst snd fs trace].
  fold no_space_error.
  set (sent := o_chat E _ (Report (to_user_message no_space_error))).
  unfold handle_download_finally, bind, get. cbn [temp_dir with_world].
  unfold when. rewrite Htruthy, in_world_run. cbn [the_world with_world].
  unfold cleanup_temp_dir, quietly, try_except, bind, get, when. rewrite Htruthy.
  assert (forall t, isdir {| fs := fs w1; trace := t |} dir = true) as Hisdir'
    by (intros t; exact Hisdir).
  rewrite Hisdir'. cbn [andb].
  unfold rmtree, bind, get, log, modify, remove_dir, raise, ret.
  set (removed := o_rmtree E _ dir).
  exists sent, removed. revert Hrun.
  destruct removed; destruct sent; cbn [fst snd outcome_of]; intros [= <- <-];
    unfold frame_trace;
    cbn [the_world with_world trace task status error_message str_of_exn exn_text
         no_space_error];
    rewrite Ht1, <- !app_assoc; now repeat split.
Qed.

(** X12.  When the workspace cannot be made, the task fails with the
    exception of [mkdtemp]; the only call after it is the failure
    message, and there is nothing to remove. *)
Theorem no_workspace_spec (f0 : frame) (e : exn) (w1 : world) :
  create_temp_dir E (the_world f0) = (Raise e, w1) ->
  status_msg f0 = false -> temp_dir f0 = None ->
  exists sent,
    frame_trace (handle_download E f0).2
    = frame_trace f0 ++ [EvMkdtemp (Raise e);
                         EvChat (Report (to_user_message e)) sent] /\
    (handle_download E f0).1 = outcome_of sent /\
    status (task (handle_download E f0).2) = FAILED /\
    error_message (task (handle_download E f0).2) = Some (str_of_exn e) /\
    temp_dir (handle_download E f0).2 = None /\
    fs (the_world (handle_download E f0).2) = fs (the_world f0).
Proof.
  intros Hc Hsm Htd.
  assert (trace w1 = trace (the_world f0) ++ [EvMkdtemp (Raise e)] /\
          fs w1 = fs (the_world f0)) as [Ht1 Hfs].
  { revert Hc. unfold create_temp_dir, bind, get, log, set_listing, modify, ret, raise.
    destruct (o_mkdtemp E (the_world f0)) as [[base random]|e'].
    - destruct (isdir (the_world f0) _); [|discriminate]. cbv beta.
      intros [= <- <-]. now split.
    - cbv beta. intros [= <- <-]. now split. }
  destruct (handle_download E f0) as [r f] eqn:Hrun. cbn [fst snd]. revert Hrun.
  unfold handle_download, try_finally, try_except, handle_download_try, fetch_phase,
    bind.
  rewrite in_world_run, Hc. cbn [fst snd].
  unfold handle_download_except, bind, set_status, set_error_message, modify, get.
  rewrite in_world_run. cbn [status_msg the_world with_world]. rewrite Hsm.
  unfold handle_download_error, bind, edit_status, when, ret.
  rewrite chat_run. cbn [fst snd fs trace].
  set (sent := o_chat E _ (Report (to_user_message e))).
  unfold handle_download_finally, bind, get. cbn [temp_dir with_world]. rewrite Htd.
  exists sent. revert Hrun. unfold ret.
  destruct sent; cbn [fst snd outcome_of]; intros [= <- <-];
    unfold frame_trace;
    cbn [the_world with_world trace task status error_message temp_dir fs];
    rewrite Ht1, <- ?app_assoc; now repeat split.
Qed.

End Told.

Lemma single_attempt_witness :
  exists edit failed,
    status_edit "Скачиваю медиа..." edit /\
    trace (download_content (sample_env 1024 false) (url (task sample_frame))
             sample_dir "video" true empty_world).2
    = trace empty_world ++ edit
      ++ [EvExtract (url (task sample_frame), false) failed] /\
    match failed with
    | None =>
        exists entries,
          fs (download_content (sample_env 1024 false) (url (task sample_frame))
                sample_dir "video" true empty_world).2 !! sample_dir
          = Some entries /\
          (download_content (sample_env 1024 false) (url (task sample_frame))
             sample_dir "video" true empty_world).1
          = Ret (match latest_entry entries
                         (if bool_decide ("video" = AUDIO) then AUDIO_EXTENSIONS
                          else VIDEO_EXTENSIONS) with
                 | Some en => Some (sample_dir, e_name en)
                 | None => None
                 end)
    | Some e =>
        (download_content (sample_env 1024 false) (url (task sample_frame))
           sample_dir "video" true empty_world).1 = Raise e
    end.
Proof.
  apply (single_attempt_spec (sample_env 1024 false) (url (task sample_frame))
           sample_dir "video" true empty_world).
  - vm_compute. discriminate.
  - vm_compute. discriminate.
Defined.

Lemma no_disk_space_witness :
  exists sent removed,
    frame_trace (handle_download full_disk_env sample_frame).2
    = frame_trace sample_frame
      ++ [EvMkdtemp (Ret sample_dir); EvDiskSpace sample_dir false;
          EvChat (Report (to_user_message no_space_error)) sent;
          EvRmtree sample_dir removed] /\
    (handle_download full_disk_env sample_frame).1 = outcome_of sent /\
    status (task (handle_download full_disk_env sample_frame).2) = FAILED /\
    error_message (task (handle_download full_disk_env sample_frame).2)
    = Some MSG_NO_SPACE.
Proof.
  apply (no_disk_space_spec full_disk_env sample_frame sample_dir
           (create_temp_dir full_disk_env empty_world).2).
  - vm_compute. reflexivity.
  - reflexivity.
  - reflexivity.
Defined.

Lemma no_workspace_witness :
  exists sent,
    frame_trace (handle_download no_workspace_env sample_frame).2
    = frame_trace sample_frame
      ++ [EvMkdtemp (Raise mkdtemp_error);
          EvChat (Report (to_user_message mkdtemp_error)) sent] /\
    (handle_download no_workspace_env sample_frame).1 = outcome_of sent /\
    status (task (handle_download no_workspace_env sample_frame).2) = FAILED /\
    error_message (task (handle_download no_workspace_env sample_frame).2)
    = Some (str_of_exn mkdtemp_error) /\
    temp_dir (handle_download no_workspace_env sample_frame).2 = None /\
    fs (the_world (handle_download no_workspace_env sample_frame).2)
    = fs (the_world sample_frame).
Proof.
  apply (no_workspace_spec no_workspace_env sample_frame mkdtemp_error
           (create_temp_dir no_workspace_env empty_world).2).
  - vm_compute. reflexivity.
  - reflexivity.
  - reflexivity.
Defined.

(** The message a full disk gets is the generic one, with the text of
    the check's error. *)
Example no_disk_space_message :
  to_user_message no_space_error = MSG_GENERIC MSG_NO_SPACE.
Proof. vm_compute. reflexivity. Qed.

(** ** Text: what the stripping and cutting functions keep *)

Lemma bytes_app (a b : string) :
  PyText.bytes (a +:+ b) = PyText.bytes a ++ PyText.bytes b.
Proof. induction a as [|c a IH]; simpl; [reflexivity | now rewrite IH]. Qed.

Lemma keeps_bytes_suffix (f : string -> string) :
  (forall s, exists pre, s = pre +:+ f s) -> keeps_bytes f.
Proof.
  intros H P s Hs. destruct (H s) as (pre & Heq).
  rewrite Heq, bytes_app in Hs. now apply Forall_app in Hs as [_ Hs].
Qed.

Lemma keeps_bytes_prefix (f : string -> string) :
  (forall s, exists post, s = f s +:+ post) -> keeps_bytes f.
Proof.
  intros H P s Hs. destruct (H s) as (post & Heq).
  rewrite Heq, bytes_app in Hs. now apply Forall_app in Hs as [Hs _].
Qed.

Lemma lstrip_suffix_n (n : nat) (s : string) :
  String.length s <= n -> exists pre, s = pre +:+ PyText.lstrip s.
Proof.
  revert s. induction n as [|n IH]; intros s Hn.
  - destruct s; [now exists EmptyString | simpl in Hn; lia].
  - destruct s as [|c s1]; [now exists EmptyString|]. simpl in Hn.
    cbn [PyText.lstrip]. destruct (PyText.is_space c).
    + destruct (IH s1) as (pre & Hp); [lia|].
      exists (String c pre). simpl. now f_equal.
    + destruct s1 as [|d s2]; [now exists EmptyString|]. simpl in Hn.
      destruct (PyText.byte_is 194 c && PyText.space2 d).
      * destruct (IH s2) as (pre & Hp); [lia|].
        exists (String c (String d pre)). simpl. now do 2 f_equal.
      * destruct s2 as [|e s3]; [now exists EmptyString|]. simpl in Hn.
        destruct (PyText.space3 c d e); [|now exists EmptyString].
        destruct (IH s3) as (pre & Hp); [lia|].
        exists (String c (String d (String e pre))). simpl. now do 3 f_equal.
Qed.

Lemma lstrip_suffix (s : string) : exists pre, s = pre +:+ PyText.lstrip s.
Proof. now apply (lstrip_suffix_n (String.length s)). Qed.

Lemma rstrip_prefix (s : string) : exists post, s = PyText.rstrip s +:+ post.
Proof.
  induction s as [|c s1 IH]; [now exists EmptyString|].
  cbn [PyText.rstrip]. destruct (PyText.lstrip (String c s1)).
  - now exists (String c s1).
  - destruct IH as (post & Hp). exists post. simpl. now f_equal.
Qed.

Lemma lstrip_dots_suffix (s : string) : exists pre, s = pre +:+ PyText.lstrip_dots s.
Proof.
  induction s as [|c s1 IH]; [now exists EmptyString|].
  cbn [PyText.lstrip_dots]. destruct (Ascii.eqb c ".").
  - destruct IH as (pre & Hp). exists (String c pre). simpl. now f_equal.
  - now exists EmptyString.
Qed.

Lemma rstrip_dots_prefix (s : string) : exists post, s = PyText.rstrip_dots s +:+ post.
Proof.
  induction s as [|c s1 IH]; [now exists EmptyString|].
  cbn [PyText.rstrip_dots]. destruct (PyText.lstrip_dots (String c s1)).
  - now exists (String c s1).
  - destruct IH as (post & Hp). exists post. simpl. now f_equal.
Qed.

Lemma take_chars_prefix (n : nat) (s : string) :
  exists post, s = take_chars n s +:+ post.
Proof.
  revert n. induction s as [|c s1 IH]; intros n; [now exists EmptyString|].
  cbn [take_chars]. destruct (is_continuation c).
  - destruct (IH n) as (post & Hp). exists post. simpl. now f_equal.
  - destruct n as [|n]; [now exists (String c s1)|].
    destruct (IH n) as (post & Hp). exists post. simpl. now f_equal.
Qed.

Lemma keeps_bytes_strip : keeps_bytes PyText.strip.
Proof.
  intros P s Hs. unfold PyText.strip.
  apply (keeps_bytes_prefix _ rstrip_prefix), (keeps_bytes_suffix _ lstrip_suffix), Hs.
Qed.

Lemma keeps_bytes_strip_dots : keeps_bytes PyText.strip_dots.
Proof.
  intros P s Hs. unfold PyText.strip_dots.
  apply (keeps_bytes_prefix _ rstrip_dots_prefix),
    (keeps_bytes_suffix _ lstrip_dots_suffix), Hs.
Qed.

Lemma keeps_bytes_take_chars (n : nat) : keeps_bytes (take_chars n).
Proof. apply keeps_bytes_prefix, take_chars_prefix. Qed.

Lemma keeps_bytes_slice_to (n : Z) : keeps_bytes (PyText.slice_to n).
Proof.
  intros P s Hs. unfold PyText.slice_to.
  destruct (0 <=? n)%Z; now apply keeps_bytes_take_chars.
Qed.

Lemma remove_control_n (n : nat) (s : string) :
  String.length s <= n ->
  Forall (fun c => is_control c = false) (PyText.bytes (remove_control s)) /\
  forall P : ascii -> Prop,
    Forall P (PyText.bytes s) -> Forall P (PyText.bytes (remove_control s)).
Proof.
  revert s. induction n as [|n IH]; intros s Hn.
  - destruct s; [split; [constructor | auto] | simpl in Hn; lia].
  - destruct s as [|c s1]; [split; [constructor | auto]|]. simpl in Hn.
    cbn [remove_control]. destruct (is_control c) eqn:Hc.
    + destruct (IH s1) as [H1 H2]; [lia|]. split; [exact H1|].
      intros P HP. apply H2. simpl in HP. now apply Forall_cons in HP as [_ HP].
    + destruct s1 as [|d s2].
      * split; [now repeat constructor | auto].
      * simpl in Hn. destruct (PyText.byte_is 194 c && PyStr.in_range 128 159 d).
        -- destruct (IH s2) as [H1 H2]; [lia|]. split; [exact H1|].
           intros P HP. apply H2. simpl in HP.
           apply Forall_cons in HP as [_ HP]. now apply Forall_cons in HP as [_ HP].
        -- destruct (IH (String d s2)) as [H1 H2]; [simpl; lia|].
           change (PyText.bytes (String c (remove_control (String d s2))))
             with (c :: PyText.bytes (remove_control (String d s2))).
           split; [now constructor|].
           intros P HP. change (PyText.bytes (String c (String d s2)))
             with (c :: PyText.bytes (String d s2)) in HP.
           apply Forall_cons in HP as [Hc' HP]. constructor; [exact Hc' | now apply H2].
Qed.

Lemma remove_control_clean (s : string) :
  Forall (fun c => is_control c = false) (PyText.bytes (remove_control s)).
Proof. destruct (remove_control_n (String.length s) s) as [H _]; [lia | exact H]. Qed.

Lemma keeps_bytes_remove_control : keeps_bytes remove_control.
Proof.
  intros P s. destruct (remove_control_n (String.length s) s) as [_ H]; [lia|].
  apply H.
Qed.

Lemma replace_reserved_clean (s : string) :
  Forall (fun c => is_reserved c = false) (PyText.bytes (replace_reserved s)).
Proof.
  induction s as [|c s1 IH]; [constructor|]. simpl. constructor; [|exact IH].
  destruct (is_reserved c) eqn:Hc; [reflexivity | exact Hc].
Qed.

Lemma len_take_chars (n : nat) (s : string) : PyText.len (take_chars n s) <= n.
Proof.
  revert n. induction s as [|c s1 IH]; intros n; [simpl; lia|].
  cbn [take_chars]. destruct (is_continuation c) eqn:Hc.
  - cbn [PyText.len]. rewrite Hc. apply IH.
  - destruct n as [|n]; [simpl; lia|]. cbn [PyText.len]. rewrite Hc.
    specialize (IH n). lia.
Qed.

Lemma first_byte_take_chars (n : nat) (s : string) :
  first_byte (take_chars (S n) s) = first_byte s.
Proof. destruct s as [|c s1]; [reflexivity|]. simpl. now destruct (is_continuation c). Qed.

Lemma first_byte_rstrip_dots (s : string) :
  PyText.rstrip_dots s <> EmptyString ->
  first_byte (PyText.rstrip_dots s) = first_byte s.
Proof.
  destruct s as [|c s1]; [reflexivity|]. cbn [PyText.rstrip_dots].
  destruct (PyText.lstrip_dots (String c s1)); [congruence | reflexivity].
Qed.

Lemma first_byte_lstrip_dots (s : string) :
  first_byte (PyText.lstrip_dots s) <> Some "."%char.
Proof.
  induction s as [|c s1 IH]; [discriminate|]. cbn [PyText.lstrip_dots].
  destruct (Ascii.eqb c ".") eqn:Hc; [exact IH|].
  simpl. intros [= ->]. now rewrite Ascii.eqb_refl in Hc.
Qed.

Lemma startswith_dot (s : string) :
  PyStr.startswith "." s = true <-> first_byte s = Some "."%char.
Proof.
  destruct s as [|c s1]; cbn [PyStr.startswith first_byte]; [split; discriminate|].
  destruct (Ascii.eqb "." c) eqn:Hc.
  - apply Ascii.eqb_eq in Hc as <-. now split.
  - split; [discriminate|]. intros [= ->]. now rewrite Ascii.eqb_refl in Hc.
Qed.

(** X13.  Whatever name it is given, [sanitize_filename] returns a name
    that is not empty, has at most 255 characters, does not begin with a
    dot, and holds none of the reserved characters (the slash and the
    backslash among them) and no control character of one byte: joined
    to a directory it names a file in that directory. *)
Theorem sanitize_filename_safe (filename : string) :
  let name := sanitize_filename filename in
  name <> EmptyString /\
  PyText.len name <= 255 /\
  PyStr.startswith "." name = false /\
  Forall (fun c => is_reserved c = false /\ is_control c = false)
    (PyText.bytes name).
Proof.
  cbn zeta. unfold sanitize_filename.
  set (s0 := remove_control (replace_reserved filename)).
  set (s1 := PyText.strip_dots (PyText.strip s0)).
  set (s2 := if truthy_str s1 then s1 else "media").
  assert (Forall (fun c => is_reserved c = false /\ is_control c = false)
            (PyText.bytes s0)) as H0.
  { apply Forall_and. split.
    - apply keeps_bytes_remove_control, replace_reserved_clean.
    - apply remove_control_clean. }
  assert (Forall (fun c => is_reserved c = false /\ is_control c = false)
            (PyText.bytes s2)) as H2.
  { unfold s2. destruct (truthy_str s1).
    - apply keeps_bytes_strip_dots, keeps_bytes_strip, H0.
    - repeat constructor. }
  assert (s2 <> EmptyString) as Hne.
  { unfold s2. destruct s1; simpl; discriminate. }
  assert (first_byte s2 <> Some "."%char) as Hdot.
  { unfold s2. destruct (truthy_str s1) eqn:Ht; [|discriminate].
    unfold s1, PyText.strip_dots in *.
    rewrite first_byte_rstrip_dots by (intros E; rewrite E in Ht; discriminate).
    apply first_byte_lstrip_dots. }
  split; [|split; [|split]].
  - destruct s2 as [|c s]; [congruence|]. simpl.
    destruct (is_continuation c); discriminate.
  - apply len_take_chars.
  - destruct (PyStr.startswith "." (take_chars 255 s2)) eqn:Hs; [|reflexivity].
    apply startswith_dot in Hs. rewrite first_byte_take_chars in Hs. contradiction.
  - now apply keeps_bytes_take_chars.
Qed.

(** X14.  [sanitize_user_input] with a limit that is not negative
    returns at most that many characters, none of them a control
    character of one byte, and the empty text for the empty text. *)
Theorem sanitize_user_input_safe (text : string) (max_length : Z) :
  (0 <= max_length)%Z ->
  let r := sanitize_user_input text max_length in
  (Z.of_nat (PyText.len r) <= max_length)%Z /\
  Forall (fun c => is_control c = false) (PyText.bytes r) /\
  (text = EmptyString -> r = EmptyString).
Proof.
  intros Hmax. cbn zeta. unfold sanitize_user_input.
  destruct text as [|c text]; [now repeat split; try constructor|].
  cbn [truthy_str negb]. split; [|split; [|discriminate]].
  - unfold PyText.slice_to. rewrite (proj2 (Z.leb_le 0 max_length) Hmax).
    pose proof (len_take_chars (Z.to_nat max_length)
                  (PyText.strip (remove_control (String c text)))). lia.
  - apply keeps_bytes_slice_to, keeps_bytes_strip, remove_control_clean.
Qed.

Lemma sanitize_user_input_witness :
  let r := sanitize_user_input "  https://youtu.be/dQw4w9WgXcQ  " 1000 in
  (Z.of_nat (PyText.len r) <= 1000)%Z /\
  Forall (fun c => is_control c = false) (PyText.bytes r) /\
  ("  https://youtu.be/dQw4w9WgXcQ  " = EmptyString -> r = EmptyString).
Proof.
  apply (sanitize_user_input_safe "  https://youtu.be/dQw4w9WgXcQ  " 1000). lia.
Defined.

Example sanitize_samples :
  sanitize_filename "test<>file.txt" = "test__file.txt" /\
  sanitize_filename "  ..  " = "media" /\
  sanitize_filename "../../etc/passwd" = "_.._etc_passwd" /\
  sanitize_user_input "  https://youtu.be/dQw4w9WgXcQ  " 1000
  = "https://youtu.be/dQw4w9WgXcQ".
Proof. vm_compute. repeat split. Qed.

(** ** The cookies setting *)

Lemma split_head (sep : ascii) (s : string) :
  exists part parts, PyText.split sep s = part :: parts.
Proof.
  induction s as [|c s1 IH]; [now exists EmptyString, []|].
  cbn [PyText.split]. destruct (Ascii.eqb c sep); [eauto|].
  destruct IH as (part & parts & ->). eauto.
Qed.

(** X15.  [_parse_cookies_from_browser] gives nothing exactly when the
    text before the first colon is blank (the empty setting included);
    otherwise it gives that text, stripped, as the browser, followed by
    at most three more values, none of them empty. *)
Theorem parse_cookies_from_browser_spec (raw_value : string) :
  let browser := PyText.strip (hd EmptyString (PyText.split ":" raw_value)) in
  (parse_cookies_from_browser raw_value = None <-> browser = EmptyString) /\
  (forall values, parse_cookies_from_browser raw_value = Some values ->
     exists more,
       values = browser :: more /\ length more <= 3 /\
       Forall (fun v => v <> EmptyString) values).
Proof.
  cbn zeta. unfold parse_cookies_from_browser.
  destruct raw_value as [|c raw]; [split; [now split | discriminate]|].
  cbn [truthy_str negb].
  destruct (split_head ":" (String c raw)) as (part & parts & ->).
  cbn [map hd].
  destruct (PyText.strip part) as [|b browser] eqn:Hb; cbn [truthy_str negb].
  - split; [now split | discriminate].
  - split; [split; discriminate|].
    intros values [= <-]. eexists. split; [reflexivity|]. split.
    + etransitivity; [apply length_filter|]. rewrite length_take. lia.
    + constructor; [discriminate|]. apply Forall_forall. intros v Hv.
      apply list_elem_of_filter in Hv as [Hv _]. now destruct v.
Qed.

Example parse_cookies_samples :
  parse_cookies_from_browser "chrome" = Some ["chrome"] /\
  parse_cookies_from_browser "firefox:default-release"
  = Some ["firefox"; "default-release"] /\
  parse_cookies_from_browser "edge::Profile 1" = Some ["edge"; "Profile 1"] /\
  parse_cookies_from_browser " : chrome" = None /\
  parse_cookies_from_browser "a:b:c:d:e" = Some ["a"; "b"; "c"; "d"].
Proof. vm_compute. repeat split. Qed.

(** ** Which links are taken *)

Lemma contains_longer (pre p s : string) :
  PyStr.contains p s = false -> PyStr.contains (pre +:+ p) s = false.
Proof.
  intros H. destruct (PyStr.contains (pre +:+ p) s) eqn:Hc; [|reflexivity].
  apply contains_spec in Hc as (a & b & ->).
  assert (PyStr.contains p (a +:+ (pre +:+ p) +:+ b) = true) as Hp.
  { apply contains_spec. exists (a +:+ pre), b. now rewrite !append_assoc. }
  congruence.
Qed.

(** X16.  The two tests on a link agree: [is_supported_url] takes a
    link exactly when [detect_platform] finds a platform for it, so a
    link the handler lets through is never of the unknown platform. *)
Theorem supported_iff_platform (direct_file_re : string -> bool) (url : string) :
  is_supported_url direct_file_re url = true <->
  detect_platform direct_file_re url <> UNKNOWN.
Proof.
  unfold is_supported_url, detect_platform.
  destruct url as [|c url]; [split; [discriminate | congruence]|].
  cbn [truthy_str negb]. set (low := PyStr.lower (String c url)).
  unfold any_token_in, SUPPORTED_DOMAINS. cbn [existsb].
  destruct (PyStr.contains "youtube.com" low); [now split|].
  destruct (PyStr.contains "youtu.be" low); [now split|].
  destruct (PyStr.contains "tiktok.com" low) eqn:Htt; [now split|].
  pose proof (contains_longer "vm." "tiktok.com" low Htt) as Hvm.
  pose proof (contains_longer "vt." "tiktok.com" low Htt) as Hvt.
  pose proof (contains_longer "m." "tiktok.com" low Htt) as Hm.
  cbn [String.append] in Hvm, Hvt, Hm. rewrite Hvm, Hvt, Hm.
  destruct (PyStr.contains "instagram.com" low); [now split|].
  destruct (PyStr.contains "facebook.com" low); [now split|].
  destruct (PyStr.contains "twitter.com" low); [now split|].
  destruct (PyStr.contains "x.com" low); [now split|].
  destruct (PyStr.contains "vk.com" low); [now split|].
  destruct (PyStr.contains "m.vkvideo.ru" low); [now split|].
  destruct (PyStr.contains "reddit.com" low); [now split|].
  destruct (PyStr.contains "pinterest.com" low); [now split|].
  destruct (PyStr.contains "pin.it" low); [now split|].
  destruct (PyStr.contains "dailymotion.com" low); [now split|].
  destruct (PyStr.contains "vimeo.com" low); [now split|].
  destruct (PyStr.contains "soundcloud.com" low); [now split|].
  cbn [orb]. destruct (direct_file_re (String c url)); split; congruence.
Qed.

(** ** Direct links *)

Lemma sanitize_filename_bytes (filename : string) :
  Forall (fun c => is_reserved c = false /\ is_control c = false)
    (PyText.bytes (sanitize_filename filename)).
Proof.
  unfold sanitize_filename.
  set (s0 := remove_control (replace_reserved filename)).
  assert (Forall (fun c => is_reserved c = false /\ is_control c = false)
            (PyText.bytes s0)) as H0.
  { apply Forall_and. split.
    - apply keeps_bytes_remove_control, replace_reserved_clean.
    - apply remove_control_clean. }
  apply keeps_bytes_take_chars.
  destruct (truthy_str (PyText.strip_dots (PyText.strip s0))).
  - apply keeps_bytes_strip_dots, keeps_bytes_strip, H0.
  - repeat constructor.
Qed.

Section Direct.

Context (E : env).

(** X9.  A direct link to a file is fetched by one HTTP transfer of the
    link itself into the workspace, with no extractor call, no page
    fetched and no second try: what the transfer raises is raised.  The
    file is named by [sanitize_filename] of the base name of the link's
    path, or of [download_] and the time when that is empty, and [.mp3]
    (audio) or [.mp4] (video) is added when the name has no dot.  So the
    name has a dot and holds no slash, no other reserved character and
    no control character of one byte: the file is in the workspace.
    When [urlparse] raises, that is raised and nothing is transferred. *)
Theorem direct_fetch_spec (url dir mode : string) (sm : bool) (w : world) :
  detect_platform (direct_file_re E) url = DIRECT ->
  exists edit,
    status_edit "Скачиваю медиа..." edit /\
    match urlparse_path E url with
    | Raise e =>
        trace (download_content E url dir mode sm w).2 = trace w ++ edit /\
        fs (download_content E url dir mode sm w).2 = fs w /\
        (download_content E url dir mode sm w).1 = Raise e
    | Ret parsed_path =>
        exists name failed,
          (let base := basename parsed_path in
           let safe :=
             sanitize_filename
               (if truthy_str base then base
                else "download_" +:+
                     time_stamp E {| fs := fs w; trace := trace w ++ edit |}) in
           name = if PyStr.contains "." safe then safe
                  else safe +:+ (if bool_decide (mode = AUDIO) then ".mp3"
                                 else ".mp4")) /\
          PyStr.contains "." name = true /\
          Forall (fun c => is_reserved c = false /\ is_control c = false)
            (PyText.bytes name) /\
          trace (download_content E url dir mode sm w).2
          = trace w ++ edit ++ [EvHttpDownload url (dir, name) failed] /\
          (download_content E url dir mode sm w).1
          = match failed with
            | None => Ret (Some (dir, name))
            | Some e => Raise e
            end
    end.
Proof.
  intros Hplat.
  destruct (edit_status_shape E sm "Скачиваю медиа..." w) as (edit & He & Hedit).
  exists edit. split; [exact Hedit|].
  set (w0 := {| fs := fs w; trace := trace w ++ edit |}) in *.
  destruct (urlparse_path E url) as [parsed_path|e] eqn:Hparse.
  2:{ assert (download_content E url dir mode sm w = (Raise e, w0)) as ->.
      { unfold download_content. rewrite Hplat, Hparse. unfold bind.
        now rewrite He. }
      now repeat split. }
  set (base := basename parsed_path).
  set (safe := sanitize_filename
                 (if truthy_str base then base else "download_" +:+ time_stamp E w0)).
  set (name := if PyStr.contains "." safe then safe
               else safe +:+ (if bool_decide (mode = AUDIO) then ".mp3" else ".mp4")).
  assert (download_content E url dir mode sm w
          = bind (download_file_async E url (dir, name))
              (fun _ => ret (Some (dir, name))) w0) as ->.
  { unfold download_content. rewrite Hplat, Hparse. unfold bind at 1. rewrite He.
    unfold bind at 1, get. fold base. fold safe. unfold name.
    now destruct (PyStr.contains "." safe). }
  unfold download_file_async, bind, get, set_listing, log, modify, ret, raise.
  destruct (o_http_download E w0 url (dir, name)) as [entries failed].
  exists name, failed. split; [reflexivity|]. split; [|split].
  - unfold name. destruct (PyStr.contains "." safe) eqn:Hdot; [exact Hdot|].
    apply contains_dot_suffix. now destruct (bool_decide (mode = AUDIO)).
  - pose proof (sanitize_filename_bytes
                  (if truthy_str base then base
                   else "download_" +:+ time_stamp E w0)) as Hsafe.
    fold safe in Hsafe. unfold name.
    destruct (PyStr.contains "." safe); [exact Hsafe|].
    rewrite bytes_app. apply Forall_app. split; [exact Hsafe|].
    destruct (bool_decide (mode = AUDIO)); repeat constructor.
  - destruct failed as [e|]; cbn [fst snd trace]; unfold w0; cbn [trace];
      now rewrite <- app_assoc.
Qed.

End Direct.

Lemma direct_fetch_witness :
  exists edit,
    status_edit "Скачиваю медиа..." edit /\
    match urlparse_path direct_env direct_url with
    | Raise e =>
        trace (download_content direct_env direct_url sample_dir "video" true
                 empty_world).2 = trace empty_world ++ edit /\
        fs (download_content direct_env direct_url sample_dir "video" true
              empty_world).2 = fs empty_world /\
        (download_content direct_env direct_url sample_dir "video" true
           empty_world).1 = Raise e
    | Ret parsed_path =>
        exists name failed,
          (let base := basename parsed_path in
           let safe :=
             sanitize_filename
               (if truthy_str base then base
                else "download_" +:+
                     time_stamp direct_env
                       {| fs := fs empty_world; trace := trace empty_world ++ edit |}) in
           name = if PyStr.contains "." safe then safe
                  else safe +:+ (if bool_decide ("video" = AUDIO) then ".mp3"
                                 else ".mp4")) /\
          PyStr.contains "." name = true /\
          Forall (fun c => is_reserved c = false /\ is_control c = false)
            (PyText.bytes name) /\
          trace (download_content direct_env direct_url sample_dir "video" true
                   empty_world).2
          = trace empty_world ++ edit
            ++ [EvHttpDownload direct_url (sample_dir, name) failed] /\
          (download_content direct_env direct_url sample_dir "video" true
             empty_world).1
          = match failed with
            | None => Ret (Some (sample_dir, name))
            | Some e => Raise e
            end
    end.
Proof.
  apply (direct_fetch_spec direct_env direct_url sample_dir "video" true empty_world).
  vm_compute. reflexivity.
Defined.

(** The names of direct files: the base name of the path, made safe. *)
Example direct_file_names :
  sanitize_filename (basename "/files/clip.mp4") = "clip.mp4" /\
  sanitize_filename (basename "/files/a:b?.mp4") = "a_b_.mp4" /\
  basename "/files/" = EmptyString /\
  basename "clip.mp4" = "clip.mp4" /\
  sanitize_filename (basename "/files/..") = "media".
Proof. vm_compute. repeat split. Qed.

(** ** The video URL of a page *)

Lemma search_found {A} (match_at : string -> option A) (s : string) (r : A) :
  search match_at s = Some r ->
  exists pre t, s = pre +:+ t /\ match_at t = Some r.
Proof.
  induction s as [|c s IH]; cbn [search].
  - destruct (match_at EmptyString) eqn:Hm; [|discriminate].
    intros [= <-]. now exists EmptyString, EmptyString.
  - destruct (match_at (String c s)) eqn:Hm.
    + intros [= <-]. now exists EmptyString, (String c s).
    + intros H. destruct (IH H) as (pre & t & -> & Ht). now exists (String c pre), t.
Qed.

Lemma until_slash_spec (s : string) :
  s = (until_slash s).1 +:+ (until_slash s).2 /\
  Forall (fun c => c <> "/"%char) (PyText.bytes (until_slash s).1).
Proof.
  induction s as [|c s IH]; [split; [reflexivity | constructor]|].
  cbn [until_slash]. destruct (Ascii.eqb c "/") eqn:Hc.
  - split; [reflexivity | constructor].
  - destruct (until_slash s) as [run rest]. destruct IH as [IH1 IH2]. simpl in *.
    split; [now f_equal|]. constructor; [|exact IH2].
    intros ->. now rewrite Ascii.eqb_refl in Hc.
Qed.

Lemma take_digits_id (s : string) :
  PyStr.take_digits s <> EmptyString ->
  PyStr.all_digits (PyStr.take_digits s) = true.
Proof. intros _. apply take_digits_all. Qed.

Lemma match_user_video_at_some (s user id : string) :
  match_user_video_at s = Some (user, id) ->
  user <> EmptyString /\ Forall (fun c => c <> "/"%char) (PyText.bytes user) /\
  id <> EmptyString /\ PyStr.all_digits id = true.
Proof.
  unfold match_user_video_at.
  destruct (PyStr.strip_prefix "/@" s) as [s1|]; [|discriminate].
  pose proof (until_slash_spec s1) as [_ Hrun].
  destruct (until_slash s1) as [run s2]. simpl in Hrun.
  destruct run as [|c run]; [discriminate|].
  destruct (PyStr.strip_prefix "/video/" s2) as [s3|]; [|discriminate].
  pose proof (take_digits_all s3) as Hall.
  destruct (PyStr.take_digits s3) as [|d ds]; [discriminate|].
  intros [= <- <-]. now repeat split.
Qed.

Lemma match_item_id_at_some (s id : string) :
  match_item_id_at s = Some id ->
  id <> EmptyString /\ PyStr.all_digits id = true.
Proof.
  unfold match_item_id_at.
  destruct (PyStr.strip_prefix _ s) as [s1|]; [|discriminate].
  destruct (PyStr.strip_prefix ":" _) as [s2|]; [|discriminate].
  destruct (PyStr.strip_prefix PyText.dquote _) as [s3|]; [|discriminate].
  pose proof (take_digits_all s3) as Hall.
  destruct (PyStr.take_digits s3) as [|d ds]; [discriminate|].
  destruct (PyStr.startswith _ _); [|discriminate].
  intros [= <-]. now split.
Qed.

Lemma search_video_id_no_slash (u t : string) :
  Forall (fun c => c <> "/"%char) (PyText.bytes u) ->
  search_video_id (u +:+ t) = search_video_id t.
Proof.
  induction u as [|c u IH]; [reflexivity|].
  intros H. simpl in H. apply Forall_cons in H as [Hc Hu].
  change (String c u +:+ t) with (String c (u +:+ t)).
  rewrite search_video_id_skip; [now apply IH|].
  unfold match_video_at. cbn [PyStr.strip_prefix].
  destruct (Ascii.eqb "/" c) eqn:E; [|reflexivity].
  apply Ascii.eqb_eq in E. congruence.
Qed.

Lemma canonicalize_user_video (user id : string) :
  Forall (fun c => c <> "/"%char) (PyText.bytes user) ->
  id <> EmptyString -> PyStr.all_digits id = true ->
  canonicalize_tiktok_video_url
    ("https://www.tiktok.com/@" +:+ user +:+ "/video/" +:+ id)
  = Some (TIKTOK_ROOT +:+ id).
Proof.
  intros Hu Hne Hall. unfold canonicalize_tiktok_video_url.
  assert (search_video_id ("https://www.tiktok.com/@" +:+ user +:+ "/video/" +:+ id)
          = Some id) as ->; [|reflexivity].
  simpl String.append.
  do 24 (rewrite search_video_id_skip by reflexivity).
  rewrite search_video_id_no_slash by exact Hu.
  pose proof (search_video_id_here id EmptyString Hne Hall eq_refl) as H.
  rewrite append_nil_r in H. exact H.
Qed.

Lemma contains_middle (pre p post : string) :
  PyStr.contains p (pre +:+ p +:+ post) = true.
Proof. apply contains_spec. now exists pre, post. Qed.

Lemma extract_tiktok_video_found (html r : string) :
  extract_tiktok_video_from_html html = Some r ->
  exists id,
    id <> EmptyString /\ PyStr.all_digits id = true /\
    canonicalize_tiktok_video_url r = Some (TIKTOK_ROOT +:+ id) /\
    PyStr.contains "/video/" r = true /\
    (r = TIKTOK_ROOT +:+ id \/
     exists user,
       user <> EmptyString /\ Forall (fun c => c <> "/"%char) (PyText.bytes user) /\
       r = "https://www.tiktok.com/@" +:+ user +:+ "/video/" +:+ id).
Proof.
  unfold extract_tiktok_video_from_html.
  destruct (search match_user_video_at html) as [[user id]|] eqn:H1.
  - intros [= <-]. apply search_found in H1 as (pre & t & _ & Hm).
    apply match_user_video_at_some in Hm as (Hu & Hslash & Hne & Hall).
    exists id. split; [exact Hne|]. split; [exact Hall|]. split; [|split].
    + now apply canonicalize_user_video.
    + pose proof (contains_middle ("https://www.tiktok.com/@" +:+ user) "/video/" id)
        as H. rewrite append_assoc in H. exact H.
    + right. now exists user.
  - destruct (search match_item_id_at html) as [id|] eqn:H2; [|discriminate].
    intros [= <-]. apply search_found in H2 as (pre & t & _ & Hm).
    apply match_item_id_at_some in Hm as (Hne & Hall).
    exists id. split; [exact Hne|]. split; [exact Hall|]. split; [|split].
    + now apply canonicalize_canonical.
    + apply (contains_middle "https://www.tiktok.com/@_" "/video/" id).
    + now left.
Qed.

(** X17.  The URL [extract_tiktok_video_from_html] finds in a page
    always has the shape the attempt planner looks for: it holds
    [/video/] followed by a number, and its canonical form is the root
    followed by that number.  It is either the canonical URL itself
    (found by the item id) or the URL of a user, whose name is not empty
    and has no slash. *)
Theorem extract_tiktok_video_canonical (html r : string) :
  extract_tiktok_video_from_html html = Some r ->
  exists id,
    id <> EmptyString /\ PyStr.all_digits id = true /\
    canonicalize_tiktok_video_url r = Some (TIKTOK_ROOT +:+ id) /\
    PyStr.contains "/video/" r = true /\
    (r = TIKTOK_ROOT +:+ id \/
     exists user,
       user <> EmptyString /\ Forall (fun c => c <> "/"%char) (PyText.bytes user) /\
       r = "https://www.tiktok.com/@" +:+ user +:+ "/video/" +:+ id).
Proof. apply extract_tiktok_video_found. Qed.

Lemma extract_tiktok_video_witness :
  exists id,
    id <> EmptyString /\ PyStr.all_digits id = true /\
    canonicalize_tiktok_video_url
      "https://www.tiktok.com/@lain/video/7301234567890123456"
    = Some (TIKTOK_ROOT +:+ id) /\
    PyStr.contains "/video/" "https://www.tiktok.com/@lain/video/7301234567890123456"
    = true /\
    ("https://www.tiktok.com/@lain/video/7301234567890123456" = TIKTOK_ROOT +:+ id \/
     exists user,
       user <> EmptyString /\ Forall (fun c => c <> "/"%char) (PyText.bytes user) /\
       "https://www.tiktok.com/@lain/video/7301234567890123456"
       = "https://www.tiktok.com/@" +:+ user +:+ "/video/" +:+ id).
Proof.
  apply (extract_tiktok_video_canonical sample_page). vm_compute. reflexivity.
Defined.

Example extract_by_item_id :
  extract_tiktok_video_from_html
    ("{" +:+ PyText.dquote +:+ "itemId" +:+ PyText.dquote +:+ " : "
     +:+ PyText.dquote +:+ "7301234567890123456" +:+ PyText.dquote +:+ "}")
  = Some "https://www.tiktok.com/@_/video/7301234567890123456" /\
  extract_tiktok_video_from_html "<html></html>" = None.
Proof. vm_compute. split; reflexivity. Qed.

Example extract_digits_of_another_script :
  extract_tiktok_video_from_html "<a href=/@lain/video/７３０１>"
  = Some "https://www.tiktok.com/@lain/video/７３０１".
Proof. vm_compute. reflexivity. Qed.

(** ** The normalized URL *)

Section Normalize.

Context (N : net).

Lemma normalize_unfold (url : string) (calls : list net_call) :
  normalize_tiktok_url_async N url calls =
  let resolved :=
    if any_token_in SHORTENER_DOMAINS (PyStr.lower url) then
      match o_head N calls url with
      | Ret u => (Ret u, calls ++ [NetHead url])
      | Raise _ =>
          (o_get_url N (calls ++ [NetHead url]) url,
           (calls ++ [NetHead url]) ++ [NetGet url])
      end
    else (Ret url, calls) in
  match resolved with
  | (Raise _, calls1) => (Ret None, calls1)
  | (Ret final_url, calls1) =>
      if PyStr.contains "/video/" (strip_tracking_params N final_url)
      then (Ret (Some (strip_tracking_params N final_url)), calls1)
      else
        (Ret match o_get_page N calls1 final_url with
             | Ret (http_status, Ret html) =>
                 if negb (http_status =? 200)%Z then None
                 else extract_tiktok_video_from_html html
             | _ => None
             end,
         calls1 ++ [NetGet final_url])
  end.
Proof.
  unfold normalize_tiktok_url_async, try_except, bind, get, net_log, modify, answer,
    ret, raise.
  destruct (any_token_in SHORTENER_DOMAINS (PyStr.lower url)); cbn zeta.
  - destruct (o_head N calls url) as [u|e].
    + destruct (PyStr.contains "/video/" (strip_tracking_params N u)); [reflexivity|].
      destruct (o_get_page N _ u) as [[st [html|e]]|e]; try reflexivity;
        now destruct (negb (st =? 200)%Z).
    + destruct (o_get_url N _ url) as [u|e']; [|reflexivity].
      destruct (PyStr.contains "/video/" (strip_tracking_params N u)); [reflexivity|].
      destruct (o_get_page N _ u) as [[st [html|e2]]|e2]; try reflexivity;
        now destruct (negb (st =? 200)%Z).
  - destruct (PyStr.contains "/video/" (strip_tracking_params N url)); [reflexivity|].
    destruct (o_get_page N _ url) as [[st [html|e]]|e]; try reflexivity;
      now destruct (negb (st =? 200)%Z).
Qed.

(** X18.  [normalize_tiktok_url_async] raises nothing, whatever the
    network does, and makes at most three calls.  A URL it returns
    always holds [/video/]: it is the resolved URL without its tracking
    parameters, or the URL found in the page, which the extractor's plan
    can make canonical.  Every URL that names the platform counts as a
    short link: the first call is the [HEAD] request of the URL itself. *)
Theorem normalize_tiktok_url_spec (url : string) (calls : list net_call) :
  exists res made,
    normalize_tiktok_url_async N url calls = (Ret res, calls ++ made) /\
    length made <= 3 /\
    (forall u, res = Some u -> PyStr.contains "/video/" u = true) /\
    (PyStr.contains "tiktok.com" (PyStr.lower url) = true ->
     exists rest, made = NetHead url :: rest).
Proof.
  rewrite normalize_unfold.
  assert (PyStr.contains "tiktok.com" (PyStr.lower url) = true ->
          any_token_in SHORTENER_DOMAINS (PyStr.lower url) = true) as Hshort.
  { intros H. unfold any_token_in, SHORTENER_DOMAINS. cbn [existsb].
    rewrite H. now rewrite !orb_true_r. }
  assert (forall (page : outcome (Z * outcome string)) u,
            match page with
            | Ret (http_status, Ret html) =>
                if negb (http_status =? 200)%Z then None
                else extract_tiktok_video_from_html html
            | _ => None
            end = Some u -> PyStr.contains "/video/" u = true) as Hpage.
  { intros [[st [html|e]]|e] u; try discriminate.
    destruct (negb (st =? 200)%Z); [discriminate|].
    intros H. now apply extract_tiktok_video_found in H as (id & _ & _ & _ & H & _). }
  destruct (any_token_in SHORTENER_DOMAINS (PyStr.lower url)) eqn:Hs;
    cbv beta iota zeta.
  - destruct (o_head N calls url) as [u|e].
    + destruct (PyStr.contains "/video/" (strip_tracking_params N u)) eqn:Hv.
      * exists (Some (strip_tracking_params N u)), [NetHead url].
        split; [reflexivity|]. split; [simpl; lia|]. split; [|eauto].
        now intros u' [= <-].
      * eexists _, [NetHead url; NetGet u]. rewrite <- app_assoc.
        split; [reflexivity|]. split; [simpl; lia|]. split; [apply Hpage | eauto].
    + destruct (o_get_url N _ url) as [u|e'].
      * destruct (PyStr.contains "/video/" (strip_tracking_params N u)) eqn:Hv.
        -- exists (Some (strip_tracking_params N u)), [NetHead url; NetGet url].
           rewrite <- app_assoc.
           split; [reflexivity|]. split; [simpl; lia|]. split; [|eauto].
           now intros u' [= <-].
        -- eexists _, [NetHead url; NetGet url; NetGet u]. rewrite <- !app_assoc.
           split; [reflexivity|]. split; [simpl; lia|]. split; [apply Hpage | eauto].
      * exists None, [NetHead url; NetGet url]. rewrite <- app_assoc.
        split; [reflexivity|]. split; [simpl; lia|]. split; [discriminate | eauto].
  - assert (PyStr.contains "tiktok.com" (PyStr.lower url) = true -> False) as Hno
      by (intros H; apply Hshort in H; congruence).
    destruct (PyStr.contains "/video/" (strip_tracking_params N url)) eqn:Hv.
    + exists (Some (strip_tracking_params N url)), []. rewrite app_nil_r.
      split; [reflexivity|]. split; [simpl; lia|]. split; [|intros H; now apply Hno in H].
      now intros u' [= <-].
    + eexists _, [NetGet url].
      split; [reflexivity|]. split; [simpl; lia|].
      split; [apply Hpage | intros H; now apply Hno in H].
Qed.

End Normalize.

Example normalize_short_link :
  normalize_tiktok_url_async sample_net "https://vm.tiktok.com/ZT8abcdef/" []
  = (Ret (Some "https://www.tiktok.com/@lain/video/7301234567890123456"),
     [NetHead "https://vm.tiktok.com/ZT8abcdef/";
      NetGet "https://www.tiktok.com/t/ZT8abcdef/"]).
Proof. vm_compute. reflexivity. Qed.

(** ** The links waiting for a choice of format *)

Lemma Qgt_bool_true (a b : Q) : Qgt_bool a b = true <-> (b < a)%Q.
Proof.
  unfold Qgt_bool. rewrite negb_true_iff, <- not_true_iff_false, Qle_bool_iff.
  split; [apply Qnot_le_lt | apply Qlt_not_le].
Qed.

Lemma Qgt_bool_false (a b : Q) : Qgt_bool a b = false <-> (a <= b)%Q.
Proof.
  unfold Qgt_bool. rewrite negb_false_iff. apply Qle_bool_iff.
Qed.

Lemma cleanup_lookup (now : Q) (h : BotHandlers) (token : string) (p : payload) :
  pending_links (cleanup_pending_links now h) !! token = Some p ->
  pending_links h !! token = Some p /\
  ((now - p_created_at p <= pending_link_ttl_seconds)%Q \/
   (now - last_pending_cleanup h < pending_cleanup_interval_seconds)%Q).
Proof.
  unfold cleanup_pending_links.
  destruct (Qgt_bool pending_cleanup_interval_seconds _) eqn:Hdue.
  - intros H. split; [exact H|]. right. now apply Qgt_bool_true.
  - cbn [pending_links]. intros H. apply map_lookup_filter_Some in H as [H Hp].
    split; [exact H|]. left. cbn [snd] in Hp. now apply Qgt_bool_false.
Qed.

Lemma cleanup_keeps (now : Q) (h : BotHandlers) (token : string) (p : payload) :
  pending_links h !! token = Some p ->
  (now - p_created_at p <= pending_link_ttl_seconds)%Q ->
  pending_links (cleanup_pending_links now h) !! token = Some p.
Proof.
  intros H Hage. unfold cleanup_pending_links.
  destruct (Qgt_bool pending_cleanup_interval_seconds _); [exact H|].
  cbn [pending_links]. apply map_lookup_filter_Some. split; [exact H|].
  cbn [snd]. now apply Qgt_bool_false.
Qed.

(** A link is resolved from an entry that was stored, for its owner. *)
Lemma resolve_some (now : Q) (token : string) (u : Z) (h : BotHandlers)
    (url : string) :
  (resolve_pending_link now token u h).1 = Some url ->
  exists p,
    pending_links h !! token = Some p /\ p_user_id p = u /\ p_url p = url /\
    ((now - p_created_at p <= pending_link_ttl_seconds)%Q \/
     (now - last_pending_cleanup h < pending_cleanup_interval_seconds)%Q).
Proof.
  unfold resolve_pending_link. cbn [fst].
  destruct (pending_links (cleanup_pending_links now h) !! token) as [p|] eqn:Hp;
    [|discriminate].
  destruct (bool_decide (p_user_id p <> u)) eqn:Hu; [discriminate|].
  intros [= <-]. apply bool_decide_eq_false in Hu.
  apply cleanup_lookup in Hp as [Hp Hage].
  exists p. split; [exact Hp|]. split; [|split; [reflexivity | exact Hage]].
  destruct (decide (p_user_id p = u)); [assumption | contradiction].
Qed.

(** X19.  A link is resolved for the requester who sent it and for no
    one else: whatever token another requester presents, at whatever
    time, the link a requester has just stored under it is not given
    out. *)
Theorem pending_link_owner_only (now created_at later : Q) (token : string)
    (u other : Z) (url : string) (h : BotHandlers) :
  other <> u ->
  (resolve_pending_link later token other
     (create_pending_link now created_at token u url h)).1 = None.
Proof.
  intros Hne.
  destruct (resolve_pending_link later token other _).1 as [url'|] eqn:Hres;
    [|reflexivity].
  apply resolve_some in Hres as (p & Hp & Hu & _).
  unfold create_pending_link in Hp. cbn [pending_links] in Hp.
  rewrite lookup_insert_eq in Hp. injection Hp as <-. simpl in Hu. congruence.
Qed.

Lemma pending_link_owner_only_witness :
  (resolve_pending_link 1700000100 "3f2a9c0d1b7e" 8 sample_handlers).1 = None.
Proof.
  apply (pending_link_owner_only 1700000000 1700000000 1700000100 "3f2a9c0d1b7e"
           7 8 "https://youtu.be/dQw4w9WgXcQ" new_handlers).
  discriminate.
Defined.

Lemma run_link_op_keeps (h : BotHandlers) (op : link_op) (token : string)
    (p : payload) :
  pending_links h !! token = Some p ->
  (cleanup_time op - p_created_at p <= pending_link_ttl_seconds)%Q ->
  token_of op <> Some token ->
  pending_links (run_link_op h op) !! token = Some p.
Proof.
  intros Hp Hage Htok. destruct op as [now c token' u' url' | now token' u'];
    cbn [run_link_op cleanup_time token_of] in *.
  - unfold create_pending_link. cbn [pending_links].
    rewrite lookup_insert_ne by congruence. now apply cleanup_keeps.
  - unfold resolve_pending_link. cbn [snd]. now apply cleanup_keeps.
Qed.

Lemma resolve_after_ops (now created_at later : Q) (token : string)
    (u : Z) (url : string) (h : BotHandlers) (ops : list link_op) :
  Forall (fun op =>
            (cleanup_time op - created_at <= pending_link_ttl_seconds)%Q /\
            token_of op <> Some token) ops ->
  (later - created_at <= pending_link_ttl_seconds)%Q ->
  (resolve_pending_link later token u
     (run_link_ops (create_pending_link now created_at token u url h) ops)).1
  = Some url.
Proof.
  intros Hops Hlater.
  set (p := {| p_user_id := u; p_url := url; p_created_at := created_at |}).
  assert (pending_links
            (run_link_ops (create_pending_link now created_at token u url h) ops)
          !! token = Some p) as Hp.
  { assert (pending_links (create_pending_link now created_at token u url h)
            !! token = Some p) as H0
      by (unfold create_pending_link; cbn [pending_links]; apply lookup_insert_eq).
    revert H0. generalize (create_pending_link now created_at token u url h).
    unfold run_link_ops. induction Hops as [|op ops [Hage Htok] _ IH]; intros h0 H0.
    - exact H0.
    - cbn [foldl]. apply IH. now apply run_link_op_keeps. }
  unfold resolve_pending_link. cbn [fst].
  rewrite (cleanup_keeps later _ token p Hp Hlater). cbn [p_user_id p_url p].
  now rewrite bool_decide_eq_false_2 by (intros H; now apply H).
Qed.

Lemma resolve_after_create (now created_at later : Q) (token : string)
    (u : Z) (url : string) (h : BotHandlers) :
  (later - created_at <= pending_link_ttl_seconds)%Q ->
  (resolve_pending_link later token u
     (create_pending_link now created_at token u url h)).1 = Some url.
Proof.
  intros H. now apply (resolve_after_ops now created_at later token u url h []).
Qed.

(** X20.  A stored link is there for its owner until its time to live
    is over: after any number of other calls, creations under other
    tokens and resolutions by anyone, as long as every clock reading is
    within the time to live of the link's creation, the owner gets the
    URL back. *)
Theorem pending_link_round_trip (now created_at later : Q) (token : string)
    (u : Z) (url : string) (h : BotHandlers) (ops : list link_op) :
  Forall (fun op =>
            (cleanup_time op - created_at <= pending_link_ttl_seconds)%Q /\
            token_of op <> Some token) ops ->
  (later - created_at <= pending_link_ttl_seconds)%Q ->
  (resolve_pending_link later token u
     (run_link_ops (create_pending_link now created_at token u url h) ops)).1
  = Some url.
Proof.
  apply resolve_after_ops.
Qed.

Lemma pending_link_round_trip_witness :
  (resolve_pending_link 1700003000 "3f2a9c0d1b7e" 7
     (run_link_ops sample_handlers
        [CreateLink 1700000500 1700000500 "aa11bb22cc33" 8 "https://vimeo.com/1";
         ResolveLink 1700002000 "3f2a9c0d1b7e" 8])).1
  = Some "https://youtu.be/dQw4w9WgXcQ".
Proof.
  apply (pending_link_round_trip 1700000000 1700000000 1700003000 "3f2a9c0d1b7e" 7
           "https://youtu.be/dQw4w9WgXcQ" new_handlers
           [CreateLink 1700000500 1700000500 "aa11bb22cc33" 8 "https://vimeo.com/1";
            ResolveLink 1700002000 "3f2a9c0d1b7e" 8]).
  - repeat constructor; try (vm_compute; discriminate); discriminate.
  - vm_compute. discriminate.
Defined.

(** *** With a clock that never goes back *)

Lemma links_inv_cleanup (t now : Q) (h : BotHandlers) :
  links_inv t h -> (t <= now)%Q -> links_inv now (cleanup_pending_links now h).
Proof.
  intros [Hlast Hage] Ht. unfold cleanup_pending_links.
  destruct (Qgt_bool pending_cleanup_interval_seconds _) eqn:Hdue.
  - split; [lra | exact Hage].
  - split; cbn [last_pending_cleanup pending_links]; [lra|].
    intros token p Hp. apply map_lookup_filter_Some in Hp as [_ Hp].
    cbn [snd] in Hp. now apply Qgt_bool_false in Hp.
Qed.

Lemma links_inv_op (t : Q) (h : BotHandlers) (op : link_op) (rest : list Q) :
  links_inv t h -> chronological t (readings op ++ rest) ->
  exists t', links_inv t' (run_link_op h op) /\ chronological t' rest.
Proof.
  intros Hinv Hchron. destruct op as [now c token u url | now token u];
    cbn [readings app chronological run_link_op] in *.
  - destruct Hchron as (Hnow & Hc & Hrest). exists c. split; [|exact Hrest].
    destruct (links_inv_cleanup t now h Hinv Hnow) as [Hlast Hage].
    unfold create_pending_link. split; cbn [last_pending_cleanup pending_links].
    + lra.
    + intros token' p. rewrite lookup_insert. case_decide.
      * intros [= <-]. cbn [p_created_at]. unfold pending_link_ttl_seconds. lra.
      * apply Hage.
  - destruct Hchron as (Hnow & Hrest). exists now. split; [|exact Hrest].
    unfold resolve_pending_link. cbn [snd]. now apply (links_inv_cleanup t).
Qed.

Lemma links_inv_ops (ops : list link_op) (t : Q) (h : BotHandlers) (rest : list Q) :
  links_inv t h -> chronological t (concat (readings <$> ops) ++ rest) ->
  exists t', links_inv t' (run_link_ops h ops) /\ chronological t' rest.
Proof.
  revert t h. unfold run_link_ops.
  induction ops as [|op ops IH]; intros t h Hinv Hchron.
  - now exists t.
  - cbn [fmap list_fmap concat foldl] in *. rewrite <- app_assoc in Hchron.
    destruct (links_inv_op t h op _ Hinv Hchron) as (t1 & Hinv1 & Hchron1).
    now apply (IH t1).
Qed.

(** X21.  While the clock never goes back, a link is resolved only if
    it is younger than the time to live plus the cleanup interval,
    3660 seconds: the cleanup runs at most once a minute, so a link can
    outlive its hour by less than a minute, and no longer. *)
Theorem pending_link_expiry (ops : list link_op) (now : Q) (token : string)
    (u : Z) (url : string) :
  chronological 0 (concat (readings <$> ops) ++ [now]) ->
  (resolve_pending_link now token u (run_link_ops new_handlers ops)).1 = Some url ->
  exists p,
    pending_links (run_link_ops new_handlers ops) !! token = Some p /\
    p_user_id p = u /\ p_url p = url /\
    (now - p_created_at p
     < pending_link_ttl_seconds + pending_cleanup_interval_seconds)%Q.
Proof.
  intros Hchron Hres.
  assert (links_inv 0 new_handlers) as H0.
  { split; [cbn; lra|]. intros token' p H. cbn in H. now rewrite lookup_empty in H. }
  destruct (links_inv_ops ops 0 new_handlers [now] H0 Hchron)
    as (t & [Hlast Hage] & Hnow & _).
  apply resolve_some in Hres as (p & Hp & Hu & Hurl & Hyoung).
  exists p. split; [exact Hp|]. split; [exact Hu|]. split; [exact Hurl|].
  specialize (Hage token p Hp).
  unfold pending_link_ttl_seconds, pending_cleanup_interval_seconds in *.
  destruct Hyoung as [Hyoung|Hyoung]; lra.
Qed.

Lemma pending_link_expiry_witness :
  exists p,
    pending_links
      (run_link_ops new_handlers
         [CreateLink 1700000000 1700000000 "3f2a9c0d1b7e" 7
            "https://youtu.be/dQw4w9WgXcQ"]) !! "3f2a9c0d1b7e" = Some p /\
    p_user_id p = 7%Z /\ p_url p = "https://youtu.be/dQw4w9WgXcQ" /\
    (1700000100 - p_created_at p
     < pending_link_ttl_seconds + pending_cleanup_interval_seconds)%Q.
Proof.
  apply (pending_link_expiry
           [CreateLink 1700000000 1700000000 "3f2a9c0d1b7e" 7
              "https://youtu.be/dQw4w9WgXcQ"] 1700000100 "3f2a9c0d1b7e" 7).
  - cbn. repeat split; discriminate.
  - vm_compute. reflexivity.
Defined.

(** A link older than its hour is still given out when the last
    cleanup was less than a minute ago. *)
Example stale_link_resolved :
  let h1 := create_pending_link 1700000000 1700000000 "3f2a9c0d1b7e" 7
              "https://youtu.be/dQw4w9WgXcQ" new_handlers in
  let h2 := (resolve_pending_link 1700003590 "aa11bb22cc33" 8 h1).2 in
  (resolve_pending_link 1700003640 "3f2a9c0d1b7e" 7 h2).1
  = Some "https://youtu.be/dQw4w9WgXcQ".
Proof. vm_compute. reflexivity. Qed.

(** ** The button *)

Lemma split_max_head (sep : ascii) (n : nat) (s : string) :
  exists part parts, PyText.split_max sep n s = part :: parts.
Proof.
  revert n. induction s as [|c s IH]; intros n; [now exists EmptyString, []|].
  cbn [PyText.split_max]. destruct n as [|k]; [eauto|].
  destruct (Ascii.eqb c sep); [eauto|].
  destruct (IH (S k)) as (part & parts & ->). eauto.
Qed.

Lemma join_cons (sep : ascii) (part part' : string) (rest : list string) :
  join sep (part :: part' :: rest) = part +:+ String sep (join sep (part' :: rest)).
Proof. reflexivity. Qed.

Lemma join_cons_char (sep c : ascii) (part : string) (rest : list string) :
  join sep (String c part :: rest) = String c (join sep (part :: rest)).
Proof. destruct rest; reflexivity. Qed.

(** The parts of a split, joined again, are the text. *)
Lemma split_max_join (sep : ascii) (n : nat) (s : string) :
  join sep (PyText.split_max sep n s) = s.
Proof.
  revert n. induction s as [|c s IH]; intros n; [reflexivity|].
  cbn [PyText.split_max]. destruct n as [|k]; [reflexivity|].
  destruct (Ascii.eqb c sep) eqn:Hc.
  - apply Ascii.eqb_eq in Hc as ->.
    destruct (split_max_head sep k s) as (part & parts & Hs).
    specialize (IH k). rewrite Hs in *. rewrite join_cons, IH. reflexivity.
  - destruct (split_max_head sep (S k) s) as (part & parts & Hs).
    specialize (IH (S k)). rewrite Hs in *. rewrite join_cons_char. now rewrite IH.
Qed.

(** X22.  The button of a link queues a download only for the
    requester who sent the link, for the URL stored with it, in one of
    the two modes, and below the cap; then the task queued is exactly
    that one.  With any other answer the manager is left as it was, and
    the answer that the task could not be queued is given for a mode
    that is neither video nor audio and for nothing else. *)
Theorem callback_queues_own_link (now : Q) (data : string) (u : Z)
    (h : BotHandlers) (dm : DownloadManager) :
  let '(answer, h', dm') := handle_download_callback now data u h dm in
  match answer with
  | Queued position =>
      exists button mode token p,
        data = button +:+ ":" +:+ mode +:+ ":" +:+ token /\
        pending_links h !! token = Some p /\ p_user_id p = u /\
        valid_mode mode = true /\
        (get_user_active_downloads dm u < max_concurrent dm)%Z /\
        add_download dm u (p_url p) mode = (dm', true) /\
        position = Z.max 1 (get_queue_size dm')
  | NotQueued =>
      dm' = dm /\
      exists button mode token,
        data = button +:+ ":" +:+ mode +:+ ":" +:+ token /\ valid_mode mode = false
  | BadButton | LinkStale | AtCap _ => dm' = dm
  end.
Proof.
  unfold handle_download_callback.
  pose proof (split_max_join ":" 2 data) as Hjoin.
  destruct (PyText.split_max ":" 2 data) as [|button [|mode [|token [|x parts]]]];
    try reflexivity.
  cbn [join] in Hjoin.
  destruct (resolve_pending_link now token u h) as [res h1] eqn:Hres.
  destruct res as [url|]; [|reflexivity].
  assert ((resolve_pending_link now token u h).1 = Some url) as Hsome
    by now rewrite Hres.
  apply resolve_some in Hsome as (p & Hp & Hu & Hurl & _).
  destruct (truthy_str url); cbn [negb]; [|reflexivity].
  destruct (max_concurrent dm <=? get_user_active_downloads dm u)%Z eqn:Hcap;
    [reflexivity|].
  apply Z.leb_gt in Hcap.
  destruct (add_download dm u url mode) as [dm1 queued] eqn:Hadd.
  destruct (valid_mode mode) eqn:Hmode.
  - assert (queued = true) as ->.
    { pose proof (proj2 (add_download_allowed_iff dm u url mode Hmode)) as H.
      rewrite Hadd in H. apply H. unfold get_user_active_downloads in Hcap. lia. }
    cbn [negb]. exists button, mode, token, p. rewrite Hurl.
    repeat split; try assumption. now symmetry.
  - rewrite add_download_invalid_mode in Hadd by exact Hmode.
    injection Hadd as <- <-. cbn [negb]. split; [reflexivity|].
    exists button, mode, token. split; [now symmetry | exact Hmode].
Qed.

Example callback_samples :
  let dm := new_manager 3 in
  (handle_download_callback 1700000100 "download:video:3f2a9c0d1b7e" 7
     sample_handlers dm).1.1 = Queued 1 /\
  (handle_download_callback 1700000100 "download:video:3f2a9c0d1b7e" 8
     sample_handlers dm).1.1 = LinkStale /\
  (handle_download_callback 1700000100 "download:gif:3f2a9c0d1b7e" 7
     sample_handlers dm).1.1 = NotQueued /\
  (handle_download_callback 1700000100 "download:video" 7
     sample_handlers dm).1.1 = BadButton.
Proof. vm_compute. repeat split. Qed.

Lemma split_max_button (mode token : string) :
  valid_mode mode = true ->
  PyText.split_max ":" 2 (button_data mode token) = ["download"; mode; token].
Proof.
  unfold valid_mode. intros H. apply orb_true_iff in H as [H|H];
    apply bool_decide_eq_true in H; subst mode; unfold button_data, VIDEO, AUDIO;
    cbn; now destruct token.
Qed.

(** X23.  From the message to the queue: the button put under a link
    queues that link.  A requester below the cap who presses the video
    or the audio button of a link within its time to live gets the
    stored URL queued in that mode, whatever the token is, and is told
    a position of at least one. *)
Theorem button_round_trip (now created_at later : Q) (mode token : string)
    (u : Z) (url : string) (h : BotHandlers) (dm : DownloadManager) :
  valid_mode mode = true ->
  truthy_str url = true ->
  (get_user_active_downloads dm u < max_concurrent dm)%Z ->
  (later - created_at <= pending_link_ttl_seconds)%Q ->
  exists dm' position,
    (handle_download_callback later (button_data mode token) u
       (create_pending_link now created_at token u url h) dm).1.1
      = Queued position /\
    (handle_download_callback later (button_data mode token) u
       (create_pending_link now created_at token u url h) dm).2 = dm' /\
    add_download dm u url mode = (dm', true) /\
    (1 <= position)%Z /\ position = Z.max 1 (get_queue_size dm').
Proof.
  intros Hmode Hurl Hcap Hlater.
  pose proof (resolve_after_create now created_at later token u url h Hlater)
    as Hres.
  unfold handle_download_callback. rewrite (split_max_button mode token Hmode).
  destruct (resolve_pending_link later token u _) as [res h1]. cbn [fst] in Hres.
  subst res. rewrite Hurl. cbn [negb].
  apply Z.leb_gt in Hcap. rewrite Hcap.
  destruct (add_download dm u url mode) as [dm1 queued] eqn:Hadd.
  assert (queued = true) as ->.
  { pose proof (proj2 (add_download_allowed_iff dm u url mode Hmode)) as H.
    rewrite Hadd in H. apply H. apply Z.leb_gt in Hcap.
    unfold get_user_active_downloads in Hcap. lia. }
  cbn [negb fst snd]. exists dm1, (Z.max 1 (get_queue_size dm1)).
  repeat split. lia.
Qed.

Lemma button_round_trip_witness :
  exists dm' position,
    (handle_download_callback 1700000100 (button_data VIDEO "3f2a9c0d1b7e") 7
       sample_handlers (new_manager 3)).1.1 = Queued position /\
    (handle_download_callback 1700000100 (button_data VIDEO "3f2a9c0d1b7e") 7
       sample_handlers (new_manager 3)).2 = dm' /\
    add_download (new_manager 3) 7 "https://youtu.be/dQw4w9WgXcQ" VIDEO
      = (dm', true) /\
    (1 <= position)%Z /\ position = Z.max 1 (get_queue_size dm').
Proof.
  apply (button_round_trip 1700000000 1700000000 1700000100 VIDEO "3f2a9c0d1b7e" 7
           "https://youtu.be/dQw4w9WgXcQ" new_handlers (new_manager 3)).
  - reflexivity.
  - reflexivity.
  - vm_compute. reflexivity.
  - vm_compute. discriminate.
Defined.
